(** * Moving neural cellular automaton: the perception/state engine

    A shallow embedding of [src/moving_nca.py].

    Conventions of the embedding.
    - numpy arrays are nested lists, outermost axis first; the last
      axis of an anchor array (length 2) is a pair [(row, col)].
    - real-valued entries are rationals ([Q]); integer entries are [Z].
    - a Python exception is a value of [exn]; code that may raise
      returns a [result].  A function that mutates an argument in
      place returns the argument's contents after the call, also when
      it raises.
    - numpy operations that work element by element are given per
      element and mapped over the array.  Operands of an element-wise
      operation must have equal shapes: numpy's broadcasting of axes of
      length one is outside the model, which raises [ValueError]
      there.
    - anchors are unbounded integers (their dtype is chosen by the
      anchor initialiser, which is not part of this file); the [int32]
      store of [expand] wraps around.
    - an executor that raises is abandoned: its result is the
      exception alone.  Runs are without visualisation.
    - what [np.empty] hands out is not chosen by the program: every
      allocation has contents of its own, which the executors take as
      an argument.
    - the distance test of the silencing radius is the one of
      [float64], on the primitive floats of Rocq. *)

From Stdlib Require Import ZArith QArith Lia String.
From Stdlib Require PrimFloat SpecFloat FloatOps.
From stdpp Require Import base tactics option list.

Local Open Scope Z_scope.

(** [map] over a list is stdpp's [fmap], whose lemmas the proofs use. *)
Abbreviation map := (fmap (M := list)) (only parsing).

(** ** Exceptions and results *)

Inductive exn : Set :=
  | AssertionError
  | ValueError
  | IndexError
  | ZeroDivisionError
  | NotImplementedError.

Inductive result (A : Type) : Type :=
  | Ok (a : A)
  | Raise (e : exn).
Arguments Ok {A} a.
Arguments Raise {A} e.

Definition rbind {A B} (m : result A) (k : A -> result B) : result B :=
  match m with
  | Ok a => k a
  | Raise e => Raise e
  end.

Definition rmap {A B} (f : A -> B) (m : result A) : result B :=
  rbind m (fun a => Ok (f a)).

Notation "'let*' x ':=' m 'in' k" := (rbind m (fun x => k))
  (at level 10, x pattern, m at level 100, k at level 200).

Definition of_option {A} (e : exn) (o : option A) : result A :=
  match o with
  | Some a => Ok a
  | None => Raise e
  end.

(** [for a in l: s = f a s], stopping at the first exception. *)
Fixpoint foldM {A S} (f : A -> S -> result S) (l : list A) (s : S) : result S :=
  match l with
  | [] => Ok s
  | a :: l' => let* s' := f a s in foldM f l' s'
  end.

(** Python's [range(n)]. *)
Definition range (n : nat) : list nat := seq 0 n.

(** Element-wise combination of two arrays of equal length. *)
Fixpoint zip_exact {A B C} (f : A -> B -> result C) (l : list A) (k : list B)
  : result (list C) :=
  match l, k with
  | [], [] => Ok []
  | a :: l', b :: k' =>
      let* c := f a b in
      let* r := zip_exact f l' k' in
      Ok (c :: r)
  | _, _ => Raise ValueError
  end.

(** ** Movement controller *)

Module Movement.

Abbreviation grid A := (list (list A)).

Definition neg_threshold : Q := - (7 # 10000).
Definition pos_threshold : Q := 7 # 10000.

Definition Qltb (a b : Q) : bool := negb (Qle_bool b a).

(** One entry of [custom_round_slicing]: the three masks, then the
    three masked assignments in the order of the source. *)
Definition custom_round (v : Q) : Z :=
  let x_new := 0 in
  let negative := Qltb v neg_threshold in
  let positive := Qltb pos_threshold v in
  let zero := negb (orb positive negative) in
  let x_new := if negative then -1 else x_new in
  let x_new := if positive then 1 else x_new in
  let x_new := if zero then 0 else x_new in
  x_new.

Definition custom_round_cell (a : Q * Q) : Z * Z :=
  (custom_round (fst a), custom_round (snd a)).

Definition custom_round_slicing (x : grid (Q * Q)) : grid (Z * Z) :=
  map (map custom_round_cell) x.

Definition custom_round_slicing_batched (x : list (grid (Q * Q)))
  : list (grid (Z * Z)) :=
  map custom_round_slicing x.

Definition clip (v bound : Z) : Z := Z.min (Z.max v 0) bound.

Definition clip_cell (N M : Z) (a : Z * Z) : Z * Z :=
  (clip (fst a) N, clip (snd a) M).

Definition clipping (array : grid (Z * Z)) (N M : Z) : grid (Z * Z) :=
  map (map (clip_cell N M)) array.

Definition clipping_batched (array : list (grid (Z * Z))) (N M : Z)
  : list (grid (Z * Z)) :=
  map (fun a => clipping a N M) array.

Definition add_cell (p d : Z * Z) : result (Z * Z) :=
  Ok (fst p + fst d, snd p + snd d).

(** The sum of an anchor and a step, for stating what [iadd] returns. *)
Definition add_pure (p d : Z * Z) : Z * Z := (fst p + fst d, snd p + snd d).

(** [perception += delta] *)
Definition iadd (perception delta : grid (Z * Z)) : result (grid (Z * Z)) :=
  zip_exact (zip_exact add_cell) perception delta.

Definition iadd_batched (perceptions deltas : list (grid (Z * Z)))
  : result (list (grid (Z * Z))) :=
  zip_exact iadd perceptions deltas.

(** The anchors after the call, and how the call ended. *)
Definition add_action_slicing (perception : grid (Z * Z)) (action : grid (Q * Q))
    (N M : Z) : grid (Z * Z) * result unit :=
  match iadd perception (custom_round_slicing action) with
  | Raise e => (perception, Raise e)
  | Ok perception1 =>
      if N =? M
      then (clipping perception1 (N - 1) (M - 1), Ok tt)
      else (perception1, Raise AssertionError)
  end.

Definition alter_perception_slicing (perceptions : grid (Z * Z))
    (actions : grid (Q * Q)) (N_neo M_neo : nat) (N_active M_active : Z)
  : grid (Z * Z) * result unit :=
  add_action_slicing perceptions actions N_active M_active.

Definition add_action_slicing_batched (perceptions_batched : list (grid (Z * Z)))
    (actions_batched : list (grid (Q * Q))) (N M : Z)
  : list (grid (Z * Z)) * result unit :=
  match iadd_batched perceptions_batched
          (custom_round_slicing_batched actions_batched) with
  | Raise e => (perceptions_batched, Raise e)
  | Ok perceptions1 =>
      if N =? M
      then (clipping_batched perceptions1 (N - 1) (M - 1), Ok tt)
      else (perceptions1, Raise AssertionError)
  end.

Definition alter_perception_slicing_batched
    (perceptions_batched : list (grid (Z * Z)))
    (actions_batched : list (grid (Q * Q))) (N_neo M_neo : nat)
    (N_active M_active : Z) : list (grid (Z * Z)) * result unit :=
  add_action_slicing_batched perceptions_batched actions_batched N_active M_active.

(** The movement controller applied once per action array, as the
    executors do over the iterations; it stops at the first exception. *)
Fixpoint moves (perception : grid (Z * Z)) (actions : list (grid (Q * Q)))
    (N M : Z) : grid (Z * Z) * result unit :=
  match actions with
  | [] => (perception, Ok tt)
  | a :: rest =>
      match add_action_slicing perception a N M with
      | (p', Ok _) => moves p' rest N M
      | (p', Raise e) => (p', Raise e)
      end
  end.

(** Every coordinate of every anchor lies in [[0, size - 1]]. *)
Definition in_active (size : Z) (p : grid (Z * Z)) : Prop :=
  Forall (Forall (fun a => 0 <= fst a <= size - 1 /\ 0 <= snd a <= size - 1)) p.

(** [g[i, j]], when the indices are in range. *)
Definition cell {A} (g : grid A) (i j : nat) : option A :=
  g !! i ≫= fun r => r !! j.

(** Two arrays with the same number of rows and of cells in each row. *)
Definition same_shape {A B} (p : grid A) (a : grid B) : Prop :=
  Forall2 (fun r s => length r = length s) p a.

(** Every entry of the action array lies in the band that
    [custom_round_slicing] sends to zero. *)
Definition in_dead_zone (a : grid (Q * Q)) : Prop :=
  Forall (Forall (fun d =>
    (neg_threshold <= fst d <= pos_threshold)%Q
    /\ (neg_threshold <= snd d <= pos_threshold)%Q)) a.

End Movement.

(** ** Array indexing and slicing *)

Module Arr.

(** A slice bound as Python normalises it for a sequence of length [len]:
    a negative bound counts from the end, and every bound is clamped
    into [[0, len]]. *)
Definition norm_bound (len : nat) (i : Z) : nat :=
  if i <? 0 then Z.to_nat (Z.max (i + Z.of_nat len) 0)
  else Nat.min (Z.to_nat i) len.

(** [l[lo:hi]] *)
Definition py_slice {A} (l : list A) (lo hi : Z) : list A :=
  let a := norm_bound (length l) lo in
  let b := norm_bound (length l) hi in
  take (b - a) (drop a l).

(** [l[lo:]] *)
Definition py_slice_from {A} (l : list A) (lo : Z) : list A :=
  drop (norm_bound (length l) lo) l.

(** [l[i]]: a negative index counts from the end; [None] stands for an
    index out of range. *)
Definition py_index {A} (l : list A) (i : Z) : option A :=
  if i <? 0
  then (if - Z.of_nat (length l) <=? i
        then l !! Z.to_nat (i + Z.of_nat (length l)) else None)
  else l !! Z.to_nat i.

(** [a[x_p : x_p + 3, y_p : y_p + 3]] with every channel. *)
Definition window {A} (a : list (list A)) (x_p y_p : Z) : list (list A) :=
  map (fun row => py_slice row y_p (y_p + 3)) (py_slice a x_p (x_p + 3)).

(** [a[1 : 1 + N, 1 : 1 + M]] *)
Definition interior {A} (a : list (list A)) (N M : nat) : list (list A) :=
  map (fun row => take M (drop 1 row)) (take N (drop 1 a)).

(** [l[i : i + len(new)] = new] *)
Definition splice {A} (l : list A) (i : nat) (new : list A) : list A :=
  take i l ++ new ++ drop (i + length new) l.

(** [a[1 : 1 + N, 1 : 1 + M] = new], for [new] of the shape of the
    region that is assigned. *)
Definition assign_interior {A} (a : list (list A)) (N M : nat)
    (new : list (list A)) : list (list A) :=
  splice a 1 (zip_with (fun row nrow => splice row 1 nrow) (take N (drop 1 a)) new).

(** [a.flatten()] of an array of three axes. *)
Definition flatten {A} (a : list (list (list A))) : list A :=
  concat (concat a).

(** [k] consecutive pieces of length [n]. *)
Fixpoint chunk {A} (n k : nat) (l : list A) : list (list A) :=
  match k with
  | O => []
  | S k' => take n l :: chunk n k' (drop n l)
  end.

(** [np.reshape(g, (N, M, D))] of an array of two axes. *)
Definition reshape3 (g : list (list Q)) (N M D : nat)
  : result (list (list (list Q))) :=
  let flat := concat g in
  if (length flat =? N * M * D)%nat
  then Ok (map (chunk D M) (chunk (M * D) N flat))
  else Raise ValueError.

(** [np.reshape(g, (B, N, M, D))] of an array of two axes. *)
Definition reshape4 (g : list (list Q)) (B N M D : nat)
  : result (list (list (list (list Q)))) :=
  let flat := concat g in
  if (length flat =? B * N * M * D)%nat
  then Ok (map (fun piece => map (chunk D M) (chunk (M * D) N piece))
             (chunk (N * M * D) B flat))
  else Raise ValueError.

Definition np_zeros3 (H W C : nat) : list (list (list Q)) :=
  replicate H (replicate W (replicate C 0%Q)).

(** [np.empty((rows, cols))]: storage that nothing has written yet.
    What it holds is not chosen by the program: [uninit r c] is what
    the memory handed out by this allocation holds at row [r], column
    [c]. *)
Definition np_empty (uninit : nat -> nat -> Q) (rows cols : nat)
  : list (list Q) :=
  map (fun r => map (uninit r) (range cols)) (range rows).

(** An array of [n] rows of [m] entries. *)
Definition rect {A} (n m : nat) (g : list (list A)) : Prop :=
  length g = n /\ Forall (fun row => length row = m) g.

(** Every anchor leaves room for a 3 x 3 window in an [H] x [W] array. *)
Definition valid_anchors (H W : nat) (a : list (list (Z * Z))) : Prop :=
  Forall (Forall (fun rc => 0 <= fst rc /\ fst rc + 3 <= Z.of_nat H
                            /\ 0 <= snd rc /\ snd rc + 3 <= Z.of_nat W)) a.

Fixpoint mapM {A B} (f : A -> result B) (l : list A) : result (list B) :=
  match l with
  | [] => Ok []
  | a :: l' =>
      let* b := f a in
      let* r := mapM f l' in
      Ok (b :: r)
  end.

End Arr.

(** ** Input assembler *)

Module Assembler.
Import Movement Arr.

Abbreviation image := (list (list (list Q))).
Abbreviation state_array := (list (list (list Q))).

(** [position == s]; Python's [None] equals no string. *)
Definition position_is (position : option string) (s : string) : bool :=
  match position with
  | Some p => String.eqb p s
  | None => false
  end.

(** [np.concatenate((perc, comms), axis=2)] *)
Definition concatenate2 (perc comms : list (list (list Q)))
  : result (list (list (list Q))) :=
  zip_exact (zip_exact (fun p c => Ok (p ++ c))) perc comms.

(** [row[: len(v)] = v] *)
Definition set_prefix (v row : list Q) : result (list Q) :=
  if (length v <=? length row)%nat
  then Ok (v ++ drop (length v) row)
  else Raise ValueError.

(** [row[-k] = v] for [k] = 1, 2. *)
Definition set_from_end (k : nat) (v : Q) (row : list Q) : result (list Q) :=
  if (k <=? length row)%nat
  then Ok (<[(length row - k)%nat := v]> row)
  else Raise IndexError.

(** [input[r, ...] = ...]: the row [r] is replaced by [f] of it. *)
Definition write_row (r : nat) (f : list Q -> result (list Q))
    (input : list (list Q)) : result (list (list Q)) :=
  let* row := of_option IndexError (input !! r) in
  let* row' := f row in
  Ok (<[r := row']> input).

(** [(x_p - N // 2) / (N // 2)]; a zero divisor raises, as under numba's
    Python error model. *)
Definition rescale_current (x_p : Z) (N : nat) : result Q :=
  let half := Z.of_nat N / 2 in
  if half =? 0 then Raise ZeroDivisionError
  else Ok ((inject_Z (x_p - half) / inject_Z half)%Q).

(** [(float(x) * N / float(N_neo) - N // 2) / (N // 2)]; [N_neo] is
    positive wherever the loops evaluate this. *)
Definition rescale_initial (x N N_neo : nat) : result Q :=
  let half := Z.of_nat N / 2 in
  if half =? 0 then Raise ZeroDivisionError
  else Ok (((inject_Z (Z.of_nat x) * inject_Z (Z.of_nat N)
             / inject_Z (Z.of_nat N_neo) - inject_Z half) / inject_Z half)%Q).

(** The positional scalars of one row, after the patch has been written. *)
Definition write_position (position : option string) (r : nat)
    (x y : nat) (x_p y_p : Z) (N M N_neo M_neo : nat)
    (input : list (list Q)) : result (list (list Q)) :=
  if position_is position "current" then
    let* a := rescale_current x_p N in
    let* input := write_row r (set_from_end 2 a) input in
    let* b := rescale_current y_p M in
    write_row r (set_from_end 1 b) input
  else if position_is position "initial" then
    let* a := rescale_initial x N N_neo in
    let* input := write_row r (set_from_end 2 a) input in
    let* b := rescale_initial y M M_neo in
    write_row r (set_from_end 1 b) input
  else Ok input.

(** The flattened 3x3 image patch (first channel) and 3x3 state patch
    of cell [(x, y)], as [collect_input] computes [dummy_flat]. *)
Definition patch (img : image) (state : state_array) (x y : nat)
    (x_p y_p : Z) : result (list Q) :=
  let perc := map (map (take 1)) (window img x_p y_p) in
  let comms := window state (Z.of_nat x) (Z.of_nat y) in
  let* dummy := concatenate2 perc comms in
  Ok (flatten dummy).

(** The body of the two loops of [collect_input]. *)
Definition collect_cell (img : image) (state : state_array)
    (perceptions : grid (Z * Z)) (position : option string)
    (N_neo M_neo N M : nat) (x y : nat) (input : list (list Q))
  : result (list (list Q)) :=
  let* (x_p, y_p) :=
    of_option IndexError (perceptions !! x ≫= fun row => row !! y) in
  let* dummy_flat := patch img state x y x_p y_p in
  let r := (x * M_neo + y)%nat in
  let* input := write_row r (set_prefix dummy_flat) input in
  write_position position r x y x_p y_p N M N_neo M_neo input.

(** The contents of the buffer [input] after the call. *)
Definition collect_input (input : list (list Q)) (img : image)
    (state : state_array) (perceptions : grid (Z * Z))
    (position : option string) (N_neo M_neo : nat)
  : result (list (list Q)) :=
  let N := length state in
  let M := length (hd [] state) in
  foldM (fun x =>
    foldM (fun y =>
      collect_cell img state perceptions position N_neo M_neo N M x y)
      (range M_neo))
    (range N_neo) input.

(** The batched patch takes every channel of the image. *)
Definition patch_batched (img : image) (state : state_array) (x y : nat)
    (x_p y_p : Z) : result (list Q) :=
  let perc := window img x_p y_p in
  let comms := window state (Z.of_nat x) (Z.of_nat y) in
  let* dummy := concatenate2 perc comms in
  Ok (flatten dummy).

(** The body of the three loops of [collect_input_batched]. *)
Definition collect_cell_batched (images : list image)
    (state_batched : list state_array)
    (perceptions_batched : list (grid (Z * Z))) (position : option string)
    (N_neo M_neo N M : nat) (x y b : nat) (input : list (list Q))
  : result (list (list Q)) :=
  let* (x_p, y_p) :=
    of_option IndexError
      (perceptions_batched !! b ≫= fun p => p !! x ≫= fun row => row !! y) in
  let* img := of_option IndexError (images !! b) in
  let* state := of_option IndexError (state_batched !! b) in
  let* dummy_flat := patch_batched img state x y x_p y_p in
  let r := (b * N_neo * M_neo + x * M_neo + y)%nat in
  let* input := write_row r (set_prefix dummy_flat) input in
  write_position position r x y x_p y_p N M N_neo M_neo input.

Definition collect_input_batched (input : list (list Q)) (images : list image)
    (state_batched : list state_array)
    (perceptions_batched : list (grid (Z * Z)))
    (position : option string) (N_neo M_neo : nat)
  : result (list (list Q)) :=
  let B := length images in
  let N := length (hd [] images) in
  let M := length (hd [] (hd [] images)) in
  foldM (fun x =>
    foldM (fun y =>
      foldM (fun b =>
        collect_cell_batched images state_batched perceptions_batched
          position N_neo M_neo N M x y b)
        (range B))
      (range M_neo))
    (range N_neo) input.

(** Every cell of an array of three axes has [k] channels. *)
Definition channels {A} (k : nat) (a : list (list (list A))) : Prop :=
  Forall (Forall (fun c => length c = k)) a.

(** Arrays as the executors hold them: an [Hi] x [Wi] image of one
    channel, an [Hs] x [Ws] state array of [C] channels that has room
    for the grid and its one-cell border, and one anchor per cell of
    the [N_neo] x [M_neo] grid with room for its window in the image. *)
Definition well_formed (img : image) (state : state_array)
    (perceptions : grid (Z * Z)) (N_neo M_neo Hi Wi Hs Ws C : nat) : Prop :=
  rect Hi Wi img /\ channels 1 img
  /\ rect Hs Ws state /\ channels C state
  /\ (N_neo + 2 <= Hs)%nat /\ (M_neo + 2 <= Ws)%nat
  /\ rect N_neo M_neo perceptions /\ valid_anchors Hi Wi perceptions.

(** What holds of the buffer [s] when the loops of [collect_input],
    started on [input], have written the first [k] rows: the shape is
    kept, the rows from [k] on are untouched and, unless the position
    mode is ["current"] or ["initial"], a written row is the patch of
    its cell followed by what the row held beyond the patch. *)
Definition collect_inv (img : image) (state : state_array)
    (perceptions : grid (Z * Z)) (position : option string)
    (M_neo R w : nat) (input : list (list Q)) (k : nat)
    (s : list (list Q)) : Prop :=
  rect R w s
  /\ (forall r, (k <= r)%nat -> s !! r = input !! r)
  /\ (position_is position "current" = false ->
      position_is position "initial" = false ->
      forall x y, (y < M_neo)%nat -> (x * M_neo + y < k)%nat ->
        exists x_p y_p v row,
          cell perceptions x y = Some (x_p, y_p)
          /\ patch img state x y x_p y_p = Ok v
          /\ input !! (x * M_neo + y)%nat = Some row
          /\ s !! (x * M_neo + y)%nat = Some (v ++ drop (length v) row)).

(** A row that holds the patch [v] and, in its last two entries, the
    positional scalars [a] and [b]. *)
Definition positional_row (v : list Q) (a b : Q) (row : list Q) : list Q :=
  <[(length row - 1)%nat := b]>
    (<[(length row - 2)%nat := a]> (v ++ drop (length v) row)).

(** The invariant of the loops of [collect_input] for any description
    [F x y row row'] of the row [row'] that cell [(x, y)] leaves where
    the buffer held [row]. *)
Definition collect_inv_rows (F : nat -> nat -> list Q -> list Q -> Prop)
    (M_neo R w : nat) (input : list (list Q)) (k : nat)
    (s : list (list Q)) : Prop :=
  rect R w s
  /\ (forall r, (k <= r)%nat -> s !! r = input !! r)
  /\ (forall x y, (y < M_neo)%nat -> (x * M_neo + y < k)%nat ->
        exists row row',
          input !! (x * M_neo + y)%nat = Some row
          /\ s !! (x * M_neo + y)%nat = Some row'
          /\ F x y row row').

End Assembler.

(** ** The single-sample and the batched executor *)

Module Executor.
Import Movement Arr Assembler.

(** The fields of a [MovingNCA] that a run reads and never writes.
    [dmodel] is the shared update function with its weights installed:
    one call maps the rows of the input buffer to the rows of guesses. *)
Record MovingNCA : Type := {
  size_neo : nat * nat;
  size_image : nat * nat;
  num_classes : nat;
  num_hidden : nat;
  iterations : nat;
  moving : bool;
  position : option string;
  dmodel : list (list Q) -> list (list Q)
}.

Definition img_channels : nat := 1.
Definition act_channels : nat := 2.

Definition input_dim (self : MovingNCA) : nat :=
  (img_channels + num_hidden self + num_classes self)%nat.

Definition output_dim (self : MovingNCA) : nat :=
  (num_hidden self + num_classes self + act_channels)%nat.

(** [0 if self.position == None else 2] *)
Definition position_addon (self : MovingNCA) : nat :=
  match position self with
  | None => 0%nat
  | Some _ => 2%nat
  end.

Definition size_active (self : MovingNCA) : Z * Z :=
  (Z.of_nat (fst (size_image self)) - 2, Z.of_nat (snd (size_image self)) - 2).

(** [get_dimensions]: a grid size that is [None] defaults to the image
    size minus two. *)
Definition get_dimensions (data_shape : Z * Z) (N_neo M_neo : option Z) : Z * Z :=
  let '(N, M) := data_shape in
  let N_neo := match N_neo with None => N - 2 | Some n => n end in
  let M_neo := match M_neo with None => M - 2 | Some m => m end in
  (N_neo, M_neo).

(** The arrays a single-sample run mutates. *)
Record Store : Type := {
  state : state_array;
  perceptions : grid (Z * Z)
}.

(** The arrays a batched run mutates. *)
Record StoreB : Type := {
  state_batched : list state_array;
  perceptions_batched : list (grid (Z * Z))
}.

(** [reset]; [anchors] is what the anchor initialiser
    [get_perception_matrix] returns at this call. *)
Definition reset (self : MovingNCA) (anchors : grid (Z * Z)) : Store :=
  {| perceptions := anchors;
     state := np_zeros3 (fst (size_image self)) (snd (size_image self))
                (input_dim self - img_channels) |}.

(** [reset_batched]; [anchors b] is what the anchor initialiser returns
    at its call for batch element [b]. *)
Definition reset_batched (self : MovingNCA) (batch_size : nat)
    (anchors : nat -> grid (Z * Z)) : StoreB :=
  {| perceptions_batched := map anchors (range batch_size);
     state_batched :=
       replicate batch_size
         (np_zeros3 (fst (size_image self)) (snd (size_image self))
            (input_dim self - img_channels)) |}.

(** What a Python call hands back when it does not raise. *)
Inductive pyvalue : Type :=
  | PyNone
  | ExceptionInstance (e : exn).

(** [predict_step]: [return NotImplementedError()]. *)
Definition predict_step {A} (data : A) : result pyvalue :=
  Ok (ExceptionInstance NotImplementedError).

Definition add3 (a b : list (list (list Q))) : result (list (list (list Q))) :=
  zip_exact (zip_exact (zip_exact (fun u v => Ok (u + v)%Q))) a b.

(** [state[1:1+N, 1:1+M, :] = state[1:1+N, 1:1+M, :] + outputs[:, :, :C]] *)
Definition accumulate (state : state_array) (outputs : list (list (list Q)))
    (N_neo M_neo C : nat) : result state_array :=
  let* sum := add3 (interior state N_neo M_neo) (map (map (take C)) outputs) in
  Ok (assign_interior state N_neo M_neo sum).

(** The [float64] nearest to the integer [d], ties to even: the
    conversion [np.sqrt] applies to an integer argument. *)
Definition float_of_int (d : Z) : PrimFloat.float :=
  FloatOps.SF2Prim
    (SpecFloat.binary_normalize FloatOps.prec FloatOps.emax d 0 false).

(** [f < r] for a [float64] [f] and the number [r]. *)
Definition float_ltb (f : PrimFloat.float) (r : Q) : bool :=
  match FloatOps.Prim2SF f with
  | SpecFloat.S754_zero _ => Qltb 0 r
  | SpecFloat.S754_infinity s => s
  | SpecFloat.S754_nan => false
  | SpecFloat.S754_finite s m e =>
      let v := (inject_Z (Z.pos m) * 2 ^ e)%Q in
      Qltb (if s then (- v)%Q else v) r
  end.

(** [np.sqrt((i - x) ** 2 + (j - y) ** 2) < radius]: the square root is
    the [float64] one, correctly rounded, and not the real one. *)
Definition within_radius (i j x y : nat) (radius : Q) : bool :=
  let d := (Z.of_nat i - Z.of_nat x) ^ 2 + (Z.of_nat j - Z.of_nat y) ^ 2 in
  float_ltb (PrimFloat.sqrt (float_of_int d)) radius.

(** The cells within [radius] of [(x, y)], shifted by the border. *)
Definition silenced_cells (N_neo M_neo x y : nat) (radius : Q) : list (nat * nat) :=
  flat_map (fun i =>
    flat_map (fun j =>
      if within_radius i j x y radius
      then [((i + 1)%nat, (j + 1)%nat)] else [])
      (range M_neo))
    (range N_neo).

(** [state[random_x, random_y, :] = 0] *)
Definition silence (cells : list (nat * nat)) (state : state_array)
  : result state_array :=
  foldM (fun '(a, b) st =>
    let* row := of_option IndexError (st !! a) in
    let* cell := of_option IndexError (row !! b) in
    Ok (<[a := <[b := replicate (length cell) 0%Q]> row]> st))
    cells state.

(** The last two channels of a cell of outputs. *)
Definition last2 (c : list Q) : result (Q * Q) :=
  match py_slice_from c (-2) with
  | [a; b] => Ok (a, b)
  | _ => Raise ValueError
  end.

(** [outputs[:, :, -self.act_channels:]] *)
Definition action_slice (outputs : list (list (list Q))) : result (grid (Q * Q)) :=
  mapM (mapM last2) outputs.

Definition lift_move {A} (r : A * result unit) : result A :=
  match r with
  | (a, Ok _) => Ok a
  | (_, Raise e) => Raise e
  end.

(** The Input Vectors of one pass: the buffer that [classify]
    allocates with [np.empty] and hands to [collect_input]; [uninit] is
    what the allocation of this pass holds. *)
Definition assemble (self : MovingNCA) (uninit : nat -> nat -> Q)
    (img_raw : image)
    (s : Store) : result (list (list Q)) :=
  let '(N_neo, M_neo) := size_neo self in
  let input := np_empty uninit (N_neo * M_neo)
                 (3 * 3 * input_dim self + position_addon self) in
  collect_input input img_raw (state s) (perceptions s)
    (position self) N_neo M_neo.

(** One pass of the loop of [classify]; [cells] is [None] when nothing
    is silenced.  The result is the store and [guesses]. *)
Definition classify_iteration (self : MovingNCA) (uninit : nat -> nat -> Q)
    (img_raw : image) (cells : option (list (nat * nat))) (s : Store)
  : result (Store * list (list Q)) :=
  let '(N_neo, M_neo) := size_neo self in
  let '(N_active, M_active) := size_active self in
  let* input := assemble self uninit img_raw s in
  let guesses := dmodel self input in
  let* outputs := reshape3 guesses N_neo M_neo (output_dim self) in
  let* st := accumulate (state s) outputs N_neo M_neo
               (input_dim self - img_channels) in
  let* st := match cells with
             | Some cs => silence cs st
             | None => Ok st
             end in
  let* p :=
    if moving self then
      let* actions := action_slice outputs in
      lift_move (alter_perception_slicing (perceptions s) actions
                   N_neo M_neo N_active M_active)
    else Ok (perceptions s) in
  Ok ({| state := st; perceptions := p |}, guesses).

(** The memory of the allocations that follow the first. *)
Definition later {A} (uninit : nat -> A) : nat -> A :=
  fun k => uninit (S k).

(** [for _ in range(n)] of [classify]; [guesses] starts as [None].
    Every pass allocates a buffer of its own: [uninit k] is what the
    allocation of the [k]-th pass to come holds. *)
Fixpoint classify_loop (self : MovingNCA) (uninit : nat -> nat -> nat -> Q)
    (img_raw : image) (cells : option (list (nat * nat))) (n : nat)
    (s : Store) (guesses : option (list (list Q)))
  : result (Store * option (list (list Q))) :=
  match n with
  | O => Ok (s, guesses)
  | S n' =>
      let* (s', g) := classify_iteration self (uninit 0%nat) img_raw cells s in
      classify_loop self (later uninit) img_raw cells n' s' (Some g)
  end.

(** [state[1:1+N, 1:1+M, -num_classes:]] *)
Definition class_slice (self : MovingNCA) (st : state_array)
  : list (list (list Q)) :=
  map (map (fun c => py_slice_from c (- Z.of_nat (num_classes self))))
    (interior st (fst (size_neo self)) (snd (size_neo self))).

(** [classify] without visualisation.  [rnd] holds the two draws of
    [np.random.randint], read only when [silenced > 0].  The result is
    the store after the run and the pair the call returns. *)
Definition classify (self : MovingNCA) (uninit : nat -> nat -> nat -> Q)
    (rnd : nat * nat) (img_raw : image) (silenced : Q) (s : Store)
  : result (Store * (list (list (list Q)) * option (list (list Q)))) :=
  let '(N_neo, M_neo) := size_neo self in
  let* cells :=
    if Qltb 0 silenced then
      if ((N_neo =? 0) || (M_neo =? 0))%nat then Raise ValueError
      else Ok (Some (silenced_cells N_neo M_neo (fst rnd) (snd rnd) silenced))
    else Ok None in
  let* (s', guesses) :=
    classify_loop self uninit img_raw cells (iterations self) s None in
  Ok (s', (class_slice self (state s'), guesses)).

(** The loop of [classify] with the guesses of every pass kept, oldest
    first. *)
Fixpoint classify_trace (self : MovingNCA) (uninit : nat -> nat -> nat -> Q)
    (img_raw : image) (cells : option (list (nat * nat))) (n : nat)
    (s : Store)
  : result (Store * list (list (list Q))) :=
  match n with
  | O => Ok (s, [])
  | S n' =>
      let* (s', g) := classify_iteration self (uninit 0%nat) img_raw cells s in
      let* (s'', gs) := classify_trace self (later uninit) img_raw cells n' s' in
      Ok (s'', g :: gs)
  end.

(** The guesses of one pass as an [N_neo] x [M_neo] x [D] array. *)
Definition regroup (g : list (list Q)) (N M D : nat) : list (list (list Q)) :=
  map (chunk D M) (chunk (M * D) N (concat g)).

Definition add3_total (a b : list (list (list Q))) : list (list (list Q)) :=
  zip_with (zip_with (zip_with Qplus)) a b.


Definition add4 (a b : list (list (list (list Q))))
  : result (list (list (list (list Q)))) :=
  zip_exact add3 a b.

(** One pass of the loop of [classify_batch]. *)
Definition classify_batch_iteration (self : MovingNCA)
    (uninit : nat -> nat -> Q)
    (images_raw : list image) (s : StoreB)
  : result (StoreB * list (list Q)) :=
  let B := length images_raw in
  let '(N_neo, M_neo) := size_neo self in
  let '(N_active, M_active) := size_active self in
  let input := np_empty uninit (B * N_neo * M_neo)
                 (3 * 3 * input_dim self + position_addon self) in
  let* input := collect_input_batched input images_raw (state_batched s)
                  (perceptions_batched s) (position self) N_neo M_neo in
  let guesses := dmodel self input in
  let* outputs := reshape4 guesses B N_neo M_neo (output_dim self) in
  let* sum :=
    add4 (map (fun st => interior st N_neo M_neo) (state_batched s))
      (map (map (map (take (input_dim self - img_channels)))) outputs) in
  let st := zip_with (fun st new => assign_interior st N_neo M_neo new)
              (state_batched s) sum in
  let* p :=
    if moving self then
      let* actions := mapM action_slice outputs in
      lift_move (alter_perception_slicing_batched (perceptions_batched s)
                   actions N_neo M_neo N_active M_active)
    else Ok (perceptions_batched s) in
  Ok ({| state_batched := st; perceptions_batched := p |}, guesses).

Fixpoint classify_batch_loop (self : MovingNCA)
    (uninit : nat -> nat -> nat -> Q)
    (images_raw : list image) (n : nat) (s : StoreB)
    (guesses : option (list (list Q)))
  : result (StoreB * option (list (list Q))) :=
  match n with
  | O => Ok (s, guesses)
  | S n' =>
      let* (s', g) :=
        classify_batch_iteration self (uninit 0%nat) images_raw s in
      classify_batch_loop self (later uninit) images_raw n' s' (Some g)
  end.

(** [classify_batch]: the store after the run and the pair the call
    returns. *)
Definition classify_batch (self : MovingNCA)
    (uninit : nat -> nat -> nat -> Q)
    (images_raw : list image) (s : StoreB)
  : result (StoreB * (list (list (list (list Q))) * option (list (list Q)))) :=
  let* (s', guesses) :=
    classify_batch_loop self uninit images_raw (iterations self) s None in
  Ok (s', (map (class_slice self) (state_batched s'), guesses)).

(** A grid of 5 x 5 cells on a 28 x 28 image, one hidden channel and
    three classes, whose update function ignores its input. *)
Definition example_nca (pos : option string) : MovingNCA :=
  {| size_neo := (5%nat, 5%nat);
     size_image := (28%nat, 28%nat);
     num_classes := 3;
     num_hidden := 1;
     iterations := 1;
     moving := true;
     position := pos;
     dmodel := fun input => map (fun _ => replicate 6 0%Q) input |}.

(** One cell on a 3 x 3 image with a single class channel; the update
    function ignores its input. *)
Definition tiny_nca (pos : option string) : MovingNCA :=
  {| size_neo := (1%nat, 1%nat);
     size_image := (3%nat, 3%nat);
     num_classes := 1;
     num_hidden := 0;
     iterations := 1;
     moving := false;
     position := pos;
     dmodel := fun input => map (fun _ => replicate 3 0%Q) input |}.

Definition tiny_image : image := replicate 3 (replicate 3 [1%Q]).

(** One cell on a 3 x 3 image with the position mode the constructor
    takes by default, the string ["None"]; the update function is
    linear, every weight being one. *)
Definition default_nca : MovingNCA :=
  {| size_neo := (1%nat, 1%nat);
     size_image := (3%nat, 3%nat);
     num_classes := 1;
     num_hidden := 0;
     iterations := 1;
     moving := false;
     position := Some "None"%string;
     dmodel := fun input =>
       map (fun row => replicate 3 (fold_right Qplus 0%Q row)) input |}.

(** A 2 x 2 grid on a 4 x 4 image, with movement and the ["current"]
    position mode; the update function reads its input. *)
Definition demo_nca : MovingNCA :=
  {| size_neo := (2%nat, 2%nat);
     size_image := (4%nat, 4%nat);
     num_classes := 1;
     num_hidden := 1;
     iterations := 3;
     moving := true;
     position := Some "current"%string;
     dmodel := fun input =>
       map (fun row => [hd 0 row; 1; nth 3 row 0 - (1 # 2);
                        (1 # 100) - nth 27 row 0]%Q) input |}.


Definition demo_image : image :=
  map (fun i => map (fun j => [(Z.of_nat (i * 4 + j) # 16)%Q]) (range 4))
    (range 4).

Definition demo_anchors : grid (Z * Z) :=
  [[(0, 0); (0, 1)]; [(1, 0); (1, 1)]].

(** [demo_nca] on an image of 4 rows and 5 columns. *)
Definition wide_nca : MovingNCA :=
  {| size_neo := size_neo demo_nca;
     size_image := (4%nat, 5%nat);
     num_classes := num_classes demo_nca;
     num_hidden := num_hidden demo_nca;
     iterations := iterations demo_nca;
     moving := true;
     position := position demo_nca;
     dmodel := dmodel demo_nca |}.

Definition wide_image : image :=
  map (fun i => map (fun j => [(Z.of_nat (i * 5 + j) # 20)%Q]) (range 5))
    (range 4).

(** The update function returns one row of [output_dim] entries for
    every row it is given. *)
Definition dmodel_shape (self : MovingNCA) : Prop :=
  forall input, rect (length input) (output_dim self) (dmodel self input).

(** A single sample as a batch of one. *)
Definition batch_of_one (s : Store) : StoreB :=
  {| state_batched := [state s]; perceptions_batched := [perceptions s] |}.

End Executor.

(** ** Gather-based window extraction *)

Module Gather.
Import Movement Arr.

(** A value stored into an [int32] array. *)
Definition wrap32 (z : Z) : Z := (z + 2 ^ 31) mod 2 ^ 32 - 2 ^ 31.

(** [target[i::3, j::3, k] = vals], where [put] writes component [k] of
    a cell. *)
Definition assign_strided (i j : nat) (vals : grid Z)
    (put : Z -> Z * Z -> Z * Z) (target : grid (Z * Z)) : grid (Z * Z) :=
  imap (fun X row =>
    imap (fun Y old =>
      if ((X mod 3 =? i) && (Y mod 3 =? j))%nat then
        match vals !! (X / 3)%nat ≫= fun r => r !! (Y / 3)%nat with
        | Some v => put (wrap32 v) old
        | None => old
        end
      else old) row) target.

Definition put0 (v : Z) (c : Z * Z) : Z * Z := (v, snd c).
Definition put1 (v : Z) (c : Z * Z) : Z * Z := (fst c, v).

Definition expand1 (N M : nat) (a : grid (Z * Z)) : grid (Z * Z) :=
  let x_p := map (map fst) a in
  let y_p := map (map snd) a in
  fold_left (fun e i =>
    fold_left (fun e j =>
      let e := assign_strided i j (map (map (fun v => v + Z.of_nat i)) x_p) put0 e in
      assign_strided i j (map (map (fun v => v + Z.of_nat j)) y_p) put1 e)
      (range 3) e)
    (range 3) (replicate (N * 3) (replicate (M * 3) (0, 0))).

(** [expand]: every batch element is filled by the same nine strided
    assignments. *)
Definition expand (arr : list (grid (Z * Z))) : list (grid (Z * Z)) :=
  let N := length (hd [] arr) in
  let M := length (hd [] (hd [] arr)) in
  map (expand1 N M) arr.

(** [arr[b, movement_expanded[b, x, y, 0], movement_expanded[b, x, y, 1], :]] *)
Definition gather_cell {A} (arr : list (grid A))
    (movement_expanded : list (grid (Z * Z))) (b x y : nat) : result A :=
  let* (r, c) :=
    of_option IndexError
      (movement_expanded !! b ≫= fun m => cell m x y) in
  of_option IndexError
    (arr !! b ≫= fun a => py_index a r ≫= fun row => py_index row c).

(** [gather_mine]: every entry of [new_arr] is assigned once, in the
    order of the loops; an index out of range raises. *)
Definition gather_mine {A} (arr : list (grid A))
    (movement_expanded : list (grid (Z * Z))) : result (list (grid A)) :=
  let B := length movement_expanded in
  let N_neo := length (hd [] movement_expanded) in
  let M_neo := length (hd [] (hd [] movement_expanded)) in
  mapM (fun b =>
    mapM (fun x =>
      mapM (fun y => gather_cell arr movement_expanded b x y) (range M_neo))
      (range N_neo))
    (range B).

(** The 3x3 block of cell [(x, y)] in a gathered array. *)
Definition block {A} (g : grid A) (x y : nat) : grid A :=
  map (fun row => take 3 (drop (3 * y) row)) (take 3 (drop (3 * x) g)).

(** A 4 x 4 source and the anchors of a 2 x 2 grid on it. *)
Definition example_source : grid Z :=
  [[0; 1; 2; 3]; [4; 5; 6; 7]; [8; 9; 10; 11]; [12; 13; 14; 15]].

Definition example_anchors : grid (Z * Z) :=
  [[(0, 0); (0, 1)]; [(1, 0); (1, 1)]].

End Gather.

(** ** Data preparation ([src/mnist_processing.py])

    The data set of [mnist.load_data] and the random generator are not
    part of the file: the data set is an argument, a call of
    [random.shuffle] is the reordering [permute] it performs, and the
    draw of [random.randrange(n)] for sample [k] of class [i] is
    [draw i k mod n]. *)

Module Mnist.
Import Arr.

(** [shuffle]: the pairs are reordered together; unpacking the two
    tuples of [zip( *temp)] fails when there is no pair. *)
Definition shuffle {A B} (permute : list (A * B) -> list (A * B))
    (X_data : list A) (y_data : list B) : result (list A * list B) :=
  let temp := zip X_data y_data in
  let temp := permute temp in
  match temp with
  | [] => Raise ValueError
  | _ :: _ => Ok (map fst temp, map snd temp)
  end.

(** [[1.0 if x == i else 0.0 for x in range(N_digits)]] *)
Definition one_hot (N_digits i : nat) : list Q :=
  map (fun x => if (x =? i)%nat then 1%Q else 0%Q) (range N_digits).

(** One pass of the inner loop: a random image of class [i]. *)
Definition sample_one {A} (sorted_X : list (list A)) (draw : nat -> nat -> nat)
    (i k : nat) : result A :=
  let* class := of_option IndexError (sorted_X !! i) in
  if (length class =? 0)%nat then Raise ValueError
  else of_option IndexError (class !! (draw i k mod length class)%nat).

(** The two nested loops that fill [train_X] and [train_y]. *)
Definition sample_all {A} (sorted_X : list (list A)) (draw : nat -> nat -> nat)
    (N_digits SAMPLES_PER_DIGIT : nat) : result (list (A * list Q)) :=
  let* per_class :=
    mapM (fun i =>
      mapM (fun k =>
        let* img := sample_one sorted_X draw i k in
        Ok (img, one_hot N_digits i))
        (range SAMPLES_PER_DIGIT))
      (range N_digits) in
  Ok (concat per_class).

(** The two module-level caches. *)
Record Cache (A : Type) : Type := {
  sorted_X_train : option (list (list A));
  sorted_X_test : option (list (list A))
}.
Arguments sorted_X_train {A} _.
Arguments sorted_X_test {A} _.

(** [x / 255] on one image. *)
Definition scale_image (img : list (list Z)) : list (list Q) :=
  map (map (fun p => (inject_Z p / 255)%Q)) img.

(** [x_scaled[np.where(y == digit)]] *)
Definition select_digit (x_scaled : list (list (list Q))) (y : list nat)
    (digit : nat) : result (list (list (list Q))) :=
  let where_digit :=
    filter (fun i => y !! i = Some digit) (range (length y)) in
  mapM (fun i => of_option IndexError (x_scaled !! i)) where_digit.

(** [initalize_MNIST_reduced_digits] on the loaded pair [(x, y)]. *)
Definition initalize_MNIST_reduced_digits (x : list (list (list Z)))
    (y : list nat) (MNIST_DIGITS : list nat)
  : result (list (list (list (list Q)))) :=
  let x_scaled := map scale_image x in
  mapM (select_digit x_scaled y) MNIST_DIGITS.

(** [get_MNIST_data]: the caches after the call and its result.
    [load test] is what [initalize_MNIST_reduced_digits] returns for
    the digits of this call. *)
Definition get_MNIST_data {A} (load : list nat -> bool -> result (list (list A)))
    (permute : list (A * list Q) -> list (A * list Q))
    (draw : nat -> nat -> nat) (MNIST_DIGITS : list nat)
    (SAMPLES_PER_DIGIT : nat) (test : bool) (cache : Cache A)
  : Cache A * result (list A * list (list Q)) :=
  let filled :=
    if test then
      match sorted_X_test cache with
      | Some sx => Ok (cache, sx)
      | None =>
          let* sx := load MNIST_DIGITS true in
          Ok ({| sorted_X_train := sorted_X_train cache;
                 sorted_X_test := Some sx |}, sx)
      end
    else
      match sorted_X_train cache with
      | Some sx => Ok (cache, sx)
      | None =>
          let* sx := load MNIST_DIGITS false in
          Ok ({| sorted_X_train := Some sx;
                 sorted_X_test := sorted_X_test cache |}, sx)
      end in
  match filled with
  | Raise e => (cache, Raise e)
  | Ok (cache', sorted_X) =>
      (cache',
       let* pairs := sample_all sorted_X draw (length MNIST_DIGITS)
                       SAMPLES_PER_DIGIT in
       shuffle permute (map fst pairs) (map snd pairs))
  end.

End Mnist.

(** * Properties *)

(** ** The result monad *)

Section ResultFacts.
Context {A B C : Type}.

Lemma zip_exact_pure (f : A -> B -> result C) (g : A -> B -> C) l k :
  Forall2 (fun a b => f a b = Ok (g a b)) l k ->
  zip_exact f l k = Ok (zip_with g l k).
Proof.
  induction 1 as [|a b l k Hab _ IH]; simpl; [done|].
  by rewrite Hab, IH.
Qed.

Lemma zip_exact_inv (f : A -> B -> result C) l k r :
  zip_exact f l k = Ok r ->
  Forall2 (fun a c => exists b, In b k /\ f a b = Ok c) l r
  /\ length l = length k /\ length r = length l.
Proof.
  revert k r. induction l as [|a l IH]; intros [|b k] r H; simpl in H;
    try discriminate.
  - inversion H; subst. by repeat split; try constructor.
  - destruct (f a b) as [c|] eqn:Hf; simpl in H; [|discriminate].
    destruct (zip_exact f l k) as [r'|] eqn:Hz; simpl in H; [|discriminate].
    inversion H; subst. destruct (IH _ _ Hz) as (HF & Hl & Hr).
    repeat split; simpl; try congruence.
    constructor.
    + exists b. split; [by left | done].
    + eapply Forall2_impl; [exact HF|].
      intros a' c' (b' & Hin & Hb'). exists b'. split; [by right | done].
Qed.

Lemma zip_exact_lookup (f : A -> B -> result C) l k r i a b :
  zip_exact f l k = Ok r -> l !! i = Some a -> k !! i = Some b ->
  exists c, r !! i = Some c /\ f a b = Ok c.
Proof.
  revert k r i. induction l as [|a' l IH]; intros [|b' k] r i H Ha Hb;
    simpl in H; try discriminate.
  destruct (f a' b') as [c|] eqn:Hf; simpl in H; [|discriminate].
  destruct (zip_exact f l k) as [r'|] eqn:Hz; simpl in H; [|discriminate].
  inversion H; subst. destruct i as [|i]; simpl in *.
  - inversion Ha; inversion Hb; subst. eauto.
  - eauto.
Qed.
End ResultFacts.

Lemma foldM_ext {A S} (f g : A -> S -> result S) l s :
  (forall a s', In a l -> f a s' = g a s') -> foldM f l s = foldM g l s.
Proof.
  revert s. induction l as [|a l IH]; intros s H; simpl; [done|].
  rewrite H by (by left). destruct (g a s); simpl; [|done].
  apply IH. intros a' s' Hin. apply H. by right.
Qed.

(** ** Movement controller *)

Section MovementFacts.
Import Movement.

Lemma Qltb_lt a b : Qltb a b = true <-> (a < b)%Q.
Proof.
  unfold Qltb. rewrite negb_true_iff, <- not_true_iff_false, Qle_bool_iff.
  split; [apply Qnot_le_lt | apply Qlt_not_le].
Qed.

Lemma Qltb_nlt a b : Qltb a b = false <-> ~ (a < b)%Q.
Proof. rewrite <- Qltb_lt. by destruct (Qltb a b). Qed.

Lemma custom_round_neg v : (v < neg_threshold)%Q -> custom_round v = -1.
Proof.
  intros H. unfold custom_round.
  assert (Hp : Qltb pos_threshold v = false).
  { apply Qltb_nlt. intros Hp.
    assert (Hc : (pos_threshold < neg_threshold)%Q)
      by (eapply Qlt_trans; eassumption).
    by vm_compute in Hc. }
  apply Qltb_lt in H. by rewrite H, Hp.
Qed.

Lemma custom_round_pos v : (pos_threshold < v)%Q -> custom_round v = 1.
Proof.
  intros H. unfold custom_round. apply Qltb_lt in H. rewrite H.
  by destruct (Qltb v neg_threshold).
Qed.

Lemma custom_round_zero v :
  ~ (v < neg_threshold)%Q -> ~ (pos_threshold < v)%Q -> custom_round v = 0.
Proof.
  intros Hn Hp. unfold custom_round.
  apply Qltb_nlt in Hn, Hp. by rewrite Hn, Hp.
Qed.

Lemma custom_round_range v :
  custom_round v = -1 \/ custom_round v = 0 \/ custom_round v = 1.
Proof.
  unfold custom_round.
  destruct (Qltb v neg_threshold), (Qltb pos_threshold v); simpl; auto.
Qed.

Lemma same_shape_round {A} (p : grid A) a :
  same_shape p a -> same_shape p (custom_round_slicing a).
Proof.
  unfold same_shape, custom_round_slicing. intros H.
  apply Forall2_fmap_r. eapply Forall2_impl; [exact H|].
  intros r s Hrs; simpl. by rewrite length_fmap.
Qed.

Lemma iadd_same_shape p d :
  same_shape p d -> iadd p d = Ok (zip_with (zip_with add_pure) p d).
Proof.
  intros H. unfold iadd. apply zip_exact_pure.
  eapply Forall2_impl; [exact H|]. intros r s Hrs.
  apply zip_exact_pure. apply Forall2_same_length in Hrs.
  eapply Forall2_impl; [exact Hrs|]. done.
Qed.

Lemma iadd_inv_shape p d p1 :
  iadd p d = Ok p1 -> same_shape p p1.
Proof.
  unfold iadd, same_shape. revert d p1.
  induction p as [|r p IH]; intros [|s d] p1 H; simpl in H; try discriminate.
  - inversion H. constructor.
  - destruct (zip_exact add_cell r s) as [c|] eqn:Hc; simpl in H; [|discriminate].
    destruct (zip_exact (zip_exact add_cell) p d) as [r'|] eqn:Hz;
      simpl in H; [|discriminate].
    inversion H; subst. constructor; [|by eapply IH].
    apply zip_exact_inv in Hc. lia.
Qed.

Lemma iadd_batched_same_shape ps ds :
  Forall2 same_shape ps ds ->
  iadd_batched ps ds = Ok (zip_with (zip_with (zip_with add_pure)) ps ds).
Proof.
  intros H. unfold iadd_batched. apply zip_exact_pure.
  eapply Forall2_impl; [exact H|]. intros p d. apply iadd_same_shape.
Qed.

Lemma clip_in_range v size : 1 <= size -> 0 <= clip v (size - 1) <= size - 1.
Proof. unfold clip. lia. Qed.

Lemma clipping_shape p N M : same_shape p (clipping p N M).
Proof.
  unfold same_shape, clipping. apply Forall2_fmap_r, Forall_Forall2_diag.
  apply Forall_forall. intros r _. simpl. by rewrite length_fmap.
Qed.

Lemma same_shape_trans {A B C} (p : grid A) (q : grid B) (r : grid C) :
  same_shape p q -> same_shape q r -> same_shape p r.
Proof.
  unfold same_shape. intros H1 H2. revert r H2.
  induction H1; intros r H2; inversion H2; subst; constructor; eauto; congruence.
Qed.

Lemma same_shape_sym {A B} (p : grid A) (q : grid B) :
  same_shape p q -> same_shape q p.
Proof. unfold same_shape. induction 1; constructor; eauto. Qed.

(** A cell of [q] sits where a cell of [p] sits when the shapes agree. *)
Lemma same_shape_cell {A B} (p : grid A) (q : grid B) i j c :
  same_shape p q -> q !! i = Some c -> (j < length c)%nat ->
  exists r a, p !! i = Some r /\ r !! j = Some a.
Proof.
  intros H Hq Hj. unfold same_shape in H.
  destruct (Forall2_lookup_r _ _ _ _ _ H Hq) as (r & Hr & Hlen).
  exists r. destruct (lookup_lt_is_Some_2 r j) as [a Ha]; [lia|]. eauto.
Qed.

Lemma in_active_clipping size p q :
  in_active size p -> same_shape p q ->
  in_active size (clipping q (size - 1) (size - 1)).
Proof.
  intros Hp Hs. unfold in_active, clipping.
  apply Forall_lookup. intros i r Hr.
  apply list_lookup_fmap_Some in Hr as (c & -> & Hq).
  apply Forall_lookup. intros j a Ha.
  apply list_lookup_fmap_Some in Ha as (b & -> & Hb).
  destruct (same_shape_cell p q i j c Hs Hq) as (r' & a' & Hr' & Ha').
  { by eapply lookup_lt_Some. }
  unfold in_active in Hp.
  pose proof (Forall_lookup_1 _ _ _ _ Hp Hr') as Hrow.
  pose proof (Forall_lookup_1 _ _ _ _ Hrow Ha') as Hcell. simpl in Hcell.
  unfold clip_cell; simpl. split; apply clip_in_range; lia.
Qed.

Lemma add_action_slicing_square p a size :
  same_shape p a ->
  add_action_slicing p a size size =
    (clipping (zip_with (zip_with add_pure) p (custom_round_slicing a))
       (size - 1) (size - 1), Ok tt).
Proof.
  intros H. unfold add_action_slicing.
  rewrite iadd_same_shape by by apply same_shape_round.
  by rewrite Z.eqb_refl.
Qed.

Lemma add_action_slicing_unequal p a N M :
  N <> M -> same_shape p a ->
  add_action_slicing p a N M =
    (zip_with (zip_with add_pure) p (custom_round_slicing a),
     Raise AssertionError).
Proof.
  intros HN H. unfold add_action_slicing.
  rewrite iadd_same_shape by by apply same_shape_round.
  apply Z.eqb_neq in HN. by rewrite HN.
Qed.

Lemma add_action_slicing_batched_unequal ps acts N M :
  N <> M -> Forall2 same_shape ps acts ->
  add_action_slicing_batched ps acts N M =
    (zip_with (zip_with (zip_with add_pure)) ps
       (custom_round_slicing_batched acts),
     Raise AssertionError).
Proof.
  intros HN H. unfold add_action_slicing_batched.
  rewrite iadd_batched_same_shape.
  - apply Z.eqb_neq in HN. by rewrite HN.
  - unfold custom_round_slicing_batched. apply Forall2_fmap_r.
    eapply Forall2_impl; [exact H|]. intros p a. apply same_shape_round.
Qed.

Lemma zip_add_shape p d :
  same_shape p d -> same_shape p (zip_with (zip_with add_pure) p d).
Proof.
  intros H. eapply iadd_inv_shape. by apply iadd_same_shape.
Qed.
End MovementFacts.

(** ** Claims about the movement controller *)

Section MovementClaims.
Import Movement.

Lemma cell_Some {A} (g : grid A) i j c :
  cell g i j = Some c <-> exists r, g !! i = Some r /\ r !! j = Some c.
Proof.
  unfold cell. destruct (g !! i) as [r|]; simpl.
  - split; [eauto | by intros (r' & [= <-] & H)].
  - split; [done | by intros (r' & H & _)].
Qed.

Lemma cell_zip_add p d i j c e :
  cell p i j = Some c -> cell d i j = Some e ->
  cell (zip_with (zip_with add_pure) p d) i j = Some (add_pure c e).
Proof.
  rewrite !cell_Some. intros (r & Hr & Hc) (s & Hs & He).
  exists (zip_with add_pure r s). split.
  - rewrite lookup_zip_with, Hr, Hs. done.
  - rewrite lookup_zip_with, Hc, He. done.
Qed.

Lemma cell_round (x : grid (Q * Q)) i j c :
  cell x i j = Some c ->
  cell (custom_round_slicing x) i j = Some (custom_round_cell c).
Proof.
  rewrite !cell_Some. intros (r & Hr & Hc).
  exists (custom_round_cell <$> r). unfold custom_round_slicing.
  by rewrite !list_lookup_fmap, Hr, Hc.
Qed.

(** C2. The discretisation of one value is -1 below -0.0007, +1 above
    0.0007 and 0 otherwise, the two thresholds themselves going to 0;
    [custom_round_slicing] applies it to every entry of the action
    array. *)
Theorem custom_round_slicing_thresholds (v : Q) :
  ((v < - (7 # 10000))%Q -> custom_round v = -1)
  /\ (((7 # 10000) < v)%Q -> custom_round v = 1)
  /\ (~ (v < - (7 # 10000))%Q -> ~ ((7 # 10000) < v)%Q -> custom_round v = 0)
  /\ custom_round (- (7 # 10000)) = 0
  /\ custom_round (7 # 10000) = 0
  /\ (forall (x : grid (Q * Q)) i j c,
        cell x i j = Some c ->
        cell (custom_round_slicing x) i j
        = Some (custom_round (fst c), custom_round (snd c))).
Proof.
  split; [apply custom_round_neg|].
  split; [apply custom_round_pos|].
  split; [apply custom_round_zero|].
  split; [reflexivity|]. split; [reflexivity|].
  intros x i j c. apply cell_round.
Qed.

Lemma custom_round_slicing_thresholds_witness :
  custom_round (- (8 # 10000)) = -1
  /\ custom_round (8 # 10000) = 1
  /\ custom_round (6 # 10000) = 0.
Proof.
  split; [|split].
  - apply (proj1 (custom_round_slicing_thresholds (- (8 # 10000)))).
    reflexivity.
  - apply (proj1 (proj2 (custom_round_slicing_thresholds (8 # 10000)))).
    reflexivity.
  - apply (proj1 (proj2 (proj2 (custom_round_slicing_thresholds (6 # 10000)))));
      intros H; discriminate H.
Defined.

(** C3. On a square active area, from anchors that lie in the active
    area, any sequence of movement steps ends without an exception
    and leaves every anchor coordinate in [[0, Active_size - 1]]. *)
Theorem anchors_stay_in_active_area size (p : grid (Z * Z))
    (actions : list (grid (Q * Q))) :
  in_active size p ->
  Forall (same_shape p) actions ->
  exists p', moves p actions size size = (p', Ok tt)
             /\ in_active size p' /\ same_shape p p'.
Proof.
  intros Hp Ha. revert p Hp Ha.
  induction actions as [|a rest IH]; intros p Hp Ha; simpl.
  - exists p. repeat split; [done|].
    apply Forall_Forall2_diag, Forall_forall. done.
  - inversion Ha as [|? ? Hsa Hrest]; subst.
    rewrite add_action_slicing_square by done.
    set (q := zip_with (zip_with add_pure) p (custom_round_slicing a)).
    assert (Hpq : same_shape p q)
      by (by apply zip_add_shape, same_shape_round).
    assert (Hpc : same_shape p (clipping q (size - 1) (size - 1)))
      by (eapply same_shape_trans; [exact Hpq | apply clipping_shape]).
    destruct (IH (clipping q (size - 1) (size - 1))) as (p' & Hm & Hin & Hs).
    + by apply in_active_clipping with p.
    + eapply Forall_impl; [exact Hrest|]. intros b Hb.
      eapply same_shape_trans; [apply same_shape_sym, Hpc | exact Hb].
    + exists p'. repeat split; [done | done |].
      by eapply same_shape_trans.
Qed.

Lemma anchors_stay_in_active_area_witness :
  exists p', moves [[(0, 25); (25, 0)]]
               [[[(1, 1); (1, -1)]]; [[(-1, 0); (1, 1)]]]%Q 26 26
             = (p', Ok tt)
             /\ in_active 26 p'.
Proof.
  destruct (anchors_stay_in_active_area 26 [[(0, 25); (25, 0)]]
              [[[(1, 1); (1, -1)]]; [[(-1, 0); (1, 1)]]]%Q)
    as (p' & H & Hin & _).
  - repeat constructor; simpl; lia.
  - repeat constructor.
  - exists p'. split; assumption.
Defined.

(** C6. When the two active-area sizes differ, the movement step, in
    its single and in its batched form, raises an assertion error
    and the anchors hold the sum that no clipping has touched; when
    the sizes are equal no assertion error is raised. *)
Theorem non_square_movement_asserts (p : grid (Z * Z)) (a : grid (Q * Q))
    (ps : list (grid (Z * Z))) (acts : list (grid (Q * Q))) (N M : Z) :
  same_shape p a ->
  Forall2 same_shape ps acts ->
  (N <> M ->
     add_action_slicing p a N M
     = (zip_with (zip_with add_pure) p (custom_round_slicing a),
        Raise AssertionError)
     /\ add_action_slicing_batched ps acts N M
       = (zip_with (zip_with (zip_with add_pure)) ps
            (custom_round_slicing_batched acts),
          Raise AssertionError))
  /\ (N = M ->
       snd (add_action_slicing p a N M) = Ok tt
       /\ snd (add_action_slicing_batched ps acts N M) = Ok tt).
Proof.
  intros Hs Hb. split.
  - intros HN. split.
    + by apply add_action_slicing_unequal.
    + by apply add_action_slicing_batched_unequal.
  - intros ->. split.
    + by rewrite add_action_slicing_square.
    + unfold add_action_slicing_batched.
      rewrite iadd_batched_same_shape.
      * by rewrite Z.eqb_refl.
      * unfold custom_round_slicing_batched. apply Forall2_fmap_r.
        eapply Forall2_impl; [exact Hb|]. intros q b. apply same_shape_round.
Qed.

Lemma non_square_movement_asserts_witness :
  snd (add_action_slicing [[(3, 4)]] [[(1, -1)]]%Q 26 20) = Raise AssertionError
  /\ snd (add_action_slicing_batched [[[(3, 4)]]] [[[(1, -1)]]]%Q 26 20)
     = Raise AssertionError
  /\ snd (add_action_slicing [[(3, 4)]] [[(1, -1)]]%Q 26 26) = Ok tt.
Proof.
  pose proof (non_square_movement_asserts [[(3, 4)]] [[(1, -1)]]%Q
                [[[(3, 4)]]] [[[(1, -1)]]]%Q) as H.
  split; [|split].
  - destruct (H 26 20) as [Hne _]; [repeat constructor ..|].
    destruct Hne as [-> _]; [lia | reflexivity].
  - destruct (H 26 20) as [Hne _]; [repeat constructor ..|].
    destruct Hne as [_ ->]; [lia | reflexivity].
  - destruct (H 26 26) as [_ Heq]; [repeat constructor ..|].
    destruct Heq as [-> _]; reflexivity.
Defined.

(** C10. When the square-grid assertion fails, the anchors have
    already been moved by the discretised action and are not clipped:
    every anchor holds its old value plus its step, in the single and
    in the batched form. *)
Theorem failed_movement_keeps_unclipped_sum (p : grid (Z * Z))
    (a : grid (Q * Q)) (ps : list (grid (Z * Z)))
    (acts : list (grid (Q * Q))) (N M : Z) :
  N <> M ->
  same_shape p a ->
  Forall2 same_shape ps acts ->
  exists p1 ps1,
    add_action_slicing p a N M = (p1, Raise AssertionError)
    /\ add_action_slicing_batched ps acts N M = (ps1, Raise AssertionError)
    /\ (forall i j c d,
          cell p i j = Some c -> cell a i j = Some d ->
          cell p1 i j
          = Some (fst c + custom_round (fst d), snd c + custom_round (snd d)))
    /\ (forall b q qa q1 i j c d,
          ps !! b = Some q -> acts !! b = Some qa -> ps1 !! b = Some q1 ->
          cell q i j = Some c -> cell qa i j = Some d ->
          cell q1 i j
          = Some (fst c + custom_round (fst d), snd c + custom_round (snd d))).
Proof.
  intros HN Hs Hb. eexists _, _.
  split; [by apply add_action_slicing_unequal|].
  split; [by apply add_action_slicing_batched_unequal|].
  split.
  - intros i j c d Hc Hd.
    by rewrite (cell_zip_add _ _ _ _ _ _ Hc (cell_round _ _ _ _ Hd)).
  - intros b q qa q1 i j c d Hq Hqa Hq1 Hc Hd.
    unfold custom_round_slicing_batched in Hq1.
    rewrite lookup_zip_with, Hq, list_lookup_fmap, Hqa in Hq1.
    simpl in Hq1. injection Hq1 as <-.
    by rewrite (cell_zip_add _ _ _ _ _ _ Hc (cell_round _ _ _ _ Hd)).
Qed.

Lemma failed_movement_keeps_unclipped_sum_witness :
  exists p1,
    add_action_slicing [[(0, 25)]] [[(-1, 1)]]%Q 26 20
    = (p1, Raise AssertionError)
    /\ cell p1 0 0 = Some (-1, 26).
Proof.
  destruct (failed_movement_keeps_unclipped_sum [[(0, 25)]] [[(-1, 1)]]%Q
              [[[(0, 25)]]] [[[(-1, 1)]]]%Q 26 20)
    as (p1 & ps1 & H1 & _ & Hc & _).
  - lia.
  - repeat constructor.
  - repeat constructor.
  - exists p1. split; [exact H1|].
    apply (Hc 0%nat 0%nat (0, 25) (-1, 1)%Q); reflexivity.
Defined.
End MovementClaims.

(** ** Claims about the start of a run and the stubbed hook *)

Section ResetClaims.
Import Movement Arr Assembler Executor.

(** C8, as the code has it. After [reset] and after [reset_batched]
    the state array is all zero and has the shape of the image,
    H x W x (hidden + class channels), whatever the size of the grid. *)
Theorem reset_state_is_zero_of_image_shape (self : MovingNCA)
    (anchors : grid (Z * Z)) (B : nat) (anchors_b : nat -> grid (Z * Z)) :
  let H := fst (size_image self) in
  let W := snd (size_image self) in
  let C := (num_hidden self + num_classes self)%nat in
  state (reset self anchors) = replicate H (replicate W (replicate C 0%Q))
  /\ state_batched (reset_batched self B anchors_b)
     = replicate B (replicate H (replicate W (replicate C 0%Q)))
  /\ length (state (reset self anchors)) = H
  /\ Forall (fun row => length row = W
                        /\ Forall (fun c => length c = C
                                            /\ Forall (fun v => v = 0%Q) c) row)
       (state (reset self anchors)).
Proof.
  intros H W C.
  assert (HC : (input_dim self - img_channels)%nat = C)
    by (unfold input_dim, img_channels, C; lia).
  unfold reset, reset_batched, np_zeros3. rewrite HC. simpl.
  split; [done|]. split; [done|]. split; [apply length_replicate|].
  apply Forall_replicate. split; [apply length_replicate|].
  apply Forall_replicate. split; [apply length_replicate|].
  by apply Forall_replicate.
Qed.

(** C8 as stated fails: a 5 x 5 grid on a 28 x 28 image
    gets a state array of 28 rows, not of 5 + 2. *)
Lemma reset_state_shape_counterexample :
  length (state (reset (example_nca None) []))
  <> (fst (size_neo (example_nca None)) + 2)%nat
  /\ length (state (reset (example_nca None) [])) = 28%nat.
Proof. split; [discriminate | reflexivity]. Qed.

(** C9, what the code does: [predict_step] returns an exception
    instance as an ordinary value; nothing is raised. *)
Theorem predict_step_returns_instead_of_raising {A} (data : A) :
  predict_step data = Ok (ExceptionInstance NotImplementedError)
  /\ predict_step data <> Raise NotImplementedError.
Proof. split; [reflexivity | discriminate]. Qed.
End ResetClaims.

(** ** Slices, indices and the gather formulation *)

Section GatherFacts.
Import Movement Arr Gather.
Context {A : Type}.

Lemma py_slice_in_range {B} (l : list B) (lo n : nat) :
  (lo + n <= length l)%nat ->
  py_slice l (Z.of_nat lo) (Z.of_nat lo + Z.of_nat n) = take n (drop lo l).
Proof.
  intros H. unfold py_slice, norm_bound.
  destruct (Z.ltb_spec (Z.of_nat lo) 0); [lia|].
  destruct (Z.ltb_spec (Z.of_nat lo + Z.of_nat n) 0); [lia|].
  f_equal; [|f_equal]; lia.
Qed.

Lemma py_index_nonneg {B} (l : list B) (i : Z) :
  0 <= i -> py_index l i = l !! Z.to_nat i.
Proof.
  intros H. unfold py_index. destruct (Z.ltb_spec i 0); [lia | done].
Qed.

Lemma wrap32_small z : - 2 ^ 31 <= z < 2 ^ 31 -> wrap32 z = z.
Proof.
  intros H. unfold wrap32. rewrite Z.mod_small; lia.
Qed.

Lemma mapM_pure {B C} (f : B -> result C) (g : B -> C) l :
  (forall b, b ∈ l -> f b = Ok (g b)) -> mapM f l = Ok (g <$> l).
Proof.
  induction l as [|b l IH]; intros H; simpl; [done|].
  rewrite H by apply list_elem_of_here.
  rewrite IH; [done|].
  intros b' Hb'. apply H. by apply list_elem_of_further.
Qed.

Lemma cell_fmap {B C} (f : B -> C) (g : grid B) i j :
  cell (map (map f) g) i j = f <$> cell g i j.
Proof.
  unfold cell. rewrite list_lookup_fmap. destruct (g !! i); simpl; [|done].
  by rewrite list_lookup_fmap.
Qed.

Lemma cell_replicate {B} (n m : nat) (v : B) i j :
  (i < n)%nat -> (j < m)%nat -> cell (replicate n (replicate m v)) i j = Some v.
Proof.
  intros Hi Hj. unfold cell. rewrite lookup_replicate_2 by done. simpl.
  by apply lookup_replicate_2.
Qed.

Lemma cell_assign_strided i j vals put t X Y :
  cell (assign_strided i j vals put t) X Y
  = (fun old =>
       if ((X mod 3 =? i) && (Y mod 3 =? j))%nat then
         match cell vals (X / 3) (Y / 3) with
         | Some v => put (wrap32 v) old
         | None => old
         end
       else old) <$> cell t X Y.
Proof.
  unfold cell, assign_strided. rewrite list_lookup_imap.
  destruct (t !! X); simpl; [|done]. by rewrite list_lookup_imap.
Qed.

Lemma expand1_cell N M (a : grid (Z * Z)) X Y r c :
  (X < N * 3)%nat -> (Y < M * 3)%nat ->
  cell a (X / 3) (Y / 3) = Some (r, c) ->
  cell (expand1 N M a) X Y
  = Some (wrap32 (r + Z.of_nat (X mod 3)), wrap32 (c + Z.of_nat (Y mod 3))).
Proof.
  intros HX HY Ha.
  pose proof (Nat.mod_upper_bound X 3 ltac:(lia)) as HmX.
  pose proof (Nat.mod_upper_bound Y 3 ltac:(lia)) as HmY.
  unfold expand1, range. cbn [seq fold_left].
  rewrite !cell_assign_strided, !cell_fmap, Ha, cell_replicate by done.
  destruct (X mod 3)%nat as [|[|[|?]]]; [| | |lia];
    (destruct (Y mod 3)%nat as [|[|[|?]]]; [| | |lia]); reflexivity.
Qed.

Lemma mapM_inv {B C} (f : B -> result C) l r :
  mapM f l = Ok r -> Forall2 (fun b c => f b = Ok c) l r.
Proof.
  revert r. induction l as [|b l IH]; intros r H; simpl in H.
  - injection H as <-. constructor.
  - destruct (f b) as [c|] eqn:Hf; simpl in H; [|discriminate].
    destruct (mapM f l) as [r'|]; simpl in H; [|discriminate].
    injection H as <-. constructor; auto.
Qed.

Lemma mapM_total {B C} (f : B -> result C) l :
  (forall b, b ∈ l -> exists c, f b = Ok c) -> exists r, mapM f l = Ok r.
Proof.
  induction l as [|b l IH]; intros H; simpl; [eauto|].
  destruct (H b) as [c Hc]; [apply list_elem_of_here|]. rewrite Hc.
  destruct IH as [r Hr].
  { intros b' Hb'. apply H. by apply list_elem_of_further. }
  rewrite Hr. simpl. eauto.
Qed.

Lemma mapM_range_lookup {C} (f : nat -> result C) n r i :
  mapM f (range n) = Ok r -> (i < n)%nat ->
  exists c, r !! i = Some c /\ f i = Ok c.
Proof.
  intros H Hi. apply mapM_inv in H.
  destruct (Forall2_lookup_l _ _ _ i i H) as (c & Hc & Hf).
  { unfold range. by apply lookup_seq_lt. }
  eauto.
Qed.

Lemma mapM_range_length {C} (f : nat -> result C) n r :
  mapM f (range n) = Ok r -> length r = n.
Proof.
  intros H. apply mapM_inv, Forall2_length in H.
  unfold range in H. by rewrite length_seq in H.
Qed.

Lemma elem_of_range i n : i ∈ range n <-> (i < n)%nat.
Proof. unfold range. rewrite elem_of_seq. lia. Qed.

Lemma rect_cell {B} n m (g : grid B) i j :
  rect n m g -> (i < n)%nat -> (j < m)%nat -> exists c, cell g i j = Some c.
Proof.
  intros [Hl Hr] Hi Hj. unfold cell.
  destruct (lookup_lt_is_Some_2 g i) as [row Hrow]; [lia|].
  rewrite Hrow. simpl. apply lookup_lt_is_Some_2.
  by rewrite (Forall_lookup_1 _ _ _ _ Hr Hrow).
Qed.

Lemma cell_lt {B} n m (g : grid B) i j c :
  rect n m g -> cell g i j = Some c -> (i < n)%nat /\ (j < m)%nat.
Proof.
  intros [Hl Hr] Hc. apply cell_Some in Hc as (row & Hrow & Hc).
  split.
  - rewrite <- Hl. by eapply lookup_lt_Some.
  - rewrite <- (Forall_lookup_1 _ _ _ _ Hr Hrow). by eapply lookup_lt_Some.
Qed.

Lemma grid_ext {B} n m (g1 g2 : grid B) :
  rect n m g1 -> rect n m g2 ->
  (forall i j, (i < n)%nat -> (j < m)%nat -> cell g1 i j = cell g2 i j) ->
  g1 = g2.
Proof.
  intros [Hl1 Hr1] [Hl2 Hr2] H. apply list_eq. intros i.
  destruct (decide (i < n)%nat) as [Hi|Hi].
  - destruct (lookup_lt_is_Some_2 g1 i) as [r1 E1]; [lia|].
    destruct (lookup_lt_is_Some_2 g2 i) as [r2 E2]; [lia|].
    rewrite E1, E2. f_equal. apply list_eq. intros j.
    pose proof (Forall_lookup_1 _ _ _ _ Hr1 E1) as L1.
    pose proof (Forall_lookup_1 _ _ _ _ Hr2 E2) as L2. simpl in L1, L2.
    destruct (decide (j < m)%nat) as [Hj|Hj].
    + specialize (H i j Hi Hj). unfold cell in H. by rewrite E1, E2 in H.
    + rewrite !lookup_ge_None_2; [done | lia | lia].
  - rewrite !lookup_ge_None_2; [done | lia | lia].
Qed.

Lemma assign_strided_rect i j vals put n m t :
  rect n m t -> rect n m (assign_strided i j vals put t).
Proof.
  intros [Hl Hr]. unfold assign_strided. split.
  - by rewrite length_imap.
  - apply Forall_lookup. intros X row HX.
    rewrite list_lookup_imap in HX.
    destruct (t !! X) as [row'|] eqn:E; [|discriminate].
    simpl in HX. injection HX as <-. rewrite length_imap.
    by apply (Forall_lookup_1 _ _ _ _ Hr E).
Qed.

Lemma expand1_rect N M a : rect (N * 3) (M * 3) (expand1 N M a).
Proof.
  unfold expand1, range. cbn [seq fold_left].
  repeat apply assign_strided_rect. split.
  - apply length_replicate.
  - apply Forall_replicate, length_replicate.
Qed.

Lemma cell_block (g : grid A) x y i j :
  (i < 3)%nat -> (j < 3)%nat ->
  cell (block g x y) i j = cell g (3 * x + i) (3 * y + j).
Proof.
  intros Hi Hj. unfold cell, block.
  rewrite list_lookup_fmap, lookup_take_lt, lookup_drop by done.
  destruct (g !! (3 * x + i)%nat); simpl; [|done].
  by rewrite lookup_take_lt, lookup_drop.
Qed.

Lemma cell_window (src : grid A) (H W r c i j : nat) :
  rect H W src -> (r + 3 <= H)%nat -> (c + 3 <= W)%nat ->
  (i < 3)%nat -> (j < 3)%nat ->
  cell (window src (Z.of_nat r) (Z.of_nat c)) i j = cell src (r + i) (c + j).
Proof.
  intros [Hl Hr] HrH HcW Hi Hj. unfold cell, window.
  change 3 with (Z.of_nat 3).
  rewrite (py_slice_in_range src r 3) by lia.
  rewrite list_lookup_fmap, lookup_take_lt, lookup_drop by done.
  destruct (src !! (r + i)%nat) as [row|] eqn:E; simpl; [|done].
  pose proof (Forall_lookup_1 _ _ _ _ Hr E) as L. simpl in L.
  change 3 with (Z.of_nat 3). rewrite py_slice_in_range by lia.
  by rewrite lookup_take_lt, lookup_drop.
Qed.

Lemma expand_rect N M (anchors : list (grid (Z * Z))) :
  Forall (rect N M) anchors -> expand anchors = map (expand1 N M) anchors.
Proof.
  intros H. unfold expand. destruct anchors as [|a0 rest]; [done|].
  apply Forall_cons in H as [[Hl Hr] _]. simpl hd.
  destruct a0 as [|row0 a0]; simpl in *.
  - subst N. reflexivity.
  - apply Forall_cons in Hr as [-> _]. by rewrite Hl.
Qed.

Lemma valid_anchors_cell H W (a : grid (Z * Z)) x y r c :
  valid_anchors H W a -> cell a x y = Some (r, c) ->
  0 <= r /\ r + 3 <= Z.of_nat H /\ 0 <= c /\ c + 3 <= Z.of_nat W.
Proof.
  intros Hv Hc. apply cell_Some in Hc as (row & Hrow & Hc).
  pose proof (Forall_lookup_1 _ _ _ _ Hv Hrow) as Hv'.
  exact (Forall_lookup_1 _ _ _ _ Hv' Hc).
Qed.

Lemma gather_cell_expand (arr : list (grid A)) anchors N M H W b a src X Y :
  anchors !! b = Some a -> arr !! b = Some src ->
  rect N M a -> rect H W src -> valid_anchors H W a ->
  Z.of_nat H <= 2 ^ 31 -> Z.of_nat W <= 2 ^ 31 ->
  (X < N * 3)%nat -> (Y < M * 3)%nat ->
  exists r c v,
    cell a (X / 3) (Y / 3) = Some (r, c)
    /\ cell src (Z.to_nat r + X mod 3) (Z.to_nat c + Y mod 3) = Some v
    /\ gather_cell arr (map (expand1 N M) anchors) b X Y = Ok v.
Proof.
  intros Ha Hsrc Hra Hrs Hv HH HW HX HY.
  assert (HX3 : (X / 3 < N)%nat) by (apply Nat.Div0.div_lt_upper_bound; lia).
  assert (HY3 : (Y / 3 < M)%nat) by (apply Nat.Div0.div_lt_upper_bound; lia).
  pose proof (Nat.mod_upper_bound X 3 ltac:(lia)) as HmX.
  pose proof (Nat.mod_upper_bound Y 3 ltac:(lia)) as HmY.
  destruct (rect_cell N M a _ _ Hra HX3 HY3) as [[r c] Hc].
  destruct (valid_anchors_cell _ _ _ _ _ _ _ Hv Hc) as (Hr0 & Hr3 & Hc0 & Hc3).
  destruct (rect_cell H W src (Z.to_nat r + X mod 3) (Z.to_nat c + Y mod 3) Hrs)
    as [v Hcv]; [lia | lia |].
  exists r, c, v. split; [done|]. split; [done|].
  unfold gather_cell. rewrite list_lookup_fmap, Ha. simpl.
  rewrite (expand1_cell N M a X Y r c HX HY Hc).
  remember (X mod 3)%nat as i eqn:Ei. remember (Y mod 3)%nat as j eqn:Ej.
  simpl. rewrite !wrap32_small by lia. rewrite Hsrc. simpl.
  rewrite py_index_nonneg by lia.
  apply cell_Some in Hcv as (row & Hrow & Hcv).
  replace (Z.to_nat (r + Z.of_nat i)) with (Z.to_nat r + i)%nat by lia.
  rewrite Hrow. simpl. rewrite py_index_nonneg by lia.
  replace (Z.to_nat (c + Z.of_nat j)) with (Z.to_nat c + j)%nat by lia.
  by rewrite Hcv.
Qed.

Lemma expanded_dims N M (anchors : list (grid (Z * Z))) :
  anchors <> [] ->
  length (hd [] (map (expand1 N M) anchors)) = (N * 3)%nat
  /\ ((0 < N)%nat ->
      length (hd [] (hd [] (map (expand1 N M) anchors))) = (M * 3)%nat).
Proof.
  intros Hne. destruct anchors as [|a0 rest]; [done|]. simpl.
  destruct (expand1_rect N M a0) as [Hl Hr]. split; [done|].
  intros HN. destruct (expand1 N M a0) as [|row rows]; simpl in *; [lia|].
  by apply Forall_cons in Hr as [-> _].
Qed.

Lemma gathered_element (arr : list (grid A)) anchors N M H W g b a src :
  Forall (rect N M) anchors -> Forall (rect H W) arr ->
  Forall (valid_anchors H W) anchors ->
  Z.of_nat H <= 2 ^ 31 -> Z.of_nat W <= 2 ^ 31 ->
  gather_mine arr (map (expand1 N M) anchors) = Ok g ->
  anchors !! b = Some a -> arr !! b = Some src ->
  exists gb,
    g !! b = Some gb /\ rect (N * 3) (M * 3) gb
    /\ forall X Y, (X < N * 3)%nat -> (Y < M * 3)%nat ->
         exists r c,
           cell a (X / 3) (Y / 3) = Some (r, c)
           /\ cell gb X Y
              = cell src (Z.to_nat r + X mod 3) (Z.to_nat c + Y mod 3).
Proof.
  intros Hra Hrs Hv HH HW Hg Ha Hsrc. unfold gather_mine in Hg.
  assert (Hne : anchors <> []) by (intros ->; discriminate).
  destruct (expanded_dims N M anchors Hne) as [HN HM].
  rewrite HN in Hg.
  assert (Hb : (b < length (map (expand1 N M) anchors))%nat).
  { rewrite length_fmap. by eapply lookup_lt_Some. }
  destruct (mapM_range_lookup _ _ _ b Hg Hb) as (gb & Hgb & Hrows).
  exists gb. split; [done|].
  pose proof (mapM_range_length _ _ _ Hrows) as Hlen.
  assert (Hcells : forall X, (X < N * 3)%nat ->
            exists row, gb !! X = Some row
              /\ mapM (fun y => gather_cell arr (map (expand1 N M) anchors) b X y)
                   (range (M * 3)) = Ok row).
  { intros X HX. destruct (mapM_range_lookup _ _ _ X Hrows HX) as (row & E & Hrow).
    exists row. split; [done|]. rewrite HM in Hrow by lia. done. }
  split; [split; [done|]|].
  - apply Forall_lookup. intros X row HXrow.
    destruct (Hcells X) as (row' & E & Hrow).
    { rewrite <- Hlen. by eapply lookup_lt_Some. }
    rewrite HXrow in E. injection E as <-. by eapply mapM_range_length.
  - intros X Y HX HY. destruct (Hcells X HX) as (row & E & Hrow).
    destruct (mapM_range_lookup _ _ _ Y Hrow HY) as (v & Ev & Hcell).
    destruct (gather_cell_expand arr anchors N M H W b a src X Y)
      as (r & c & v' & Hc & Hsv & Hcell'); try done.
    { exact (Forall_lookup_1 _ _ _ _ Hra Ha). }
    { exact (Forall_lookup_1 _ _ _ _ Hrs Hsrc). }
    { exact (Forall_lookup_1 _ _ _ _ Hv Ha). }
    exists r, c. split; [done|]. rewrite Hsv.
    rewrite Hcell in Hcell'. injection Hcell' as <-.
    apply cell_Some. eauto.
Qed.
End GatherFacts.

(** ** Claim about the gather formulation *)

Section GatherClaims.
Import Movement Arr Gather.

(** C4. For anchors that leave room for their windows, gathering with
    the expanded index map succeeds and yields, at block position
    (3x+i, 3y+j), the source element at (anchor_row+i, anchor_col+j):
    the block of a cell is the window that the direct extraction of
    [collect_input] slices out. *)
Theorem gather_of_expand_extracts_windows {A} (arr : list (grid A))
    (anchors : list (grid (Z * Z))) (N M H W : nat) :
  Forall (rect N M) anchors ->
  Forall (rect H W) arr ->
  length arr = length anchors ->
  Forall (valid_anchors H W) anchors ->
  Z.of_nat H <= 2 ^ 31 -> Z.of_nat W <= 2 ^ 31 ->
  exists g,
    gather_mine arr (expand anchors) = Ok g
    /\ forall b a src x y r c,
         anchors !! b = Some a -> arr !! b = Some src ->
         cell a x y = Some (r, c) ->
         exists gb,
           g !! b = Some gb
           /\ block gb x y = window src r c
           /\ forall i j, (i < 3)%nat -> (j < 3)%nat ->
                cell gb (3 * x + i) (3 * y + j)
                = cell src (Z.to_nat r + i) (Z.to_nat c + j).
Proof.
  intros Hra Hrs Hlen Hv HH HW.
  rewrite (expand_rect N M) by done.
  assert (Htotal : exists g, gather_mine arr (map (expand1 N M) anchors) = Ok g).
  { unfold gather_mine. apply mapM_total. intros b Hb%elem_of_range.
    rewrite length_fmap in Hb.
    destruct (lookup_lt_is_Some_2 anchors b Hb) as [a Ha].
    destruct (lookup_lt_is_Some_2 arr b) as [src Hsrc]; [lia|].
    assert (Hne : anchors <> []) by (intros ->; discriminate).
    destruct (expanded_dims N M anchors Hne) as [HN HM].
    rewrite HN. apply mapM_total. intros X HX%elem_of_range.
    rewrite HM by lia. apply mapM_total. intros Y HY%elem_of_range.
    destruct (gather_cell_expand arr anchors N M H W b a src X Y)
      as (r & c & v & _ & _ & Hcell); try done; eauto.
    - exact (Forall_lookup_1 _ _ _ _ Hra Ha).
    - exact (Forall_lookup_1 _ _ _ _ Hrs Hsrc).
    - exact (Forall_lookup_1 _ _ _ _ Hv Ha). }
  destruct Htotal as [g Hg]. exists g. split; [done|].
  intros b a src x y r c Ha Hsrc Hc.
  destruct (gathered_element arr anchors N M H W g b a src)
    as (gb & Hgb & Hrect & Hcells); try done.
  pose proof (Forall_lookup_1 _ _ _ _ Hra Ha) as Hrecta.
  pose proof (Forall_lookup_1 _ _ _ _ Hrs Hsrc) as Hrects.
  pose proof (Forall_lookup_1 _ _ _ _ Hv Ha) as Hva.
  destruct (cell_lt _ _ _ _ _ _ Hrecta Hc) as [Hx Hy].
  destruct (valid_anchors_cell _ _ _ _ _ _ _ Hva Hc) as (Hr0 & Hr3 & Hc0 & Hc3).
  assert (Hblock : forall i j, (i < 3)%nat -> (j < 3)%nat ->
            cell gb (3 * x + i) (3 * y + j)
            = cell src (Z.to_nat r + i) (Z.to_nat c + j)).
  { intros i j Hi Hj.
    destruct (Hcells (3 * x + i)%nat (3 * y + j)%nat) as (r' & c' & Hc' & ->);
      [lia | lia |].
    replace ((3 * x + i) / 3)%nat with x in Hc'
      by (apply Nat.div_unique with i; lia).
    replace ((3 * y + j) / 3)%nat with y in Hc'
      by (apply Nat.div_unique with j; lia).
    rewrite Hc in Hc'. injection Hc' as <- <-.
    replace ((3 * x + i) mod 3)%nat with i
      by (apply Nat.mod_unique with x; lia).
    replace ((3 * y + j) mod 3)%nat with j
      by (apply Nat.mod_unique with y; lia).
    done. }
  exists gb. split; [done|]. split; [|done].
  destruct Hrect as [Hgl Hgr]. destruct Hrects as [Hsl Hsr].
  apply (grid_ext 3 3).
  - unfold block. split.
    + rewrite length_fmap, length_take, length_drop. lia.
    + apply Forall_fmap, Forall_forall. intros row Hrow. simpl.
      apply list_elem_of_lookup in Hrow as [k Hk].
      apply lookup_take_Some in Hk as [Hk _]. rewrite lookup_drop in Hk.
      pose proof (Forall_lookup_1 _ _ _ _ Hgr Hk) as L. simpl in L.
      rewrite length_take, length_drop. lia.
  - unfold window. replace r with (Z.of_nat (Z.to_nat r)) by lia.
    replace c with (Z.of_nat (Z.to_nat c)) by lia.
    change 3 with (Z.of_nat 3).
    rewrite (py_slice_in_range src) by lia. split.
    + rewrite length_fmap, length_take, length_drop. lia.
    + apply Forall_fmap, Forall_forall. intros row Hrow. simpl.
      apply list_elem_of_lookup in Hrow as [k Hk].
      apply lookup_take_Some in Hk as [Hk _]. rewrite lookup_drop in Hk.
      pose proof (Forall_lookup_1 _ _ _ _ Hsr Hk) as L. simpl in L.
      change 3 with (Z.of_nat 3). rewrite py_slice_in_range by lia.
      rewrite length_take, length_drop. lia.
  - intros i j Hi Hj. rewrite cell_block by done. rewrite Hblock by done.
    replace r with (Z.of_nat (Z.to_nat r)) at 2 by lia.
    replace c with (Z.of_nat (Z.to_nat c)) at 2 by lia.
    symmetry. apply (cell_window src H W); try done; lia.
Qed.

Lemma gather_of_expand_extracts_windows_witness :
  exists g gb,
    gather_mine [example_source] (expand [example_anchors]) = Ok g
    /\ g !! 0%nat = Some gb
    /\ block gb 1 1 = window example_source 1 1
    /\ cell gb 5 4 = cell example_source 3 2.
Proof.
  destruct (gather_of_expand_extracts_windows [example_source]
              [example_anchors] 2 2 4 4) as (g & Hg & Hcells).
  - repeat constructor.
  - repeat constructor.
  - reflexivity.
  - repeat constructor; simpl; lia.
  - simpl; lia.
  - simpl; lia.
  - destruct (Hcells 0%nat example_anchors example_source 1%nat 1%nat 1 1)
      as (gb & Hgb & Hblock & Hcell); [reflexivity ..|].
    exists g, gb. split; [exact Hg|]. split; [exact Hgb|].
    split; [exact Hblock|]. apply (Hcell 2%nat 1%nat); lia.
Defined.
End GatherClaims.

(** ** Input assembler *)

Section CollectFacts.
Import Movement Arr Assembler.

Lemma Forall_py_slice {B} (P : B -> Prop) (l : list B) lo hi :
  Forall P l -> Forall P (py_slice l lo hi).
Proof. intros H. unfold py_slice. by apply Forall_take, Forall_drop. Qed.

Lemma window_Forall {B} (P : B -> Prop) (a : grid B) r c :
  Forall (Forall P) a -> Forall (Forall P) (window a r c).
Proof.
  intros H. unfold window. apply Forall_fmap.
  eapply Forall_impl; [apply Forall_py_slice, H|].
  intros row Hrow. simpl. by apply Forall_py_slice.
Qed.

Lemma window_rect {B} (a : grid B) (H W r c : nat) :
  rect H W a -> (r + 3 <= H)%nat -> (c + 3 <= W)%nat ->
  rect 3 3 (window a (Z.of_nat r) (Z.of_nat c)).
Proof.
  intros [Hl Hr] HrH HcW. unfold window. change 3 with (Z.of_nat 3).
  rewrite (py_slice_in_range a) by lia. split.
  - rewrite length_fmap, length_take, length_drop. lia.
  - apply Forall_fmap, Forall_take, Forall_drop.
    eapply Forall_impl; [exact Hr|]. intros row L. simpl in *.
    change 3 with (Z.of_nat 3). rewrite py_slice_in_range by lia.
    rewrite length_take, length_drop. lia.
Qed.

Lemma take1_single_channel (a : list (list (list Q))) :
  channels 1 a -> map (map (take 1)) a = a.
Proof.
  intros H. unfold channels in H.
  induction H as [|row a Hrow _ IH]; simpl; [done|]. f_equal; [|done].
  induction Hrow as [|px row Hpx _ IHrow]; simpl; [done|]. f_equal; [|done].
  apply take_ge. simpl in Hpx. lia.
Qed.

Lemma length_concat_uniform {B} (k : nat) (ls : list (list B)) :
  Forall (fun l => length l = k) ls -> length (concat ls) = (length ls * k)%nat.
Proof.
  induction 1 as [|l ls Hl _ IH]; simpl; [done|].
  rewrite length_app, Hl, IH. lia.
Qed.

Lemma concat_rect {B} (n m : nat) (g : grid B) :
  rect n m g -> length (concat g) = (n * m)%nat.
Proof. intros [<- Hr]. by apply length_concat_uniform. Qed.

Lemma zip_with_rect {B C D} (f : B -> C -> D) n m (g1 : grid B) (g2 : grid C) :
  rect n m g1 -> rect n m g2 -> rect n m (zip_with (zip_with f) g1 g2).
Proof.
  intros [Hl1 Hr1] [Hl2 Hr2]. split.
  - rewrite length_zip_with. lia.
  - apply Forall_lookup. intros i row Hrow.
    apply lookup_zip_with_Some in Hrow as (r1 & r2 & -> & E1 & E2).
    rewrite length_zip_with.
    rewrite (Forall_lookup_1 _ _ _ _ Hr1 E1), (Forall_lookup_1 _ _ _ _ Hr2 E2).
    lia.
Qed.

Lemma concatenate2_rect n m (perc comms : list (list (list Q))) :
  rect n m perc -> rect n m comms ->
  concatenate2 perc comms = Ok (zip_with (zip_with app) perc comms).
Proof.
  intros [Hl1 Hr1] [Hl2 Hr2]. unfold concatenate2. apply zip_exact_pure.
  apply Forall2_same_length_lookup. split; [lia|].
  intros i r1 r2 E1 E2. apply zip_exact_pure.
  apply Forall2_same_length_lookup. split; [|done].
  by rewrite (Forall_lookup_1 _ _ _ _ Hr1 E1), (Forall_lookup_1 _ _ _ _ Hr2 E2).
Qed.

Lemma zip_app_channels j k (perc comms : list (list (list Q))) :
  channels j perc -> channels k comms ->
  channels (j + k) (zip_with (zip_with app) perc comms).
Proof.
  intros H1 H2. unfold channels in *. apply Forall_lookup. intros i row Hrow.
  apply lookup_zip_with_Some in Hrow as (r1 & r2 & -> & E1 & E2).
  apply Forall_lookup. intros i' c Hc.
  apply lookup_zip_with_Some in Hc as (c1 & c2 & -> & F1 & F2).
  rewrite length_app.
  pose proof (Forall_lookup_1 _ _ _ _ (Forall_lookup_1 _ _ _ _ H1 E1) F1) as L1.
  pose proof (Forall_lookup_1 _ _ _ _ (Forall_lookup_1 _ _ _ _ H2 E2) F2) as L2.
  simpl in *. lia.
Qed.

Lemma flatten_length n m k (a : list (list (list Q))) :
  rect n m a -> channels k a -> length (flatten a) = (n * m * k)%nat.
Proof.
  intros Hr Hk. unfold flatten.
  rewrite (length_concat_uniform k).
  - by rewrite (concat_rect n m).
  - unfold channels in Hk. clear Hr.
    induction Hk as [|row a Hrow _ IH]; simpl; [done|].
    apply Forall_app. split; done.
Qed.

Lemma patch_ok img state perceptions N_neo M_neo Hi Wi Hs Ws C x y x_p y_p :
  well_formed img state perceptions N_neo M_neo Hi Wi Hs Ws C ->
  cell perceptions x y = Some (x_p, y_p) ->
  exists v, patch img state x y x_p y_p = Ok v
            /\ length v = (9 * (1 + C))%nat.
Proof.
  intros (Hri & Hci & Hrs & Hcs & HN & HM & Hrp & Hv) Hc.
  destruct (cell_lt _ _ _ _ _ _ Hrp Hc) as [Hx Hy].
  destruct (valid_anchors_cell _ _ _ _ _ _ _ Hv Hc) as (Hr0 & Hr3 & Hc0 & Hc3).
  unfold patch.
  rewrite take1_single_channel by by apply window_Forall.
  assert (Hw1 : rect 3 3 (window img x_p y_p)).
  { replace x_p with (Z.of_nat (Z.to_nat x_p)) by lia.
    replace y_p with (Z.of_nat (Z.to_nat y_p)) by lia.
    apply (window_rect img Hi Wi); [done | lia | lia]. }
  assert (Hw2 : rect 3 3 (window state (Z.of_nat x) (Z.of_nat y))).
  { apply (window_rect state Hs Ws); [done | lia | lia]. }
  rewrite (concatenate2_rect 3 3) by done. simpl.
  eexists. split; [done|].
  rewrite (flatten_length 3 3 (1 + C)); [lia | by apply zip_with_rect |].
  apply zip_app_channels; by apply window_Forall.
Qed.

Lemma foldM_seq_inv {S} (f : nat -> S -> result S) (I : nat -> S -> Prop)
    (a n : nat) (s : S) :
  I a s ->
  (forall i s0, (a <= i < a + n)%nat -> I i s0 ->
     exists s1, f i s0 = Ok s1 /\ I (Datatypes.S i) s1) ->
  exists s', foldM f (seq a n) s = Ok s' /\ I (a + n)%nat s'.
Proof.
  revert a s. induction n as [|n IH]; intros a s H0 Hstep; simpl.
  - exists s. split; [done|]. by rewrite Nat.add_0_r.
  - destruct (Hstep a s) as (s1 & -> & H1); [lia | done |]. simpl.
    destruct (IH (Datatypes.S a) s1 H1) as (s' & Hs' & HI).
    { intros i s0 Hi. apply Hstep. lia. }
    exists s'. split; [done|]. by replace (a + Datatypes.S n)%nat with (Datatypes.S a + n)%nat by lia.
Qed.

Lemma set_prefix_ok v row :
  (length v <= length row)%nat ->
  set_prefix v row = Ok (v ++ drop (length v) row)
  /\ length (v ++ drop (length v) row) = length row.
Proof.
  intros H. unfold set_prefix.
  destruct (Nat.leb_spec (length v) (length row)); [|lia].
  split; [done|]. rewrite length_app, length_drop. lia.
Qed.

Lemma set_from_end_ok k a row :
  (k <= length row)%nat ->
  set_from_end k a row = Ok (<[(length row - k)%nat := a]> row).
Proof.
  intros H. unfold set_from_end.
  by destruct (Nat.leb_spec k (length row)); [|lia].
Qed.

Lemma write_row_ok r f (input : list (list Q)) row row' :
  input !! r = Some row -> f row = Ok row' ->
  write_row r f input = Ok (<[r := row']> input).
Proof. intros H Hf. unfold write_row. by rewrite H; simpl; rewrite Hf. Qed.

Lemma write_position_other position r x y x_p y_p N M N_neo M_neo input :
  position_is position "current" = false ->
  position_is position "initial" = false ->
  write_position position r x y x_p y_p N M N_neo M_neo input = Ok input.
Proof. intros H1 H2. unfold write_position. by rewrite H1, H2. Qed.

Lemma rescale_current_ok x_p N :
  (2 <= N)%nat -> exists a, rescale_current x_p N = Ok a.
Proof.
  intros H. unfold rescale_current.
  destruct (Z.eqb_spec (Z.of_nat N / 2) 0) as [E|E]; [|eauto].
  assert (1 <= Z.of_nat N / 2) by (apply Z.div_le_lower_bound; lia). lia.
Qed.

Lemma rescale_initial_ok x N N_neo :
  (2 <= N)%nat -> exists a, rescale_initial x N N_neo = Ok a.
Proof.
  intros H. unfold rescale_initial.
  destruct (Z.eqb_spec (Z.of_nat N / 2) 0) as [E|E]; [|eauto].
  assert (1 <= Z.of_nat N / 2) by (apply Z.div_le_lower_bound; lia). lia.
Qed.

Lemma write_two_ok r a b (input : list (list Q)) row :
  input !! r = Some row -> (2 <= length row)%nat ->
  exists row',
    (let* input1 := write_row r (set_from_end 2 a) input in
     write_row r (set_from_end 1 b) input1) = Ok (<[r := row']> input)
    /\ length row' = length row.
Proof.
  intros Hr Hlen.
  rewrite (write_row_ok r _ input row _ Hr (set_from_end_ok 2 a row Hlen)).
  simpl.
  set (row1 := <[(length row - 2)%nat := a]> row).
  assert (Hl1 : length row1 = length row) by apply length_insert.
  assert (Hr1 : <[r := row1]> input !! r = Some row1).
  { apply list_lookup_insert_eq. by eapply lookup_lt_Some. }
  rewrite (write_row_ok r _ _ row1 _ Hr1 (set_from_end_ok 1 b row1 ltac:(lia))).
  rewrite list_insert_insert_eq. eexists. split; [done|].
  by rewrite length_insert.
Qed.

Lemma write_position_ok position r x y x_p y_p N M N_neo M_neo
    (input : list (list Q)) row :
  input !! r = Some row -> (2 <= length row)%nat ->
  (2 <= N)%nat -> (2 <= M)%nat ->
  exists row',
    write_position position r x y x_p y_p N M N_neo M_neo input
    = Ok (<[r := row']> input)
    /\ length row' = length row.
Proof.
  intros Hr Hlen HN HM. unfold write_position.
  destruct (position_is position "current").
  - destruct (rescale_current_ok x_p N HN) as [a ->].
    destruct (rescale_current_ok y_p M HM) as [b Hb]. simpl.
    destruct (write_two_ok r a b input row Hr Hlen) as (row' & E & L).
    exists row'. split; [|done]. rewrite <- E.
    destruct (write_row r (set_from_end 2 a) input); simpl; [|done].
    by rewrite Hb.
  - destruct (position_is position "initial").
    + destruct (rescale_initial_ok x N N_neo HN) as [a ->].
      destruct (rescale_initial_ok y M M_neo HM) as [b Hb]. simpl.
      destruct (write_two_ok r a b input row Hr Hlen) as (row' & E & L).
      exists row'. split; [|done]. rewrite <- E.
      destruct (write_row r (set_from_end 2 a) input); simpl; [|done].
      by rewrite Hb.
    + exists row. split; [|done]. by rewrite list_insert_id.
Qed.

Lemma state_dims {B} (state : grid B) Hs Ws N_neo M_neo :
  rect Hs Ws state -> (N_neo + 2 <= Hs)%nat -> (M_neo + 2 <= Ws)%nat ->
  (2 <= length state)%nat /\ (2 <= length (hd [] state))%nat.
Proof.
  intros [Hl Hr] HN HM. split; [lia|].
  destruct state as [|row rest]; simpl in *; [lia|].
  apply Forall_cons in Hr as [-> _]. lia.
Qed.

Lemma collect_cell_ok img state perceptions position N_neo M_neo Hi Wi Hs Ws C
    (x y : nat) (x_p y_p : Z) (input : list (list Q)) row :
  well_formed img state perceptions N_neo M_neo Hi Wi Hs Ws C ->
  cell perceptions x y = Some (x_p, y_p) ->
  input !! (x * M_neo + y)%nat = Some row ->
  (9 * (1 + C) <= length row)%nat ->
  exists v row',
    patch img state x y x_p y_p = Ok v
    /\ collect_cell img state perceptions position N_neo M_neo
         (length state) (length (hd [] state)) x y input
       = Ok (<[(x * M_neo + y)%nat := row']> input)
    /\ length row' = length row
    /\ (position_is position "current" = false ->
        position_is position "initial" = false ->
        row' = v ++ drop (length v) row).
Proof.
  intros Hwf Hc Hrow Hw.
  destruct (patch_ok _ _ _ _ _ _ _ _ _ _ _ _ _ _ Hwf Hc) as (v & Hv & Lv).
  destruct Hwf as (_ & _ & Hrs & _ & HN & HM & _ & _).
  destruct (state_dims _ _ _ _ _ Hrs HN HM) as [HN2 HM2].
  destruct (set_prefix_ok v row ltac:(lia)) as [Hp Lp].
  set (row1 := v ++ drop (length v) row) in *.
  set (r := (x * M_neo + y)%nat) in *.
  assert (Hr1 : <[r := row1]> input !! r = Some row1).
  { apply list_lookup_insert_eq. by eapply lookup_lt_Some. }
  destruct (write_position_ok position r x y x_p y_p (length state)
              (length (hd [] state)) N_neo M_neo _ row1 Hr1)
    as (row' & Hwp & L'); [lia | done | done |].
  exists v, row'. split; [done|].
  assert (Hcc : collect_cell img state perceptions position N_neo M_neo
                  (length state) (length (hd [] state)) x y input
                = write_position position r x y x_p y_p (length state)
                    (length (hd [] state)) N_neo M_neo (<[r := row1]> input)).
  { unfold collect_cell. fold (cell perceptions x y). rewrite Hc. simpl.
    rewrite Hv. simpl. fold r.
    by rewrite (write_row_ok r _ input row row1 Hrow Hp). }
  split; [|split].
  - rewrite Hcc, Hwp. by rewrite list_insert_insert_eq.
  - lia.
  - intros H1 H2.
    rewrite (write_position_other _ _ _ _ _ _ _ _ _ _ _ H1 H2) in Hwp.
    injection Hwp as Hwp.
    assert (E : <[r := row']> (<[r := row1]> input) !! r = Some row1)
      by (by rewrite <- Hwp).
    rewrite list_lookup_insert_eq in E.
    + by injection E.
    + rewrite length_insert. by eapply lookup_lt_Some.
Qed.

Lemma cell_index_unique (M x y x' y' : nat) :
  (y < M)%nat -> (y' < M)%nat -> (x' * M + y' = x * M + y)%nat ->
  x' = x /\ y' = y.
Proof.
  intros Hy Hy' E.
  assert (Hx : x = ((x * M + y) / M)%nat)
    by (apply Nat.div_unique with y; lia).
  assert (Hx' : x' = ((x * M + y) / M)%nat)
    by (apply Nat.div_unique with y'; lia).
  assert (x' = x) as -> by congruence. split; [done | lia].
Qed.

Lemma collect_inv_step img state perceptions position N_neo M_neo Hi Wi Hs Ws C
    R w input x y s :
  well_formed img state perceptions N_neo M_neo Hi Wi Hs Ws C ->
  rect R w input -> (N_neo * M_neo <= R)%nat -> (9 * (1 + C) <= w)%nat ->
  (x < N_neo)%nat -> (y < M_neo)%nat ->
  collect_inv img state perceptions position M_neo R w input (x * M_neo + y) s ->
  exists s1,
    collect_cell img state perceptions position N_neo M_neo
      (length state) (length (hd [] state)) x y s = Ok s1
    /\ collect_inv img state perceptions position M_neo R w input
         (x * M_neo + Datatypes.S y) s1.
Proof.
  intros Hwf [HRl HRr] HR Hw Hx Hy (Hrect & Hrest & Hdone).
  set (r := (x * M_neo + y)%nat) in *.
  assert (Hr : (r < R)%nat) by (unfold r; nia).
  destruct (lookup_lt_is_Some_2 input r) as [row Hrow]; [lia|].
  assert (Lrow : length row = w) by exact (Forall_lookup_1 _ _ _ _ HRr Hrow).
  assert (Hsrow : s !! r = Some row) by (by rewrite Hrest).
  destruct Hwf as (Hri & Hci & Hrs & Hcs & HN & HM & Hrp & Hv).
  destruct (rect_cell N_neo M_neo perceptions x y Hrp Hx Hy) as [[x_p y_p] Hc].
  destruct (collect_cell_ok img state perceptions position N_neo M_neo
              Hi Wi Hs Ws C x y x_p y_p s row) as (v & row' & Hv' & Hcc & L' & Hnp);
    [done | done | done | lia |].
  fold r in Hcc. exists (<[r := row']> s). split; [done|].
  destruct Hrect as [Hsl Hsr].
  replace (x * M_neo + Datatypes.S y)%nat with (Datatypes.S r) by (unfold r; lia).
  split; [split|split].
  - by rewrite length_insert.
  - apply Forall_insert; [done|]. simpl. lia.
  - intros r' Hr'. rewrite list_lookup_insert_ne by lia. apply Hrest. lia.
  - intros H1 H2 x' y' Hy' Hlt.
    destruct (decide (x' * M_neo + y' = r)%nat) as [E|E].
    + assert (x' = x /\ y' = y) as [-> ->]
        by (by apply (cell_index_unique M_neo)).
      fold r. exists x_p, y_p, v, row. repeat split; try done.
      rewrite list_lookup_insert_eq by lia. f_equal. by apply Hnp.
    + destruct (Hdone H1 H2 x' y' Hy') as (xp' & yp' & v' & row0 & A1 & A2 & A3 & A4);
        [lia|].
      exists xp', yp', v', row0. repeat split; try done.
      by rewrite list_lookup_insert_ne.
Qed.

Lemma collect_input_spec img state perceptions position N_neo M_neo
    Hi Wi Hs Ws C R w input :
  well_formed img state perceptions N_neo M_neo Hi Wi Hs Ws C ->
  rect R w input -> (N_neo * M_neo <= R)%nat -> (9 * (1 + C) <= w)%nat ->
  exists input',
    collect_input input img state perceptions position N_neo M_neo = Ok input'
    /\ collect_inv img state perceptions position M_neo R w input
         (N_neo * M_neo) input'.
Proof.
  intros Hwf Hin HR Hw. unfold collect_input, range.
  destruct (foldM_seq_inv
    (fun x => foldM (fun y =>
       collect_cell img state perceptions position N_neo M_neo
         (length state) (length (hd [] state)) x y) (seq 0 M_neo))
    (fun x s => collect_inv img state perceptions position M_neo R w input
                  (x * M_neo) s)
    0 N_neo input) as (input' & Hfold & Hinv).
  - split; [done|]. split; [done|]. intros _ _ x y Hy Hlt. simpl in Hlt. lia.
  - intros x s0 Hx Hinv0.
    destruct (foldM_seq_inv
      (collect_cell img state perceptions position N_neo M_neo
         (length state) (length (hd [] state)) x)
      (fun y s => collect_inv img state perceptions position M_neo R w input
                    (x * M_neo + y) s)
      0 M_neo s0) as (s1 & Hfold1 & Hinv1).
    + by rewrite Nat.add_0_r.
    + intros y s2 Hy Hinv2.
      apply (collect_inv_step img state perceptions position N_neo M_neo
               Hi Wi Hs Ws C R w input x y s2); try done; lia.
    + exists s1. split; [done|].
      by replace (Datatypes.S x * M_neo)%nat with (x * M_neo + (0 + M_neo))%nat by lia.
  - exists input'. split; [done|]. done.
Qed.
End CollectFacts.

(** ** Claim about the position modes *)

Section AssemblerClaims.
Import Movement Arr Assembler Executor.

Lemma position_is_other position s :
  position <> Some s -> position_is position s = false.
Proof.
  intros H. destruct position as [p|]; simpl; [|done].
  apply String.eqb_neq. congruence.
Qed.

Lemma collect_input_as_none input img state perceptions position N_neo M_neo :
  position <> Some "current"%string -> position <> Some "initial"%string ->
  collect_input input img state perceptions position N_neo M_neo
  = collect_input input img state perceptions None N_neo M_neo.
Proof.
  intros H1 H2. unfold collect_input.
  apply foldM_ext. intros x s _. apply foldM_ext. intros y s' _.
  unfold collect_cell.
  destruct (of_option IndexError (perceptions !! x ≫= fun row => row !! y))
    as [[x_p y_p]|]; simpl; [|done].
  destruct (patch img state x y x_p y_p); simpl; [|done].
  destruct (write_row _ _ s'); simpl; [|done].
  rewrite !write_position_other; try done; by apply position_is_other.
Qed.

Lemma np_empty_rect uninit R w : rect R w (np_empty uninit R w).
Proof.
  unfold np_empty, range. split; [by rewrite length_fmap, length_seq|].
  apply Forall_fmap, Forall_forall. intros r _. simpl.
  by rewrite length_fmap, length_seq.
Qed.

Lemma np_empty_lookup uninit R w r row :
  np_empty uninit R w !! r = Some row -> row = map (uninit r) (range w).
Proof.
  unfold np_empty, range. rewrite list_lookup_fmap. intros H.
  destruct (seq 0 R !! r) as [r'|] eqn:E; simpl in H; [|done].
  apply lookup_seq in E as [-> _]. by injection H as <-.
Qed.

(** For a position mode other than ["current"] and ["initial"] the
    assembler does what it does in none mode on the same buffer and
    raises nothing: each row of the buffer receives the flattened image
    patch and state patch in its first entries and no other write.  In
    the buffer that [classify] allocates the Input Vector is that patch
    followed by [position_addon] entries, none for [None] and two for a
    string, which hold what the allocation held. *)
Lemma assemble_other_modes (self : MovingNCA)
    (uninit : nat -> nat -> Q) (img : image) (s : Store)
    (Hi Wi Hs Ws : nat) :
  position self <> Some "current"%string ->
  position self <> Some "initial"%string ->
  well_formed img (state s) (perceptions s)
    (fst (size_neo self)) (snd (size_neo self)) Hi Wi Hs Ws
    (num_hidden self + num_classes self) ->
  (forall input,
     collect_input input img (state s) (perceptions s) (position self)
       (fst (size_neo self)) (snd (size_neo self))
     = collect_input input img (state s) (perceptions s) None
         (fst (size_neo self)) (snd (size_neo self)))
  /\ exists rows,
       assemble self uninit img s = Ok rows
       /\ length rows = (fst (size_neo self) * snd (size_neo self))%nat
       /\ forall x y,
            (x < fst (size_neo self))%nat -> (y < snd (size_neo self))%nat ->
            exists x_p y_p v,
              cell (perceptions s) x y = Some (x_p, y_p)
              /\ patch img (state s) x y x_p y_p = Ok v
              /\ rows !! (x * snd (size_neo self) + y)%nat
                 = Some (v ++ map (uninit (x * snd (size_neo self) + y)%nat)
                                (seq (3 * 3 * input_dim self)
                                   (position_addon self))).
Proof.
  intros H1 H2 Hwf. split.
  { intros input. by apply collect_input_as_none. }
  unfold assemble. destruct (size_neo self) as [N_neo M_neo]. simpl in *.
  set (C := (num_hidden self + num_classes self)%nat) in *.
  set (w := (3 * 3 * input_dim self + position_addon self)%nat).
  assert (Hw : w = (9 * (1 + C) + position_addon self)%nat)
    by (unfold w, input_dim, img_channels, C; lia).
  destruct (collect_input_spec img (state s) (perceptions s) (position self)
              N_neo M_neo Hi Wi Hs Ws C (N_neo * M_neo) w
              (np_empty uninit (N_neo * M_neo) w))
    as (rows & Hrows & [Hl Hr] & _ & Hdone); [done | | lia | lia |].
  { apply np_empty_rect. }
  exists rows. split; [done|]. split; [done|].
  intros x y Hx Hy.
  destruct (Hdone (position_is_other _ _ H1) (position_is_other _ _ H2) x y Hy)
    as (x_p & y_p & v & row & Hc & Hv & Hrow & Hnew); [nia|].
  exists x_p, y_p, v. split; [done|]. split; [done|].
  rewrite Hnew. do 2 f_equal.
  destruct (patch_ok _ _ _ _ _ _ _ _ _ _ _ _ _ _ Hwf Hc) as (v' & Hv' & Lv).
  rewrite Hv in Hv'. injection Hv' as <-.
  apply np_empty_lookup in Hrow as ->. unfold range.
  rewrite <- fmap_drop, drop_seq. do 2 f_equal.
  - unfold input_dim, img_channels. fold C. lia.
  - lia.
Qed.

(** C5 at the default of the constructor. The position mode ["None"]
    is a string, so the buffer that [classify] allocates is two entries
    wider than the patch: whatever the allocation holds, the Input
    Vector of the one cell is the 18 entries of the flattened patches
    followed by the last two entries of the allocation, which nothing
    has written. *)
Theorem default_position_reads_unwritten_entries
    (uninit : nat -> nat -> Q) :
  position default_nca <> Some "current"%string
  /\ position default_nca <> Some "initial"%string
  /\ exists v,
       patch tiny_image (state (reset default_nca [[(0, 0)]])) 0 0 0 0 = Ok v
       /\ length v = 18%nat
       /\ assemble default_nca uninit tiny_image
            (reset default_nca [[(0, 0)]])
          = Ok [v ++ [uninit 0%nat 18%nat; uninit 0%nat 19%nat]].
Proof.
  split; [discriminate|]. split; [discriminate|].
  eexists. split; [reflexivity|]. split; reflexivity.
Qed.
End AssemblerClaims.

(** ** The two executors *)

Section ExecutorFacts.
Import Movement Arr Assembler Executor.

Lemma rbind_ret {B} (m : result B) : rbind m Ok = m.
Proof. by destruct m. Qed.

Lemma patch_batched_single_channel img state x y x_p y_p :
  channels 1 img ->
  patch_batched img state x y x_p y_p = patch img state x y x_p y_p.
Proof.
  intros H. unfold patch_batched, patch.
  by rewrite take1_single_channel by by apply window_Forall.
Qed.

Lemma collect_input_batched_one input (img : image) (state : state_array)
    (p : grid (Z * Z)) position N_neo M_neo :
  length img = length state ->
  length (hd [] img) = length (hd [] state) ->
  channels 1 img ->
  collect_input_batched input [img] [state] [p] position N_neo M_neo
  = collect_input input img state p position N_neo M_neo.
Proof.
  intros HN HM Hc. unfold collect_input_batched, collect_input. simpl hd.
  rewrite HN, HM. apply foldM_ext. intros x s _. apply foldM_ext. intros y s' _.
  simpl. rewrite rbind_ret. unfold collect_cell_batched, collect_cell. simpl.
  destruct (of_option IndexError (p !! x ≫= fun row => row !! y))
    as [[x_p y_p]|]; simpl; [|done].
  by rewrite patch_batched_single_channel.
Qed.

Lemma reshape4_one g N M D :
  reshape4 g 1 N M D = rmap (fun o => [o]) (reshape3 g N M D).
Proof.
  unfold reshape4, reshape3. rewrite Nat.mul_1_l.
  destruct (Nat.eqb_spec (length (concat g)) (N * M * D)) as [E|E]; [|done].
  simpl. by rewrite take_ge by lia.
Qed.

Lemma lift_move_batched_one (p : grid (Z * Z)) (a : grid (Q * Q)) N_neo M_neo
    N_active M_active :
  lift_move (alter_perception_slicing_batched [p] [a] N_neo M_neo
               N_active M_active)
  = rmap (fun q => [q])
      (lift_move (alter_perception_slicing p a N_neo M_neo N_active M_active)).
Proof.
  unfold alter_perception_slicing_batched, alter_perception_slicing,
    add_action_slicing_batched, add_action_slicing, iadd_batched. simpl.
  destruct (iadd p (custom_round_slicing a)) as [p1|]; simpl; [|done].
  by destruct (N_active =? M_active).
Qed.

Lemma classify_batch_iteration_one self uninit (img : image) (s : Store) :
  length img = length (state s) ->
  length (hd [] img) = length (hd [] (state s)) ->
  channels 1 img ->
  classify_batch_iteration self uninit [img] (batch_of_one s)
  = rmap (fun '(s', g) => (batch_of_one s', g))
      (classify_iteration self uninit img None s).
Proof.
  intros HN HM Hc. unfold classify_batch_iteration, classify_iteration, assemble.
  destruct (size_neo self) as [N_neo M_neo].
  destruct (size_active self) as [N_active M_active].
  cbn [length batch_of_one state_batched perceptions_batched].
  rewrite Nat.mul_1_l, collect_input_batched_one by done.
  destruct (collect_input _ img (state s) (perceptions s) (position self)
              N_neo M_neo) as [input|]; simpl; [|done].
  rewrite reshape4_one.
  destruct (reshape3 (dmodel self input) N_neo M_neo (output_dim self))
    as [outputs|]; simpl; [|done].
  unfold accumulate, add4. simpl.
  destruct (add3 (interior (state s) N_neo M_neo) _) as [sum|]; simpl; [|done].
  destruct (moving self); simpl; [|done].
  destruct (action_slice outputs) as [actions|]; simpl; [|done].
  rewrite lift_move_batched_one.
  by destruct (lift_move _).
Qed.

Lemma splice_length {B} (l : list B) i new :
  (length new <= length l - i)%nat -> length (splice l i new) = length l.
Proof.
  intros H. unfold splice.
  rewrite !length_app, length_take, length_drop. lia.
Qed.

Lemma assign_interior_length {B} (a : grid B) N M new :
  length (assign_interior a N M new) = length a.
Proof.
  unfold assign_interior. apply splice_length.
  rewrite length_zip_with, length_take, length_drop. lia.
Qed.

Lemma assign_interior_hd {B} (a : grid B) N M new :
  hd [] (assign_interior a N M new) = hd [] a.
Proof.
  unfold assign_interior, splice. destruct a as [|row a]; simpl; [|done].
  by rewrite take_nil.
Qed.

Lemma classify_iteration_dims self uninit img s s' g :
  classify_iteration self uninit img None s = Ok (s', g) ->
  length (state s') = length (state s)
  /\ length (hd [] (state s')) = length (hd [] (state s)).
Proof.
  unfold classify_iteration. destruct (size_neo self) as [N_neo M_neo].
  destruct (size_active self) as [N_active M_active].
  destruct (assemble self uninit img s) as [input|]; simpl; [|done].
  destruct (reshape3 _ _ _ _) as [outputs|]; simpl; [|done].
  unfold accumulate.
  destruct (add3 _ _) as [sum|]; simpl; [|done].
  destruct (if moving self then _ else _) as [p|]; simpl; [|done].
  intros [= <- _]. simpl.
  by rewrite assign_interior_length, assign_interior_hd.
Qed.

Lemma classify_batch_loop_one self uninit (img : image) n (s : Store) g :
  length img = length (state s) ->
  length (hd [] img) = length (hd [] (state s)) ->
  channels 1 img ->
  classify_batch_loop self uninit [img] n (batch_of_one s) g
  = rmap (fun '(s', g') => (batch_of_one s', g'))
      (classify_loop self uninit img None n s g).
Proof.
  revert uninit s g.
  induction n as [|n IH]; intros uninit s g HN HM Hc; simpl; [done|].
  rewrite classify_batch_iteration_one by done.
  destruct (classify_iteration self (uninit 0%nat) img None s)
    as [[s' g']|] eqn:E; simpl; [|done].
  destruct (classify_iteration_dims _ _ _ _ _ _ E) as [HN' HM'].
  apply IH; congruence.
Qed.

(** Were the two executors handed the same memory by [np.empty], pass
    for pass, the batched one on a batch of one would end as the
    single-sample one does. *)
Lemma batch_of_one_same_memory (self : MovingNCA)
    (uninit : nat -> nat -> nat -> Q) (rnd : nat * nat) (img : image)
    (s : Store) :
  length img = length (state s) ->
  length (hd [] img) = length (hd [] (state s)) ->
  channels 1 img ->
  classify_batch self uninit [img] (batch_of_one s)
  = rmap (fun '(s', (classes, guesses)) =>
            (batch_of_one s', ([classes], guesses)))
      (classify self uninit rnd img 0%Q s).
Proof.
  intros HN HM Hc. unfold classify_batch, classify.
  destruct (size_neo self) as [N_neo M_neo] eqn:Hsize.
  change (Qltb 0 0) with false. simpl.
  rewrite classify_batch_loop_one by done.
  by destruct (classify_loop self uninit img None (iterations self) s None)
    as [[s' g]|].
Qed.
End ExecutorFacts.

(** ** Claim about the two executors *)

Section ExecutorClaims.
Import Movement Arr Assembler Executor.

(** C1 at the default of the constructor. With the position mode
    ["None"] the Input Vectors end in two entries of the [np.empty]
    buffer that nothing writes, and the update function reads them.
    The two executors allocate their own buffers: on the same image,
    state and anchors, the single-sample run over memory that holds
    zeros and the batched run of a batch of one over memory that holds
    ones end with different state arrays, class slices and guesses. *)
Theorem batch_of_one_follows_unwritten_memory :
  classify default_nca (fun _ _ _ => 0%Q) (0%nat, 0%nat) tiny_image 0%Q
    (reset default_nca [[(0, 0)]])
  = Ok ({| state := [[[0%Q]; [0%Q]; [0%Q]];
                     [[0%Q]; [9%Q]; [0%Q]];
                     [[0%Q]; [0%Q]; [0%Q]]];
           perceptions := [[(0, 0)]] |},
        ([[[9%Q]]], Some [[9%Q; 9%Q; 9%Q]]))
  /\ classify_batch default_nca (fun _ _ _ => 1%Q) [tiny_image]
       (batch_of_one (reset default_nca [[(0, 0)]]))
     = Ok ({| state_batched := [[[[0%Q]; [0%Q]; [0%Q]];
                                 [[0%Q]; [11%Q]; [0%Q]];
                                 [[0%Q]; [0%Q]; [0%Q]]]];
              perceptions_batched := [[[(0, 0)]]] |},
           ([[[[11%Q]]]], Some [[11%Q; 11%Q; 11%Q]])).
Proof. split; vm_compute; reflexivity. Qed.
End ExecutorClaims.

(** ** State accumulation *)

Section AccumulateFacts.
Import Movement Arr Assembler Executor.

Lemma chunk_length {B} n k (l : list B) : length (chunk n k l) = k.
Proof. revert l. induction k as [|k IH]; intros l; simpl; [done|]. by rewrite IH. Qed.

Lemma chunk_pieces {B} n k (l : list B) :
  (k * n <= length l)%nat -> Forall (fun p => length p = n) (chunk n k l).
Proof.
  revert l. induction k as [|k IH]; intros l H; simpl; constructor.
  - rewrite length_take. lia.
  - apply IH. rewrite length_drop. lia.
Qed.

Lemma regroup_shape g N M D :
  length (concat g) = (N * M * D)%nat ->
  rect N M (regroup g N M D) /\ channels D (regroup g N M D).
Proof.
  intros H. unfold regroup.
  assert (Hp : Forall (fun p => length p = (M * D)%nat)
                 (chunk (M * D) N (concat g)))
    by (apply chunk_pieces; lia).
  split; [split|].
  - by rewrite length_fmap, chunk_length.
  - apply Forall_fmap, Forall_forall. intros p _. simpl. apply chunk_length.
  - unfold channels. apply Forall_fmap.
    eapply Forall_impl; [exact Hp|]. intros p Lp. simpl in *.
    apply chunk_pieces. lia.
Qed.

Lemma reshape3_ok g N M D :
  length (concat g) = (N * M * D)%nat ->
  reshape3 g N M D = Ok (regroup g N M D).
Proof.
  intros H. unfold reshape3, regroup.
  by destruct (Nat.eqb_spec (length (concat g)) (N * M * D)).
Qed.

Lemma take_channels {B} C D (a : list (list (list B))) :
  (C <= D)%nat -> channels D a -> channels C (map (map (take C)) a).
Proof.
  intros HC H. unfold channels in *. apply Forall_fmap.
  eapply Forall_impl; [exact H|]. intros row Hrow. simpl.
  apply Forall_fmap. eapply Forall_impl; [exact Hrow|].
  intros c Lc. simpl in *. rewrite length_take. lia.
Qed.

Lemma fmap_rect {B C} (f : B -> C) n m (a : grid B) :
  rect n m a -> rect n m (map (map f) a).
Proof.
  intros [Hl Hr]. split; [by rewrite length_fmap|].
  apply Forall_fmap. eapply Forall_impl; [exact Hr|].
  intros row L. simpl in *. by rewrite length_fmap.
Qed.

Lemma Forall2_of_lookup {B C} (P : B -> C -> Prop) (l : list B) (k : list C) :
  length l = length k ->
  (forall i a b, l !! i = Some a -> k !! i = Some b -> P a b) ->
  Forall2 P l k.
Proof. intros H1 H2. by apply Forall2_same_length_lookup. Qed.

Lemma add3_ok N M C (a b : list (list (list Q))) :
  rect N M a -> rect N M b -> channels C a -> channels C b ->
  add3 a b = Ok (add3_total a b).
Proof.
  intros [La Ra] [Lb Rb] Ca Cb. unfold add3, add3_total.
  apply zip_exact_pure, Forall2_of_lookup; [lia|].
  intros i ra rb Ea Eb. apply zip_exact_pure, Forall2_of_lookup.
  { by rewrite (Forall_lookup_1 _ _ _ _ Ra Ea), (Forall_lookup_1 _ _ _ _ Rb Eb). }
  intros j ca cb Fa Fb. apply zip_exact_pure, Forall2_of_lookup; [|done].
  pose proof (Forall_lookup_1 _ _ _ _ (Forall_lookup_1 _ _ _ _ Ca Ea) Fa) as L1.
  pose proof (Forall_lookup_1 _ _ _ _ (Forall_lookup_1 _ _ _ _ Cb Eb) Fb) as L2.
  simpl in *. lia.
Qed.

Lemma add3_total_shape N M C (a b : list (list (list Q))) :
  rect N M a -> rect N M b -> channels C a -> channels C b ->
  rect N M (add3_total a b) /\ channels C (add3_total a b).
Proof.
  intros Ha Hb Ca Cb. unfold add3_total. split; [by apply zip_with_rect|].
  unfold channels in *. apply Forall_lookup. intros i row Hrow.
  apply lookup_zip_with_Some in Hrow as (r1 & r2 & -> & E1 & E2).
  apply Forall_lookup. intros j c Hc.
  apply lookup_zip_with_Some in Hc as (c1 & c2 & -> & F1 & F2).
  rewrite length_zip_with.
  pose proof (Forall_lookup_1 _ _ _ _ (Forall_lookup_1 _ _ _ _ Ca E1) F1) as L1.
  pose proof (Forall_lookup_1 _ _ _ _ (Forall_lookup_1 _ _ _ _ Cb E2) F2) as L2.
  simpl in *. lia.
Qed.

Lemma interior_shape {B} Hs Ws N M (st : grid B) :
  rect Hs Ws st -> (N + 1 <= Hs)%nat -> (M + 1 <= Ws)%nat ->
  rect N M (interior st N M).
Proof.
  intros [Hl Hr] HN HM. unfold interior. split.
  - rewrite length_fmap, length_take, length_drop. lia.
  - apply Forall_fmap, Forall_take, Forall_drop.
    eapply Forall_impl; [exact Hr|]. intros row L. simpl in *.
    rewrite length_take, length_drop. lia.
Qed.

Lemma interior_channels {B} C N M (st : list (list (list B))) :
  channels C st -> channels C (interior st N M).
Proof.
  intros H. unfold channels, interior in *.
  apply Forall_fmap, Forall_take, Forall_drop.
  eapply Forall_impl; [exact H|]. intros row Hrow. simpl.
  by apply Forall_take, Forall_drop.
Qed.


Lemma Forall_splice {B} (P : B -> Prop) (l : list B) i new :
  Forall P l -> Forall P new -> Forall P (splice l i new).
Proof.
  intros Hl Hn. unfold splice.
  apply Forall_app. split; [by apply Forall_take|].
  apply Forall_app. split; [done | by apply Forall_drop].
Qed.

Lemma Forall_zip_with {B C D} (P : D -> Prop) (f : B -> C -> D) l k :
  (forall i a b, l !! i = Some a -> k !! i = Some b -> P (f a b)) ->
  Forall P (zip_with f l k).
Proof.
  intros H. apply Forall_lookup. intros i d Hd.
  apply lookup_zip_with_Some in Hd as (a & b & -> & E1 & E2). eauto.
Qed.


Lemma assign_interior_shape {B} Hs Ws C N M (st sum : list (list (list B))) :
  rect Hs Ws st -> channels C st ->
  (N + 1 <= Hs)%nat -> (M + 1 <= Ws)%nat ->
  rect N M sum -> channels C sum ->
  rect Hs Ws (assign_interior st N M sum)
  /\ channels C (assign_interior st N M sum).
Proof.
  intros [Hl Hr] Hc HN HM [Ls Rs] Cs. split; [split|].
  - by rewrite assign_interior_length.
  - unfold assign_interior. apply Forall_splice; [done|].
    apply Forall_zip_with. intros i row srow Erow Es.
    apply lookup_take_Some in Erow as [Erow _]. rewrite lookup_drop in Erow.
    pose proof (Forall_lookup_1 _ _ _ _ Hr Erow) as Lrow.
    pose proof (Forall_lookup_1 _ _ _ _ Rs Es) as Lsrow. simpl in *.
    rewrite splice_length; lia.
  - unfold channels, assign_interior in *. apply Forall_splice; [done|].
    apply Forall_zip_with. intros i row srow Erow Es.
    apply lookup_take_Some in Erow as [Erow _]. rewrite lookup_drop in Erow.
    apply Forall_splice.
    + exact (Forall_lookup_1 _ _ _ _ Hc Erow).
    + exact (Forall_lookup_1 _ _ _ _ Cs Es).
Qed.


Lemma np_zeros3_shape Hs Ws C :
  rect Hs Ws (np_zeros3 Hs Ws C) /\ channels C (np_zeros3 Hs Ws C).
Proof.
  unfold np_zeros3, channels. split; [split|].
  - apply length_replicate.
  - apply Forall_replicate, length_replicate.
  - apply Forall_replicate, Forall_replicate, length_replicate.
Qed.


Lemma classify_loop_trace self uninit img cells n s g0 :
  classify_loop self uninit img cells n s g0
  = rmap (fun '(s', gs) =>
            (s', match last gs with Some g => Some g | None => g0 end))
      (classify_trace self uninit img cells n s).
Proof.
  revert uninit s g0.
  induction n as [|n IH]; intros uninit s g0; simpl; [done|].
  destruct (classify_iteration self (uninit 0%nat) img cells s) as [[s1 g]|];
    simpl; [|done].
  rewrite IH.
  destruct (classify_trace self (later uninit) img cells n s1) as [[s' gs]|];
    simpl; [|done].
  rewrite last_cons. by destruct (last gs).
Qed.

End AccumulateFacts.

(** ** Claim about accumulation *)

Section AccumulateClaims.
Import Movement Arr Assembler Executor.


End AccumulateClaims.


(** ** Further properties of the movement controller *)

Section MovementExtras.
Import Movement.

(** The discretisation is odd: negating a value negates its step, so
    the band that goes to zero is symmetric about zero. *)
Theorem custom_round_odd (v : Q) : custom_round (- v) = - custom_round v.
Proof.
  destruct (Qlt_le_dec v neg_threshold) as [Hn|Hn].
  - rewrite (custom_round_neg v Hn). apply custom_round_pos.
    apply Qopp_lt_compat in Hn. exact Hn.
  - destruct (Qlt_le_dec pos_threshold v) as [Hp|Hp].
    + rewrite (custom_round_pos v Hp). apply custom_round_neg.
      apply Qopp_lt_compat in Hp. exact Hp.
    + rewrite (custom_round_zero v) by (by apply Qle_not_lt).
      apply custom_round_zero; apply Qle_not_lt.
      * apply Qopp_le_compat in Hp. exact Hp.
      * apply Qopp_le_compat in Hn. exact Hn.
Qed.

Lemma clip_idempotent v b : clip (clip v b) b = clip v b.
Proof. unfold clip. lia. Qed.

Lemma clip_id v b : 0 <= v <= b -> clip v b = v.
Proof. unfold clip. lia. Qed.

Lemma grid_fmap_id {B} (f : B -> B) (P : B -> Prop) (g : grid B) :
  (forall c, P c -> f c = c) -> Forall (Forall P) g -> map (map f) g = g.
Proof.
  intros Hf H. induction H as [|row g Hrow _ IH]; simpl; [done|].
  f_equal; [|done].
  induction Hrow as [|c row Hc _ IHrow]; simpl; [done|].
  f_equal; [by apply Hf | done].
Qed.

(** Clipping twice with the same bounds is clipping once. *)
Theorem clipping_idempotent (p : grid (Z * Z)) (N M : Z) :
  clipping (clipping p N M) N M = clipping p N M.
Proof.
  unfold clipping. rewrite <- list_fmap_compose.
  apply list_fmap_ext. intros _ row _. simpl.
  rewrite <- list_fmap_compose. apply list_fmap_ext. intros _ c _. simpl.
  unfold clip_cell. simpl. by rewrite !clip_idempotent.
Qed.

Lemma clipping_fixes_active (size : Z) (p : grid (Z * Z)) :
  in_active size p -> clipping p (size - 1) (size - 1) = p.
Proof.
  intros H. unfold clipping.
  apply grid_fmap_id with
    (P := fun a => 0 <= fst a <= size - 1 /\ 0 <= snd a <= size - 1);
    [|exact H].
  intros [r c] [Hr Hc]. unfold clip_cell. simpl in *.
  by rewrite !clip_id.
Qed.

(** Anchors that lie in the active area are left as they are by the
    clipping of the movement step. *)
Theorem clipping_keeps_active_anchors (size : Z) (p : grid (Z * Z)) :
  in_active size p -> clipping p (size - 1) (size - 1) = p.
Proof. exact (clipping_fixes_active size p). Qed.

Lemma clipping_keeps_active_anchors_witness :
  clipping [[(0, 25); (13, 7)]] 25 25 = [[(0, 25); (13, 7)]].
Proof.
  apply (clipping_keeps_active_anchors 26 [[(0, 25); (13, 7)]]).
  repeat constructor; simpl; lia.
Defined.

Lemma custom_round_dead v :
  (neg_threshold <= v <= pos_threshold)%Q -> custom_round v = 0.
Proof. intros [H1 H2]. apply custom_round_zero; by apply Qle_not_lt. Qed.

Lemma zip_add_zero (p : grid (Z * Z)) (a : grid (Q * Q)) :
  same_shape p a -> in_dead_zone a ->
  zip_with (zip_with add_pure) p (custom_round_slicing a) = p.
Proof.
  unfold same_shape, in_dead_zone, custom_round_slicing. intros Hs.
  induction Hs as [|r s p a Hrs _ IH]; intros Hd; simpl; [done|].
  apply Forall_cons in Hd as [Hrow Hd]. f_equal; [|by apply IH].
  clear IH Hd. revert s Hrs Hrow.
  induction r as [|c r IHr]; intros [|d s] Hrs Hrow; simpl in *; try done.
  apply Forall_cons in Hrow as [[Hd1 Hd2] Hrow].
  f_equal; [|apply IHr; [lia | done]].
  unfold add_pure, custom_round_cell. simpl.
  rewrite !custom_round_dead by done. destruct c; simpl. f_equal; lia.
Qed.

Lemma dead_zone_step (size : Z) (p : grid (Z * Z))
    (a : grid (Q * Q)) :
  in_active size p -> same_shape p a -> in_dead_zone a ->
  add_action_slicing p a size size = (p, Ok tt).
Proof.
  intros Hp Hs Hd.
  rewrite add_action_slicing_square by done.
  rewrite zip_add_zero by done.
  by rewrite clipping_fixes_active.
Qed.

(** An action whose entries all lie within 0.0007 of zero moves
    nothing: on a square area, anchors in the active area come out of
    the movement step unchanged. *)
Theorem dead_zone_action_moves_nothing (size : Z) (p : grid (Z * Z))
    (a : grid (Q * Q)) :
  in_active size p -> same_shape p a -> in_dead_zone a ->
  add_action_slicing p a size size = (p, Ok tt).
Proof. exact (dead_zone_step size p a). Qed.

Lemma dead_zone_action_moves_nothing_witness :
  add_action_slicing [[(3, 4)]] [[((7 # 10000), - (7 # 10000))]]%Q 26 26
  = ([[(3, 4)]], Ok tt).
Proof.
  apply dead_zone_action_moves_nothing.
  - repeat constructor; simpl; lia.
  - repeat constructor.
  - repeat constructor; simpl; discriminate.
Defined.

(** One movement step on a square area moves every coordinate of an
    anchor in the active area by at most one. *)
Theorem movement_step_is_at_most_one (size : Z) (p : grid (Z * Z))
    (a : grid (Q * Q)) (i j : nat) (c : Z * Z) :
  in_active size p -> same_shape p a -> cell p i j = Some c ->
  exists c',
    cell (fst (add_action_slicing p a size size)) i j = Some c'
    /\ Z.abs (fst c' - fst c) <= 1 /\ Z.abs (snd c' - snd c) <= 1.
Proof.
  intros Hp Hs Hc.
  rewrite add_action_slicing_square by done. simpl.
  apply cell_Some in Hc as (row & Hrow & Hc).
  pose proof (Forall_lookup_1 _ _ _ _ (Forall_lookup_1 _ _ _ _ Hp Hrow) Hc)
    as [Hr Hcc]. simpl in Hr, Hcc.
  destruct (Forall2_lookup_l _ _ _ _ _ Hs Hrow) as (arow & Harow & Hlen).
  destruct (lookup_lt_is_Some_2 arow j) as [d Hd].
  { rewrite <- Hlen. by eapply lookup_lt_Some. }
  assert (Hcell : cell p i j = Some c) by (apply cell_Some; eauto).
  assert (Hacell : cell a i j = Some d) by (apply cell_Some; eauto).
  pose proof (cell_zip_add _ _ _ _ _ _ Hcell (cell_round _ _ _ _ Hacell)) as Hsum.
  unfold clipping. rewrite cell_fmap, Hsum. simpl.
  eexists. split; [done|].
  unfold clip_cell, add_pure, custom_round_cell, clip. simpl.
  destruct (custom_round_range (fst d)) as [-> | [-> | ->]];
    destruct (custom_round_range (snd d)) as [-> | [-> | ->]]; lia.
Qed.

Lemma movement_step_is_at_most_one_witness :
  exists c',
    cell (fst (add_action_slicing [[(0, 25)]] [[(-1, 1)]]%Q 26 26)) 0 0
    = Some c'
    /\ Z.abs (fst c' - 0) <= 1 /\ Z.abs (snd c' - 25) <= 1.
Proof.
  apply (movement_step_is_at_most_one 26 [[(0, 25)]] [[(-1, 1)]]%Q
           0%nat 0%nat (0, 25)).
  - repeat constructor; simpl; lia.
  - repeat constructor.
  - reflexivity.
Defined.

(** The batched movement step is the single step on every batch
    element: an element's anchors after the step depend on that
    element's anchors and action only. *)
Theorem batched_movement_is_elementwise (ps : list (grid (Z * Z)))
    (acts : list (grid (Q * Q))) (N M : Z) :
  Forall2 same_shape ps acts ->
  add_action_slicing_batched ps acts N M
  = (zip_with (fun p a => fst (add_action_slicing p a N M)) ps acts,
     if N =? M then Ok tt else Raise AssertionError).
Proof.
  intros H. unfold add_action_slicing_batched.
  rewrite iadd_batched_same_shape.
  2:{ unfold custom_round_slicing_batched. apply Forall2_fmap_r.
      eapply Forall2_impl; [exact H|]. intros p a. apply same_shape_round. }
  assert (E : forall f : grid (Z * Z) -> grid (Z * Z),
            f <$> zip_with (zip_with (zip_with add_pure)) ps
                    (custom_round_slicing_batched acts)
            = zip_with (fun p a =>
                f (zip_with (zip_with add_pure) p (custom_round_slicing a)))
                ps acts).
  { intros f. unfold custom_round_slicing_batched. clear H. revert acts.
    induction ps as [|p ps IH]; intros [|a acts]; simpl; try done.
    by rewrite IH. }
  destruct (Z.eqb_spec N M) as [->|HN].
  - unfold clipping_batched. rewrite E. f_equal.
    clear E. induction H as [|p a ps acts Hpa _ IH]; [done|].
    cbn [zip_with]. f_equal; [|exact IH].
    by rewrite add_action_slicing_square.
  - f_equal. clear E. unfold custom_round_slicing_batched.
    induction H as [|p a ps acts Hpa _ IH]; [done|].
    cbn [zip_with fmap list_fmap]. f_equal; [|exact IH].
    by rewrite add_action_slicing_unequal.
Qed.

Lemma batched_movement_is_elementwise_witness :
  add_action_slicing_batched [[[(3, 4)]]; [[(0, 0)]]]
    [[[(1, -1)]]; [[(-1, 0)]]]%Q 26 26
  = ([[[(4, 3)]]; [[(0, 0)]]], Ok tt).
Proof.
  rewrite batched_movement_is_elementwise by (repeat constructor).
  reflexivity.
Defined.
End MovementExtras.

(** ** Further properties of the executors *)

Section ExecutorExtras.
Import Movement Arr Assembler Executor.

Lemma last2_ok (c : list Q) :
  (2 <= length c)%nat -> exists a b, last2 c = Ok (a, b).
Proof.
  intros H. unfold last2, py_slice_from, norm_bound.
  destruct (Z.ltb_spec (-2) 0); [|lia].
  remember (drop (Z.to_nat (Z.max (-2 + Z.of_nat (length c)) 0)) c) as t eqn:Et.
  assert (Lt : length t = 2%nat) by (subst t; rewrite length_drop; lia).
  destruct t as [|a [|b [|? ?]]]; simpl in Lt; try lia. eauto.
Qed.

Lemma action_slice_ok D (outputs : list (list (list Q))) :
  channels D outputs -> (2 <= D)%nat ->
  exists actions, action_slice outputs = Ok actions
                  /\ same_shape outputs actions.
Proof.
  intros Hc HD. unfold action_slice.
  destruct (mapM_total (mapM last2) outputs) as [actions Ha].
  { intros row Hrow. apply mapM_total. intros c Hc'.
    destruct (last2_ok c) as (a & b & E); [|eauto].
    unfold channels in Hc. rewrite Forall_forall in Hc.
    specialize (Hc row Hrow). rewrite Forall_forall in Hc.
    rewrite (Hc c Hc'). lia. }
  exists actions. split; [done|]. apply mapM_inv in Ha.
  unfold same_shape. eapply Forall2_impl; [exact Ha|].
  intros row arow Hrow. simpl in Hrow. by apply mapM_inv, Forall2_length in Hrow.
Qed.

Lemma same_shape_rect {B C} n m (p : grid B) (q : grid C) :
  same_shape p q -> rect n m p -> rect n m q.
Proof.
  intros Hs [Hl Hr]. split.
  - by rewrite <- (Forall2_length _ _ _ Hs).
  - apply Forall_lookup. intros i row Hrow.
    destruct (Forall2_lookup_r _ _ _ _ _ Hs Hrow) as (r & Er & L).
    simpl in L. rewrite <- L. exact (Forall_lookup_1 _ _ _ _ Hr Er).
Qed.

Lemma rect_same_shape {B C} n m (p : grid B) (q : grid C) :
  rect n m p -> rect n m q -> same_shape p q.
Proof.
  intros [Lp Rp] [Lq Rq]. apply Forall2_same_length_lookup. split; [lia|].
  intros i r s Er Es.
  by rewrite (Forall_lookup_1 _ _ _ _ Rp Er), (Forall_lookup_1 _ _ _ _ Rq Es).
Qed.

Lemma valid_anchors_in_active (H : nat) (p : grid (Z * Z)) :
  valid_anchors H H p <-> in_active (Z.of_nat H - 2) p.
Proof.
  unfold valid_anchors, in_active. split; intros Hp;
    (eapply Forall_impl; [exact Hp|]; intros row Hrow; simpl;
     eapply Forall_impl; [exact Hrow|]; intros [r c]; simpl; lia).
Qed.

Lemma lookup_splice_outside {B} (l : list B) i new k :
  (length new <= length l - i)%nat ->
  (k < i \/ i + length new <= k)%nat ->
  splice l i new !! k = l !! k.
Proof.
  intros Hlen Hk. unfold splice.
  destruct (decide (k < i)%nat) as [Hlt|Hge].
  - destruct (decide (k < length l)%nat).
    + rewrite lookup_app_l by (rewrite length_take; lia).
      by apply lookup_take_lt.
    + rewrite (lookup_ge_None_2 l) by lia. apply lookup_ge_None_2.
      rewrite !length_app, length_take, length_drop. lia.
  - destruct (decide (i <= length l)%nat) as [Hi|Hi].
    + rewrite lookup_app_r by (rewrite length_take; lia).
      rewrite length_take, Nat.min_l by lia.
      rewrite lookup_app_r by lia. rewrite lookup_drop. f_equal. lia.
    + rewrite (lookup_ge_None_2 l) by lia. apply lookup_ge_None_2.
      rewrite !length_app, length_take, length_drop. lia.
Qed.

Lemma lookup_splice_inside {B} (l : list B) i new k :
  (i <= length l)%nat -> (i <= k < i + length new)%nat ->
  splice l i new !! k = new !! (k - i)%nat.
Proof.
  intros Hi Hk. unfold splice.
  rewrite lookup_app_r by (rewrite length_take; lia).
  rewrite length_take, Nat.min_l by lia.
  by rewrite lookup_app_l by lia.
Qed.

Lemma cell_assign_interior_outside {B} Hs Ws N M (st sum : grid B) i j :
  rect Hs Ws st -> rect N M sum ->
  (N + 1 <= Hs)%nat -> (M + 1 <= Ws)%nat ->
  (i = 0 \/ N < i \/ j = 0 \/ M < j)%nat ->
  cell (assign_interior st N M sum) i j = cell st i j.
Proof.
  intros [Hl Hr] [Ls Rs] HN HM Hout. unfold cell, assign_interior.
  set (new := zip_with (fun row nrow => splice row 1 nrow) (take N (drop 1 st)) sum).
  assert (Lnew : length new = N).
  { unfold new. rewrite length_zip_with, length_take, length_drop. lia. }
  destruct (decide (i = 0 \/ N < i)%nat) as [Hi|Hi].
  { rewrite lookup_splice_outside by lia. done. }
  rewrite lookup_splice_inside by lia.
  unfold new. rewrite lookup_zip_with, lookup_take_lt, lookup_drop by lia.
  replace (1 + (i - 1))%nat with i by lia.
  destruct (st !! i) as [row|] eqn:Erow; simpl; [|done].
  destruct (sum !! (i - 1)%nat) as [srow|] eqn:Es; simpl.
  - pose proof (Forall_lookup_1 _ _ _ _ Hr Erow) as Lrow.
    pose proof (Forall_lookup_1 _ _ _ _ Rs Es) as Lsrow. simpl in *.
    apply lookup_splice_outside; lia.
  - apply lookup_ge_None_1 in Es. lia.
Qed.

Lemma splice_id {B} (l : list B) i n :
  splice l i (take n (drop i l)) = l.
Proof.
  apply list_eq. intros k.
  assert (Lnew : length (take n (drop i l)) = Nat.min n (length l - i))
    by (by rewrite length_take, length_drop).
  destruct (decide (k < i \/ i + length (take n (drop i l)) <= k)%nat)
    as [Hout|Hin].
  - apply lookup_splice_outside; lia.
  - rewrite lookup_splice_inside by lia.
    rewrite lookup_take_lt by lia. rewrite lookup_drop. f_equal. lia.
Qed.

Lemma assign_interior_id {B} (st : grid B) N M :
  assign_interior st N M (interior st N M) = st.
Proof.
  unfold assign_interior, interior.
  transitivity (splice st 1 (take N (drop 1 st))); [|apply splice_id].
  f_equal. generalize (take N (drop 1 st)) as rows.
  induction rows as [|row rows IH]; [done|].
  cbn [fmap list_fmap zip_with]. f_equal; [apply splice_id | exact IH].
Qed.

Lemma Qplus_0_r_eq (x : Q) : (x + 0)%Q = x.
Proof.
  destruct x as [n d]. unfold Qplus. simpl.
  by rewrite Z.mul_1_r, Z.add_0_r, Pos.mul_1_r.
Qed.

Lemma add3_total_zero N M C (a : list (list (list Q))) :
  rect N M a -> channels C a ->
  add3_total a (replicate N (replicate M (replicate C 0%Q))) = a.
Proof.
  intros [La Ra] Ca. unfold add3_total. apply list_eq. intros i.
  rewrite lookup_zip_with.
  destruct (a !! i) as [row|] eqn:Erow; simpl; [|done].
  rewrite lookup_replicate_2 by (rewrite <- La; by eapply lookup_lt_Some).
  simpl. f_equal. apply list_eq. intros j. rewrite lookup_zip_with.
  destruct (row !! j) as [c|] eqn:Ec; simpl; [|done].
  pose proof (Forall_lookup_1 _ _ _ _ Ra Erow) as Lrow. simpl in Lrow.
  rewrite lookup_replicate_2 by (rewrite <- Lrow; by eapply lookup_lt_Some).
  simpl. f_equal. apply list_eq. intros k. rewrite lookup_zip_with.
  destruct (c !! k) as [v|] eqn:Ev; simpl; [|done].
  pose proof (Forall_lookup_1 _ _ _ _ (Forall_lookup_1 _ _ _ _ Ca Erow) Ec) as Lc.
  simpl in Lc.
  rewrite lookup_replicate_2 by (rewrite <- Lc; by eapply lookup_lt_Some).
  simpl. by rewrite Qplus_0_r_eq.
Qed.

Lemma classify_iteration_unfold self uninit img s Hi Wi Hs Ws :
  let N := fst (size_neo self) in
  let M := snd (size_neo self) in
  let C := (num_hidden self + num_classes self)%nat in
  let D := output_dim self in
  dmodel_shape self ->
  well_formed img (state s) (perceptions s) N M Hi Wi Hs Ws C ->
  exists input,
    assemble self uninit img s = Ok input
    /\ length input = (N * M)%nat
    /\ length (concat (dmodel self input)) = (N * M * D)%nat
    /\ classify_iteration self uninit img None s
       = (let* p :=
            (if moving self then
               let* actions := action_slice (regroup (dmodel self input) N M D) in
               lift_move (alter_perception_slicing (perceptions s) actions N M
                            (fst (size_active self)) (snd (size_active self)))
             else Ok (perceptions s)) in
          Ok ({| state :=
                   assign_interior (state s) N M
                     (add3_total (interior (state s) N M)
                        (map (map (take C)) (regroup (dmodel self input) N M D)));
                 perceptions := p |}, dmodel self input)).
Proof.
  intros N M C D Hd Hwf.
  pose proof Hwf as (Hri & Hci & Hrs & Hcs & HN & HM & Hrp & Hv).
  unfold classify_iteration.
  assert (Hasm : exists input, assemble self uninit img s = Ok input
                               /\ length input = (N * M)%nat).
  { unfold assemble, N, M in *. destruct (size_neo self) as [N_neo M_neo].
    cbn [fst snd] in *.
    set (w := (3 * 3 * input_dim self + position_addon self)%nat).
    destruct (collect_input_spec img (state s) (perceptions s) (position self)
                N_neo M_neo Hi Wi Hs Ws C (N_neo * M_neo) w
                (np_empty uninit (N_neo * M_neo) w))
      as (input & Hin & [Li Ri] & _); [done | | lia | |].
    - apply np_empty_rect.
    - unfold w, input_dim, img_channels, C. lia.
    - exists input. by split. }
  destruct Hasm as (input & Hin & Li). exists input.
  split; [done|]. split; [done|].
  assert (Lg : length (concat (dmodel self input)) = (N * M * D)%nat).
  { rewrite (concat_rect (N * M) D); [done|]. rewrite <- Li. apply Hd. }
  split; [done|].
  unfold N, M in *. destruct (size_neo self) as [N_neo M_neo].
  cbn [fst snd] in *. destruct (size_active self) as [N_active M_active].
  cbn [fst snd]. rewrite Hin. cbn [rbind].
  rewrite (reshape3_ok _ N_neo M_neo (output_dim self) Lg). cbn [rbind].
  destruct (regroup_shape _ N_neo M_neo D Lg) as [Hrg Hcg].
  replace (input_dim self - img_channels)%nat with C
    by (unfold input_dim, img_channels, C; lia).
  unfold accumulate. rewrite (add3_ok N_neo M_neo C).
  - by cbn [rbind].
  - apply (interior_shape Hs Ws); [done | lia | lia].
  - by apply fmap_rect.
  - by apply interior_channels.
  - apply (take_channels C D); [unfold D, output_dim; lia | done].
Qed.

Lemma classify_iteration_ok self uninit img s Hs Ws :
  let N := fst (size_neo self) in
  let M := snd (size_neo self) in
  let C := (num_hidden self + num_classes self)%nat in
  let H := fst (size_image self) in
  let W := snd (size_image self) in
  dmodel_shape self ->
  well_formed img (state s) (perceptions s) N M H W Hs Ws C ->
  (moving self = true -> H = W) ->
  exists s' g,
    classify_iteration self uninit img None s = Ok (s', g)
    /\ well_formed img (state s') (perceptions s') N M H W Hs Ws C
    /\ (forall i j, (i = 0 \/ N < i \/ j = 0 \/ M < j)%nat ->
          cell (state s') i j = cell (state s) i j)
    /\ (moving self = false -> perceptions s' = perceptions s).
Proof.
  intros N M C H W Hd Hwf Hsq.
  destruct (classify_iteration_unfold self uninit img s H W Hs Ws Hd Hwf)
    as (input & _ & _ & Lg & Hit).
  fold N M C in Lg, Hit.
  set (g := dmodel self input) in *.
  set (D := output_dim self) in *.
  destruct Hwf as (Hri & Hci & Hrs & Hcs & HN & HM & Hrp & Hv).
  destruct (regroup_shape g N M D Lg) as [Hrg Hcg].
  set (sum := add3_total (interior (state s) N M)
                (map (map (take C)) (regroup g N M D))) in *.
  assert (Hsum : rect N M sum /\ channels C sum).
  { apply add3_total_shape.
    - apply (interior_shape Hs Ws); [done | lia | lia].
    - by apply fmap_rect.
    - by apply interior_channels.
    - apply (take_channels C D); [unfold D, output_dim; lia | done]. }
  destruct Hsum as [Hrsum Hcsum].
  destruct (assign_interior_shape Hs Ws C N M (state s) sum)
    as [Hrs1 Hcs1]; [done | done | lia | lia | done | done |].
  assert (Hborder : forall i j, (i = 0 \/ N < i \/ j = 0 \/ M < j)%nat ->
            cell (assign_interior (state s) N M sum) i j = cell (state s) i j).
  { intros i j Hout.
    apply (cell_assign_interior_outside Hs Ws); try done; lia. }
  rewrite Hit. destruct (moving self) eqn:Hmov.
  - destruct (action_slice_ok D (regroup g N M D)) as (actions & -> & Hsh);
      [done | unfold D, output_dim, act_channels; lia |].
    cbn [rbind]. unfold alter_perception_slicing, size_active. cbn [fst snd].
    fold H W. pose proof (Hsq eq_refl) as E.
    replace (Z.of_nat W - 2) with (Z.of_nat H - 2) by (by rewrite E).
    assert (Hpa : same_shape (perceptions s) actions).
    { eapply same_shape_trans; [|exact Hsh]. by apply (rect_same_shape N M). }
    rewrite add_action_slicing_square by done. cbn [lift_move rbind].
    eexists _, _. split; [done|]. cbn [state perceptions].
    assert (Hin : in_active (Z.of_nat H - 2) (perceptions s)).
    { apply valid_anchors_in_active. pose proof Hv as Hv'.
      by rewrite <- E in Hv'. }
    set (q := zip_with (zip_with add_pure) (perceptions s)
                (custom_round_slicing actions)).
    assert (Hpq : same_shape (perceptions s) q)
      by (by apply zip_add_shape, same_shape_round).
    split; [|split; [done | done]].
    assert (Hr' : rect N M (clipping q (Z.of_nat H - 2 - 1) (Z.of_nat H - 2 - 1))).
    { apply (same_shape_rect N M (perceptions s)); [|done].
      eapply same_shape_trans; [exact Hpq | apply clipping_shape]. }
    assert (Hv' : valid_anchors H W
                    (clipping q (Z.of_nat H - 2 - 1) (Z.of_nat H - 2 - 1))).
    { rewrite <- E. apply valid_anchors_in_active.
      by apply in_active_clipping with (perceptions s). }
    unfold well_formed. by split_and!.
  - cbn [rbind]. eexists _, _. split; [done|]. cbn [state perceptions].
    split; [|split; [done | done]].
    unfold well_formed. by split_and!.
Qed.

Lemma classify_trace_ok self uninit img K s Hs Ws :
  let N := fst (size_neo self) in
  let M := snd (size_neo self) in
  let C := (num_hidden self + num_classes self)%nat in
  let H := fst (size_image self) in
  let W := snd (size_image self) in
  dmodel_shape self ->
  well_formed img (state s) (perceptions s) N M H W Hs Ws C ->
  (moving self = true -> H = W) ->
  exists s' gs,
    classify_trace self uninit img None K s = Ok (s', gs)
    /\ length gs = K
    /\ well_formed img (state s') (perceptions s') N M H W Hs Ws C
    /\ (forall i j, (i = 0 \/ N < i \/ j = 0 \/ M < j)%nat ->
          cell (state s') i j = cell (state s) i j)
    /\ (moving self = false -> perceptions s' = perceptions s).
Proof.
  intros N M C H W Hd Hwf Hsq. revert uninit s Hwf.
  induction K as [|K IH]; intros uninit s Hwf; simpl.
  { exists s, []. by split_and!. }
  destruct (classify_iteration_ok self (uninit 0%nat) img s Hs Ws Hd Hwf Hsq)
    as (s1 & g & -> & Hwf1 & Hb1 & Hp1).
  cbn [rbind].
  destruct (IH (later uninit) s1 Hwf1) as (s' & gs & -> & Lgs & Hwf' & Hb & Hp).
  cbn [rbind]. exists s', (g :: gs). split_and!; try done.
  - simpl. by rewrite Lgs.
  - intros i j Hout. rewrite Hb by done. by apply Hb1.
  - intros Hmov. rewrite Hp by done. by apply Hp1.
Qed.

Lemma demo_dmodel_shape : dmodel_shape demo_nca.
Proof.
  intros input. split; [apply length_fmap|].
  apply Forall_fmap, Forall_forall. intros row _. reflexivity.
Qed.

(** On well-formed arrays, with a square image when movement is on, a
    run of [classify] with nothing silenced raises nothing; it keeps the
    shape of the state array and ends with one anchor per cell, each
    with room for its window. *)
Theorem run_completes_with_valid_anchors (self : MovingNCA)
    (uninit : nat -> nat -> nat -> Q)
    (rnd : nat * nat) (img : image) (s : Store) (Hs Ws : nat) :
  dmodel_shape self ->
  well_formed img (state s) (perceptions s)
    (fst (size_neo self)) (snd (size_neo self))
    (fst (size_image self)) (snd (size_image self)) Hs Ws
    (num_hidden self + num_classes self) ->
  (moving self = true -> fst (size_image self) = snd (size_image self)) ->
  exists s' g,
    classify self uninit rnd img 0%Q s
    = Ok (s', (class_slice self (state s'), g))
    /\ well_formed img (state s') (perceptions s')
         (fst (size_neo self)) (snd (size_neo self))
         (fst (size_image self)) (snd (size_image self)) Hs Ws
         (num_hidden self + num_classes self)
    /\ (moving self = false -> perceptions s' = perceptions s).
Proof.
  intros Hd Hwf Hsq.
  destruct (classify_trace_ok self uninit img (iterations self) s Hs Ws
              Hd Hwf Hsq) as (s' & gs & Htrace & _ & Hwf' & _ & Hp).
  exists s', (last gs). split; [|by split].
  unfold classify. destruct (size_neo self) as [N_neo M_neo].
  change (Qltb 0 0) with false. cbn [rbind].
  rewrite classify_loop_trace, Htrace. simpl. by destruct (last gs).
Qed.

Lemma run_completes_with_valid_anchors_witness :
  exists s' g,
    classify demo_nca (fun _ _ _ => 0%Q) (0%nat, 0%nat) demo_image 0%Q
      (reset demo_nca demo_anchors)
    = Ok (s', (class_slice demo_nca (state s'), g))
    /\ valid_anchors 4 4 (perceptions s').
Proof.
  destruct (run_completes_with_valid_anchors demo_nca (fun _ _ _ => 0%Q)
              (0%nat, 0%nat)
              demo_image (reset demo_nca demo_anchors) 4 4)
    as (s' & g & Hrun & Hwf & _).
  - exact demo_dmodel_shape.
  - unfold well_formed. split_and!; repeat constructor; simpl; lia.
  - reflexivity.
  - exists s', g. split; [exact Hrun|]. apply Hwf.
Defined.

(** A run never writes the state array outside the block of the grid:
    row 0, column 0 and everything beyond row [N_neo] or column
    [M_neo] hold at the end what they held at the start. *)
Theorem run_leaves_border_untouched (self : MovingNCA)
    (uninit : nat -> nat -> nat -> Q)
    (rnd : nat * nat) (img : image) (s : Store) (Hs Ws : nat) :
  dmodel_shape self ->
  well_formed img (state s) (perceptions s)
    (fst (size_neo self)) (snd (size_neo self))
    (fst (size_image self)) (snd (size_image self)) Hs Ws
    (num_hidden self + num_classes self) ->
  (moving self = true -> fst (size_image self) = snd (size_image self)) ->
  exists s' r,
    classify self uninit rnd img 0%Q s = Ok (s', r)
    /\ forall i j,
         (i = 0 \/ fst (size_neo self) < i \/ j = 0 \/ snd (size_neo self) < j)%nat ->
         cell (state s') i j = cell (state s) i j.
Proof.
  intros Hd Hwf Hsq.
  destruct (classify_trace_ok self uninit img (iterations self) s Hs Ws
              Hd Hwf Hsq) as (s' & gs & Htrace & _ & _ & Hb & _).
  exists s', (class_slice self (state s'), last gs). split; [|done].
  unfold classify. destruct (size_neo self) as [N_neo M_neo].
  change (Qltb 0 0) with false. cbn [rbind].
  rewrite classify_loop_trace, Htrace. simpl. by destruct (last gs).
Qed.

Lemma run_leaves_border_untouched_witness :
  exists s' r,
    classify demo_nca (fun _ _ _ => 0%Q) (0%nat, 0%nat) demo_image 0%Q
      (reset demo_nca demo_anchors) = Ok (s', r)
    /\ cell (state s') 0 2 = Some [0%Q; 0%Q]
    /\ cell (state s') 3 1 = Some [0%Q; 0%Q].
Proof.
  destruct (run_leaves_border_untouched demo_nca (fun _ _ _ => 0%Q)
              (0%nat, 0%nat)
              demo_image (reset demo_nca demo_anchors) 4 4)
    as (s' & r & Hrun & Hb).
  - exact demo_dmodel_shape.
  - unfold well_formed. split_and!; repeat constructor; simpl; lia.
  - reflexivity.
  - exists s', r. split; [exact Hrun|]. split.
    + rewrite Hb by (simpl; lia). reflexivity.
    + rewrite Hb by (simpl; lia). reflexivity.
Defined.

(** With movement on and an image that is not square, a run of at
    least one iteration on well-formed arrays ends in the assertion
    error of the movement step, whatever the grid. *)
Theorem non_square_image_run_asserts (self : MovingNCA)
    (uninit : nat -> nat -> nat -> Q)
    (rnd : nat * nat) (img : image) (s : Store) (Hi Wi Hs Ws : nat) :
  dmodel_shape self ->
  well_formed img (state s) (perceptions s)
    (fst (size_neo self)) (snd (size_neo self)) Hi Wi Hs Ws
    (num_hidden self + num_classes self) ->
  moving self = true ->
  fst (size_image self) <> snd (size_image self) ->
  iterations self <> 0%nat ->
  classify self uninit rnd img 0%Q s = Raise AssertionError.
Proof.
  intros Hd Hwf Hmov Hne Hit.
  destruct (classify_iteration_unfold self (uninit 0%nat) img s Hi Wi Hs Ws
              Hd Hwf)
    as (input & _ & _ & Lg & Hstep).
  destruct Hwf as (_ & _ & _ & _ & _ & _ & Hrp & _).
  destruct (regroup_shape _ _ _ _ Lg) as [Hrg Hcg].
  destruct (action_slice_ok (output_dim self) _ Hcg) as (actions & Ha & Hsh);
    [unfold output_dim, act_channels; lia|].
  rewrite Hmov, Ha in Hstep. cbn [rbind] in Hstep.
  unfold alter_perception_slicing, size_active in Hstep. cbn [fst snd] in Hstep.
  rewrite add_action_slicing_unequal in Hstep.
  - cbn [lift_move rbind] in Hstep.
    unfold classify. destruct (size_neo self) as [N_neo M_neo].
    change (Qltb 0 0) with false. cbn [rbind].
    destruct (iterations self) as [|n]; [done|]. simpl.
    by rewrite Hstep.
  - lia.
  - eapply same_shape_trans; [|exact Hsh].
    by apply (rect_same_shape (fst (size_neo self)) (snd (size_neo self))).
Qed.

Lemma non_square_image_run_asserts_witness :
  classify wide_nca (fun _ _ _ => 0%Q) (0%nat, 0%nat) wide_image 0%Q
    (reset wide_nca demo_anchors) = Raise AssertionError.
Proof.
  apply (non_square_image_run_asserts wide_nca (fun _ _ _ => 0%Q)
           (0%nat, 0%nat) wide_image
           (reset wide_nca demo_anchors) 4 5 4 5).
  - exact demo_dmodel_shape.
  - unfold well_formed. split_and!; repeat constructor; simpl; lia.
  - reflexivity.
  - discriminate.
  - discriminate.
Defined.
End ExecutorExtras.

(** ** A zero update function, and the class slice *)

Section FixedPointExtras.
Import Movement Arr Assembler Executor.

Lemma fmap_const_replicate {B C} (x : C) (l : list B) :
  map (fun _ => x) l = replicate (length l) x.
Proof. induction l as [|b l IH]; [done|]. simpl. f_equal. exact IH. Qed.

Lemma concat_replicate_replicate {B} (k d : nat) (x : B) :
  concat (replicate k (replicate d x)) = replicate (k * d) x.
Proof.
  induction k as [|k IH]; simpl; [done|].
  by rewrite IH, replicate_add.
Qed.

Lemma chunk_replicate {B} (n k extra : nat) (x : B) :
  chunk n k (replicate (k * n + extra) x) = replicate k (replicate n x).
Proof.
  induction k as [|k IH]; simpl; [done|].
  rewrite take_replicate, drop_replicate. f_equal.
  - f_equal. lia.
  - replace (n + k * n + extra - n)%nat with (k * n + extra)%nat by lia.
    exact IH.
Qed.

Lemma regroup_zero (rows N M D : nat) :
  rows = (N * M)%nat ->
  regroup (replicate rows (replicate D 0%Q)) N M D
  = replicate N (replicate M (replicate D 0%Q)).
Proof.
  intros ->. unfold regroup. rewrite concat_replicate_replicate.
  replace (N * M * D)%nat with (N * (M * D) + 0)%nat by lia.
  rewrite chunk_replicate, fmap_replicate.
  replace (M * D)%nat with (M * D + 0)%nat at 1 by lia.
  by rewrite chunk_replicate.
Qed.

Lemma mapM_replicate {B C} (f : B -> result C) n x y :
  f x = Ok y -> mapM f (replicate n x) = Ok (replicate n y).
Proof.
  intros H. induction n as [|n IH]; simpl; [done|]. by rewrite H, IH.
Qed.

Lemma last2_zero D :
  (2 <= D)%nat -> last2 (replicate D 0%Q) = Ok (0%Q, 0%Q).
Proof.
  intros H. unfold last2, py_slice_from, norm_bound.
  destruct (Z.ltb_spec (-2) 0); [|lia].
  rewrite length_replicate, drop_replicate.
  replace (D - Z.to_nat (Z.max (-2 + Z.of_nat D) 0))%nat with 2%nat by lia.
  reflexivity.
Qed.

Lemma classify_iteration_zero self uninit img s Hs Ws :
  (forall input,
     dmodel self input = map (fun _ => replicate (output_dim self) 0%Q) input) ->
  well_formed img (state s) (perceptions s)
    (fst (size_neo self)) (snd (size_neo self))
    (fst (size_image self)) (snd (size_image self)) Hs Ws
    (num_hidden self + num_classes self) ->
  (moving self = true -> fst (size_image self) = snd (size_image self)) ->
  classify_iteration self uninit img None s
  = Ok (s, replicate (fst (size_neo self) * snd (size_neo self))
             (replicate (output_dim self) 0%Q)).
Proof.
  intros Hz Hwf Hsq.
  assert (Hd : dmodel_shape self).
  { intros input. rewrite Hz. split; [apply length_fmap|].
    apply Forall_fmap, Forall_forall. intros row _. apply length_replicate. }
  destruct (classify_iteration_unfold self uninit img s _ _ Hs Ws Hd Hwf)
    as (input & _ & Li & _ & ->).
  rewrite Hz, fmap_const_replicate, Li.
  set (N := fst (size_neo self)) in *. set (M := snd (size_neo self)) in *.
  set (C := (num_hidden self + num_classes self)%nat) in *.
  set (D := output_dim self) in *.
  assert (HCD : (C <= D)%nat) by (unfold C, D, output_dim; lia).
  assert (HD2 : (2 <= D)%nat) by (unfold D, output_dim, act_channels; lia).
  destruct Hwf as (Hri & Hci & Hrs & Hcs & HN & HM & Hrp & Hv).
  rewrite regroup_zero by done.
  rewrite !fmap_replicate, take_replicate, Nat.min_l by done.
  rewrite (add3_total_zero N M C).
  2:{ apply (interior_shape Hs Ws); [done | lia | lia]. }
  2:{ by apply interior_channels. }
  rewrite assign_interior_id.
  assert (Hp : (if moving self then
                  let* actions := action_slice
                                    (replicate N (replicate M (replicate D 0%Q))) in
                  lift_move (alter_perception_slicing (perceptions s) actions
                               N M (fst (size_active self)) (snd (size_active self)))
                else Ok (perceptions s)) = Ok (perceptions s)).
  { destruct (moving self) eqn:Hmov; [|done].
    unfold action_slice.
    rewrite (mapM_replicate _ N _ (replicate M (0%Q, 0%Q)))
      by (apply mapM_replicate; by apply last2_zero).
    cbn [rbind]. unfold alter_perception_slicing, size_active. cbn [fst snd].
    pose proof (Hsq eq_refl) as E. rewrite <- E.
    rewrite dead_zone_step; [done | | |].
    - apply valid_anchors_in_active. by rewrite <- E in Hv.
    - apply (rect_same_shape N M); [done|]. split; [apply length_replicate|].
      apply Forall_replicate, length_replicate.
    - unfold in_dead_zone. apply Forall_replicate, Forall_replicate.
      simpl. repeat split; discriminate. }
  rewrite Hp. cbn [rbind]. by destruct s.
Qed.

(** An update function that returns zeros changes nothing: the run
    ends with the state array and the anchors it started from, and its
    guesses, if there was any iteration, are all zero. *)
Theorem zero_update_function_changes_nothing (self : MovingNCA)
    (uninit : nat -> nat -> nat -> Q)
    (rnd : nat * nat) (img : image) (s : Store) (Hs Ws : nat) :
  (forall input,
     dmodel self input = map (fun _ => replicate (output_dim self) 0%Q) input) ->
  well_formed img (state s) (perceptions s)
    (fst (size_neo self)) (snd (size_neo self))
    (fst (size_image self)) (snd (size_image self)) Hs Ws
    (num_hidden self + num_classes self) ->
  (moving self = true -> fst (size_image self) = snd (size_image self)) ->
  classify self uninit rnd img 0%Q s
  = Ok (s, (class_slice self (state s),
            if (iterations self =? 0)%nat then None
            else Some (replicate (fst (size_neo self) * snd (size_neo self))
                         (replicate (output_dim self) 0%Q)))).
Proof.
  intros Hz Hwf Hsq.
  pose proof (fun u => classify_iteration_zero self u img s Hs Ws Hz Hwf Hsq)
    as Hit.
  set (g0 := replicate (fst (size_neo self) * snd (size_neo self))
               (replicate (output_dim self) 0%Q)) in *.
  assert (Hloop : forall n u g,
            classify_loop self u img None n s g
            = Ok (s, if (n =? 0)%nat then g else Some g0)).
  { induction n as [|n IH]; intros u g; simpl; [done|].
    rewrite Hit. cbn [rbind]. rewrite IH. by destruct n. }
  unfold classify. destruct (size_neo self) as [N_neo M_neo].
  change (Qltb 0 0) with false. cbn [rbind]. by rewrite Hloop.
Qed.

Lemma zero_update_function_changes_nothing_witness :
  classify (tiny_nca None) (fun _ _ _ => 0%Q) (0%nat, 0%nat) tiny_image 0%Q
    (reset (tiny_nca None) [[(0, 0)]])
  = Ok (reset (tiny_nca None) [[(0, 0)]],
        ([[[0%Q]]], Some [[0%Q; 0%Q; 0%Q]])).
Proof.
  rewrite (zero_update_function_changes_nothing (tiny_nca None)
             (fun _ _ _ => 0%Q) (0%nat, 0%nat) tiny_image (reset (tiny_nca None) [[(0, 0)]]) 3 3).
  - reflexivity.
  - reflexivity.
  - unfold well_formed. split_and!; repeat constructor; simpl; lia.
  - discriminate.
Defined.

(** The class slice holds, for every cell of the grid, the last
    [num_classes] channels of its state; with [num_classes = 0] the
    slice [-0:] is the whole cell, so every channel is returned rather
    than none. *)
Theorem class_slice_is_last_channels (self : MovingNCA) (st : state_array) :
  class_slice self st
  = map (map (fun c =>
               if (num_classes self =? 0)%nat then c
               else drop (length c - num_classes self) c))
      (interior st (fst (size_neo self)) (snd (size_neo self))).
Proof.
  unfold class_slice. apply list_fmap_ext. intros _ row _.
  apply list_fmap_ext. intros _ c _. unfold py_slice_from, norm_bound.
  destruct (Nat.eqb_spec (num_classes self) 0) as [E|E].
  - rewrite E. simpl. done.
  - destruct (Z.ltb_spec (- Z.of_nat (num_classes self)) 0); [|lia].
    f_equal. lia.
Qed.
End FixedPointExtras.

(** ** The positional modes of the assembler *)

Section PositionExtras.
Import Movement Arr Assembler Executor.

Lemma collect_input_rows (F : nat -> nat -> list Q -> list Q -> Prop)
    img state perceptions position N_neo M_neo R w input :
  (forall x y s row,
     (x < N_neo)%nat -> (y < M_neo)%nat ->
     s !! (x * M_neo + y)%nat = Some row -> length row = w ->
     exists row',
       collect_cell img state perceptions position N_neo M_neo
         (length state) (length (hd [] state)) x y s
       = Ok (<[(x * M_neo + y)%nat := row']> s)
       /\ length row' = w /\ F x y row row') ->
  rect R w input -> (N_neo * M_neo <= R)%nat ->
  exists input',
    collect_input input img state perceptions position N_neo M_neo = Ok input'
    /\ collect_inv_rows F M_neo R w input (N_neo * M_neo) input'.
Proof.
  intros Hcell [HRl HRr] HR. unfold collect_input, range.
  assert (Hstep : forall x y s,
            (x < N_neo)%nat -> (y < M_neo)%nat ->
            collect_inv_rows F M_neo R w input (x * M_neo + y) s ->
            exists s1,
              collect_cell img state perceptions position N_neo M_neo
                (length state) (length (hd [] state)) x y s = Ok s1
              /\ collect_inv_rows F M_neo R w input (x * M_neo + S y) s1).
  { intros x y s Hx Hy ([Hsl Hsr] & Hrest & Hdone).
    set (r := (x * M_neo + y)%nat) in *.
    assert (Hr : (r < R)%nat) by (unfold r; nia).
    destruct (lookup_lt_is_Some_2 input r) as [row Hrow]; [lia|].
    assert (Lrow : length row = w) by exact (Forall_lookup_1 _ _ _ _ HRr Hrow).
    assert (Hsrow : s !! r = Some row) by (by rewrite Hrest).
    destruct (Hcell x y s row Hx Hy Hsrow Lrow) as (row' & Hcc & L' & HF).
    fold r in Hcc. exists (<[r := row']> s). split; [done|].
    replace (x * M_neo + S y)%nat with (S r) by (unfold r; lia).
    split; [split|split].
    - by rewrite length_insert.
    - by apply Forall_insert.
    - intros r' Hr'. rewrite list_lookup_insert_ne by lia. apply Hrest. lia.
    - intros x' y' Hy' Hlt.
      destruct (decide (x' * M_neo + y' = r)%nat) as [E|E].
      + assert (x' = x /\ y' = y) as [-> ->]
          by (by apply (cell_index_unique M_neo)).
        fold r. exists row, row'. split; [done|]. split; [|done].
        apply list_lookup_insert_eq. lia.
      + destruct (Hdone x' y' Hy') as (row0 & row0' & A1 & A2 & A3); [lia|].
        exists row0, row0'. split; [done|]. split; [|done].
        by rewrite list_lookup_insert_ne. }
  destruct (foldM_seq_inv
    (fun x => foldM (fun y =>
       collect_cell img state perceptions position N_neo M_neo
         (length state) (length (hd [] state)) x y) (seq 0 M_neo))
    (fun x s => collect_inv_rows F M_neo R w input (x * M_neo) s)
    0 N_neo input) as (input' & Hfold & Hinv).
  - split; [done|]. split; [done|]. intros x y Hy Hlt. simpl in Hlt. lia.
  - intros x s0 Hx Hinv0.
    destruct (foldM_seq_inv
      (collect_cell img state perceptions position N_neo M_neo
         (length state) (length (hd [] state)) x)
      (fun y s => collect_inv_rows F M_neo R w input (x * M_neo + y) s)
      0 M_neo s0) as (s1 & Hfold1 & Hinv1).
    + by rewrite Nat.add_0_r.
    + intros y s2 Hy Hinv2. apply Hstep; [lia | lia | done].
    + exists s1. split; [done|].
      by replace (S x * M_neo)%nat with (x * M_neo + (0 + M_neo))%nat by lia.
  - exists input'. by split.
Qed.

Lemma write_two_eq r a b (input : list (list Q)) row :
  input !! r = Some row -> (2 <= length row)%nat ->
  (let* input1 := write_row r (set_from_end 2 a) input in
   write_row r (set_from_end 1 b) input1)
  = Ok (<[r := <[(length row - 1)%nat := b]>
                 (<[(length row - 2)%nat := a]> row)]> input).
Proof.
  intros Hr Hlen.
  rewrite (write_row_ok r _ input row _ Hr (set_from_end_ok 2 a row Hlen)).
  cbn [rbind].
  set (row1 := <[(length row - 2)%nat := a]> row).
  assert (Hl1 : length row1 = length row) by apply length_insert.
  assert (Hr1 : <[r := row1]> input !! r = Some row1).
  { apply list_lookup_insert_eq. by eapply lookup_lt_Some. }
  rewrite (write_row_ok r _ _ row1 _ Hr1 (set_from_end_ok 1 b row1 ltac:(lia))).
  by rewrite list_insert_insert_eq, Hl1.
Qed.

Lemma positional_row_exact v a b row :
  length row = (length v + 2)%nat -> positional_row v a b row = v ++ [a; b].
Proof.
  intros H. unfold positional_row.
  destruct (drop (length v) row) as [|u1 [|u2 [|? ?]]] eqn:E;
    apply (f_equal length) in E; rewrite length_drop in E; simpl in E; try lia.
  rewrite H.
  replace (length v + 2 - 2)%nat with (length v + 0)%nat by lia.
  replace (length v + 2 - 1)%nat with (length v + 1)%nat by lia.
  rewrite insert_app_r. simpl. by rewrite insert_app_r.
Qed.

Lemma collect_cell_positional img state perceptions position N_neo M_neo
    Hi Wi Hs Ws C (x y : nat) (x_p y_p : Z) (a b : Q) (input : list (list Q)) row :
  well_formed img state perceptions N_neo M_neo Hi Wi Hs Ws C ->
  cell perceptions x y = Some (x_p, y_p) ->
  input !! (x * M_neo + y)%nat = Some row ->
  (9 * (1 + C) <= length row)%nat ->
  (position_is position "current" = true
   /\ rescale_current x_p (length state) = Ok a
   /\ rescale_current y_p (length (hd [] state)) = Ok b)
  \/ (position_is position "current" = false
      /\ position_is position "initial" = true
      /\ rescale_initial x (length state) N_neo = Ok a
      /\ rescale_initial y (length (hd [] state)) M_neo = Ok b) ->
  exists v,
    patch img state x y x_p y_p = Ok v
    /\ collect_cell img state perceptions position N_neo M_neo
         (length state) (length (hd [] state)) x y input
       = Ok (<[(x * M_neo + y)%nat := positional_row v a b row]> input)
    /\ length (positional_row v a b row) = length row.
Proof.
  intros Hwf Hc Hrow Hw Hmode.
  destruct (patch_ok _ _ _ _ _ _ _ _ _ _ _ _ _ _ Hwf Hc) as (v & Hv & Lv).
  destruct (set_prefix_ok v row ltac:(lia)) as [Hp Lp].
  set (row1 := v ++ drop (length v) row) in *.
  set (r := (x * M_neo + y)%nat) in *.
  assert (Hr1 : <[r := row1]> input !! r = Some row1).
  { apply list_lookup_insert_eq. by eapply lookup_lt_Some. }
  exists v. split; [done|]. split.
  - unfold collect_cell. fold (cell perceptions x y). rewrite Hc. cbn [of_option rbind].
    rewrite Hv. cbn [rbind]. fold r.
    rewrite (write_row_ok r _ input row row1 Hrow Hp). cbn [rbind].
    unfold write_position, positional_row. fold row1.
    destruct Hmode as [(-> & -> & Hb) | (-> & -> & -> & Hb)].
    + cbn [rbind].
      pose proof (write_two_eq r a b _ row1 Hr1 ltac:(lia)) as E.
      destruct (write_row r (set_from_end 2 a) (<[r:=row1]> input)) as [i1|];
        cbn [rbind] in *; [|done].
      rewrite Hb. cbn [rbind]. rewrite E, list_insert_insert_eq, Lp. done.
    + cbn [rbind].
      pose proof (write_two_eq r a b _ row1 Hr1 ltac:(lia)) as E.
      destruct (write_row r (set_from_end 2 a) (<[r:=row1]> input)) as [i1|];
        cbn [rbind] in *; [|done].
      rewrite Hb. cbn [rbind]. rewrite E, list_insert_insert_eq, Lp. done.
  - unfold positional_row. fold row1. by rewrite !length_insert.
Qed.

Lemma rescale_current_value x_p N :
  (2 <= N)%nat ->
  rescale_current x_p N
  = Ok (inject_Z (x_p - Z.of_nat N / 2) / inject_Z (Z.of_nat N / 2))%Q.
Proof.
  intros H. unfold rescale_current.
  destruct (Z.eqb_spec (Z.of_nat N / 2) 0) as [E|E]; [|done].
  assert (1 <= Z.of_nat N / 2) by (apply Z.div_le_lower_bound; lia). lia.
Qed.

Lemma rescale_initial_value x N N_neo :
  (2 <= N)%nat ->
  rescale_initial x N N_neo
  = Ok ((inject_Z (Z.of_nat x) * inject_Z (Z.of_nat N)
         / inject_Z (Z.of_nat N_neo) - inject_Z (Z.of_nat N / 2))
        / inject_Z (Z.of_nat N / 2))%Q.
Proof.
  intros H. unfold rescale_initial.
  destruct (Z.eqb_spec (Z.of_nat N / 2) 0) as [E|E]; [|done].
  assert (1 <= Z.of_nat N / 2) by (apply Z.div_le_lower_bound; lia). lia.
Qed.

Lemma assemble_positional (self : MovingNCA) (uninit : nat -> nat -> Q)
    (img : image)
    (s : Store) (Hi Wi Hs Ws : nat) (sc : nat -> nat -> Z -> Z -> Q * Q) :
  position_addon self = 2%nat ->
  well_formed img (state s) (perceptions s)
    (fst (size_neo self)) (snd (size_neo self)) Hi Wi Hs Ws
    (num_hidden self + num_classes self) ->
  (forall x y x_p y_p,
     (position_is (position self) "current" = true
      /\ rescale_current x_p (length (state s)) = Ok (fst (sc x y x_p y_p))
      /\ rescale_current y_p (length (hd [] (state s)))
         = Ok (snd (sc x y x_p y_p)))
     \/ (position_is (position self) "current" = false
         /\ position_is (position self) "initial" = true
         /\ rescale_initial x (length (state s)) (fst (size_neo self))
            = Ok (fst (sc x y x_p y_p))
         /\ rescale_initial y (length (hd [] (state s))) (snd (size_neo self))
            = Ok (snd (sc x y x_p y_p)))) ->
  exists rows,
    assemble self uninit img s = Ok rows
    /\ length rows = (fst (size_neo self) * snd (size_neo self))%nat
    /\ forall x y,
         (x < fst (size_neo self))%nat -> (y < snd (size_neo self))%nat ->
         exists x_p y_p v,
           cell (perceptions s) x y = Some (x_p, y_p)
           /\ patch img (state s) x y x_p y_p = Ok v
           /\ rows !! (x * snd (size_neo self) + y)%nat
              = Some (v ++ [fst (sc x y x_p y_p); snd (sc x y x_p y_p)]).
Proof.
  intros Hadd Hwf Hsc. unfold assemble.
  destruct (size_neo self) as [N_neo M_neo]. cbn [fst snd] in *.
  set (C := (num_hidden self + num_classes self)%nat) in *.
  set (w := (3 * 3 * input_dim self + position_addon self)%nat).
  assert (Hw : w = (9 * (1 + C) + 2)%nat)
    by (unfold w, input_dim, img_channels, C; lia).
  pose proof Hwf as (_ & _ & _ & _ & _ & _ & Hrp & _).
  destruct (collect_input_rows
    (fun x y row row' =>
       exists x_p y_p v,
         cell (perceptions s) x y = Some (x_p, y_p)
         /\ patch img (state s) x y x_p y_p = Ok v
         /\ row' = positional_row v (fst (sc x y x_p y_p))
                     (snd (sc x y x_p y_p)) row)
    img (state s) (perceptions s) (position self) N_neo M_neo
    (N_neo * M_neo) w (np_empty uninit (N_neo * M_neo) w))
    as (rows & Hrows & [Hlen _] & _ & Hdone).
  - intros x y s0 row Hx Hy Hrow Lrow.
    destruct (rect_cell N_neo M_neo (perceptions s) x y Hrp Hx Hy)
      as [[x_p y_p] Hc].
    destruct (collect_cell_positional img (state s) (perceptions s)
                (position self) N_neo M_neo Hi Wi Hs Ws C x y x_p y_p
                (fst (sc x y x_p y_p)) (snd (sc x y x_p y_p)) s0 row)
      as (v & Hv & Hcc & L'); [done | done | done | lia | apply Hsc |].
    eexists. split; [exact Hcc|]. split; [lia|]. by exists x_p, y_p, v.
  - apply np_empty_rect.
  - lia.
  - exists rows. split; [done|]. split; [done|]. intros x y Hx Hy.
    destruct (Hdone x y Hy) as (row & row' & Hrow & Hrow' & x_p & y_p & v & Hc & Hv & ->);
      [nia|].
    exists x_p, y_p, v. split; [done|]. split; [done|].
    rewrite Hrow'. f_equal. apply positional_row_exact.
    destruct (patch_ok _ _ _ _ _ _ _ _ _ _ _ _ _ _ Hwf Hc) as (v' & Hv' & Lv).
    rewrite Hv in Hv'. injection Hv' as <-.
    apply np_empty_lookup in Hrow as ->. unfold range.
    rewrite length_fmap, length_seq. lia.
Qed.

(** In the ["current"] mode every Input Vector that [classify]
    assembles is the flattened patch of its cell followed by the row
    and the column of the cell's anchor, each shifted and divided by
    half the height, respectively the width, of the state array. *)
Theorem current_mode_appends_rescaled_anchor (self : MovingNCA)
    (uninit : nat -> nat -> Q)
    (img : image) (s : Store) (Hi Wi Hs Ws : nat) :
  position self = Some "current"%string ->
  well_formed img (state s) (perceptions s)
    (fst (size_neo self)) (snd (size_neo self)) Hi Wi Hs Ws
    (num_hidden self + num_classes self) ->
  exists rows,
    assemble self uninit img s = Ok rows
    /\ forall x y,
         (x < fst (size_neo self))%nat -> (y < snd (size_neo self))%nat ->
         exists x_p y_p v,
           cell (perceptions s) x y = Some (x_p, y_p)
           /\ patch img (state s) x y x_p y_p = Ok v
           /\ rows !! (x * snd (size_neo self) + y)%nat
              = Some (v ++ [(inject_Z (x_p - Z.of_nat Hs / 2)
                             / inject_Z (Z.of_nat Hs / 2))%Q;
                            (inject_Z (y_p - Z.of_nat Ws / 2)
                             / inject_Z (Z.of_nat Ws / 2))%Q]).
Proof.
  intros Hpos Hwf.
  pose proof Hwf as (_ & _ & Hrs & _ & HN & HM & _ & _).
  destruct (state_dims _ _ _ _ _ Hrs HN HM) as [HN2 HM2].
  assert (EN : length (state s) = Hs) by apply Hrs.
  assert (EM : length (hd [] (state s)) = Ws).
  { destruct Hrs as [Hl Hr]. destruct (state s) as [|row rest]; simpl in *; [lia|].
    by apply Forall_cons in Hr as [-> _]. }
  destruct (assemble_positional self uninit img s Hi Wi Hs Ws
           (fun _ _ x_p y_p =>
              ((inject_Z (x_p - Z.of_nat Hs / 2) / inject_Z (Z.of_nat Hs / 2))%Q,
               (inject_Z (y_p - Z.of_nat Ws / 2) / inject_Z (Z.of_nat Ws / 2))%Q)))
    as (rows & Hrows & _ & Hcells).
  - unfold position_addon. by rewrite Hpos.
  - done.
  - intros x y x_p y_p. left. rewrite Hpos. split; [done|]. cbn [fst snd].
    rewrite !rescale_current_value by lia. by rewrite EN, EM.
  - exists rows. by split.
Qed.

Lemma current_mode_appends_rescaled_anchor_witness :
  exists rows v,
    assemble demo_nca (fun _ _ => 0%Q) demo_image
      (reset demo_nca demo_anchors) = Ok rows
    /\ patch demo_image (state (reset demo_nca demo_anchors)) 1 1 1 1 = Ok v
    /\ rows !! 3%nat = Some (v ++ [(-1 # 2)%Q; (-1 # 2)%Q]).
Proof.
  destruct (current_mode_appends_rescaled_anchor demo_nca (fun _ _ => 0%Q)
              demo_image
              (reset demo_nca demo_anchors) 4 4 4 4) as (rows & Hrows & Hcells).
  - reflexivity.
  - unfold well_formed. split_and!; repeat constructor; simpl; lia.
  - destruct (Hcells 1%nat 1%nat) as (x_p & y_p & v & Hc & Hv & Hrow);
      [simpl; lia | simpl; lia |].
    injection Hc as <- <-.
    exists rows, v. split; [exact Hrows|]. split; [exact Hv | exact Hrow].
Defined.

(** In the ["initial"] mode the two appended scalars are the cell's
    own grid position, scaled from the grid to the state array and
    then shifted and divided by half its height, respectively width;
    the anchor does not enter them. *)
Theorem initial_mode_appends_rescaled_cell (self : MovingNCA)
    (uninit : nat -> nat -> Q)
    (img : image) (s : Store) (Hi Wi Hs Ws : nat) :
  position self = Some "initial"%string ->
  well_formed img (state s) (perceptions s)
    (fst (size_neo self)) (snd (size_neo self)) Hi Wi Hs Ws
    (num_hidden self + num_classes self) ->
  exists rows,
    assemble self uninit img s = Ok rows
    /\ forall x y,
         (x < fst (size_neo self))%nat -> (y < snd (size_neo self))%nat ->
         exists x_p y_p v,
           cell (perceptions s) x y = Some (x_p, y_p)
           /\ patch img (state s) x y x_p y_p = Ok v
           /\ rows !! (x * snd (size_neo self) + y)%nat
              = Some (v ++ [((inject_Z (Z.of_nat x) * inject_Z (Z.of_nat Hs)
                              / inject_Z (Z.of_nat (fst (size_neo self)))
                              - inject_Z (Z.of_nat Hs / 2))
                             / inject_Z (Z.of_nat Hs / 2))%Q;
                            ((inject_Z (Z.of_nat y) * inject_Z (Z.of_nat Ws)
                              / inject_Z (Z.of_nat (snd (size_neo self)))
                              - inject_Z (Z.of_nat Ws / 2))
                             / inject_Z (Z.of_nat Ws / 2))%Q]).
Proof.
  intros Hpos Hwf.
  pose proof Hwf as (_ & _ & Hrs & _ & HN & HM & _ & _).
  destruct (state_dims _ _ _ _ _ Hrs HN HM) as [HN2 HM2].
  assert (EN : length (state s) = Hs) by apply Hrs.
  assert (EM : length (hd [] (state s)) = Ws).
  { destruct Hrs as [Hl Hr]. destruct (state s) as [|row rest]; simpl in *; [lia|].
    by apply Forall_cons in Hr as [-> _]. }
  destruct (assemble_positional self uninit img s Hi Wi Hs Ws
           (fun x y _ _ =>
              (((inject_Z (Z.of_nat x) * inject_Z (Z.of_nat Hs)
                 / inject_Z (Z.of_nat (fst (size_neo self)))
                 - inject_Z (Z.of_nat Hs / 2)) / inject_Z (Z.of_nat Hs / 2))%Q,
               ((inject_Z (Z.of_nat y) * inject_Z (Z.of_nat Ws)
                 / inject_Z (Z.of_nat (snd (size_neo self)))
                 - inject_Z (Z.of_nat Ws / 2)) / inject_Z (Z.of_nat Ws / 2))%Q)))
    as (rows & Hrows & _ & Hcells).
  - unfold position_addon. by rewrite Hpos.
  - done.
  - intros x y x_p y_p. right. rewrite Hpos. split; [done|]. split; [done|].
    cbn [fst snd]. rewrite !rescale_initial_value by lia. by rewrite EN, EM.
  - exists rows. by split.
Qed.

Lemma initial_mode_appends_rescaled_cell_witness :
  exists rows v,
    assemble (tiny_nca (Some "initial"%string)) (fun _ _ => 0%Q) tiny_image
      (reset (tiny_nca (Some "initial"%string)) [[(0, 0)]]) = Ok rows
    /\ rows !! 0%nat = Some (v ++ [(-1)%Q; (-1)%Q]).
Proof.
  destruct (initial_mode_appends_rescaled_cell (tiny_nca (Some "initial"%string))
              (fun _ _ => 0%Q) tiny_image
              (reset (tiny_nca (Some "initial"%string)) [[(0, 0)]]) 3 3 3 3)
    as (rows & Hrows & Hcells).
  - reflexivity.
  - unfold well_formed. split_and!; repeat constructor; simpl; lia.
  - destruct (Hcells 0%nat 0%nat) as (x_p & y_p & v & Hc & Hv & Hrow);
      [simpl; lia | simpl; lia |].
    exists rows, v. split; [exact Hrows | exact Hrow].
Defined.

(** For an anchor with room for its window among [N] rows, the scalar
    of the ["current"] mode lies in [[-1, 1)]. *)
Theorem current_scalar_range (x_p : Z) (N : nat) :
  0 <= x_p -> x_p + 3 <= Z.of_nat N ->
  exists a, rescale_current x_p N = Ok a /\ (-1 <= a)%Q /\ (a < 1)%Q.
Proof.
  intros H0 H3. rewrite rescale_current_value by lia.
  set (h := Z.of_nat N / 2).
  assert (Hh : 1 <= h) by (apply Z.div_le_lower_bound; lia).
  assert (H2h : Z.of_nat N - 1 <= 2 * h).
  { unfold h. pose proof (Z.div_mod (Z.of_nat N) 2 ltac:(lia)).
    pose proof (Z.mod_pos_bound (Z.of_nat N) 2 ltac:(lia)). lia. }
  assert (Hpos : (0 < inject_Z h)%Q).
  { change 0%Q with (inject_Z 0). rewrite <- Zlt_Qlt. lia. }
  eexists. split; [done|]. split.
  - apply Qle_shift_div_l; [done|].
    change (-1)%Q with (inject_Z (-1)).
    rewrite <- inject_Z_mult, <- Zle_Qle. lia.
  - apply Qlt_shift_div_r; [done|].
    change 1%Q with (inject_Z 1).
    rewrite <- inject_Z_mult, <- Zlt_Qlt. lia.
Qed.

Lemma current_scalar_range_witness :
  exists a, rescale_current 25 28 = Ok a /\ (-1 <= a)%Q /\ (a < 1)%Q.
Proof. apply current_scalar_range; simpl; lia. Defined.

(** For a position mode other than ["current"] and ["initial"] the
    assembler does what it does in none mode on the same buffer and
    raises nothing: each row of the buffer receives the flattened image
    patch and state patch in its first entries and no other write.  In
    the buffer that [classify] allocates the Input Vector is that patch
    followed by [position_addon] entries, none for [None] and two for a
    string, which hold what the allocation held. *)
Theorem other_position_modes_write_the_patch_only (self : MovingNCA)
    (uninit : nat -> nat -> Q) (img : image) (s : Store)
    (Hi Wi Hs Ws : nat) :
  position self <> Some "current"%string ->
  position self <> Some "initial"%string ->
  well_formed img (state s) (perceptions s)
    (fst (size_neo self)) (snd (size_neo self)) Hi Wi Hs Ws
    (num_hidden self + num_classes self) ->
  (forall input,
     collect_input input img (state s) (perceptions s) (position self)
       (fst (size_neo self)) (snd (size_neo self))
     = collect_input input img (state s) (perceptions s) None
         (fst (size_neo self)) (snd (size_neo self)))
  /\ exists rows,
       assemble self uninit img s = Ok rows
       /\ length rows = (fst (size_neo self) * snd (size_neo self))%nat
       /\ forall x y,
            (x < fst (size_neo self))%nat -> (y < snd (size_neo self))%nat ->
            exists x_p y_p v,
              cell (perceptions s) x y = Some (x_p, y_p)
              /\ patch img (state s) x y x_p y_p = Ok v
              /\ rows !! (x * snd (size_neo self) + y)%nat
                 = Some (v ++ map (uninit (x * snd (size_neo self) + y)%nat)
                                (seq (3 * 3 * input_dim self)
                                   (position_addon self))).
Proof. exact (assemble_other_modes self uninit img s Hi Wi Hs Ws). Qed.

Lemma other_position_modes_write_the_patch_only_witness :
  exists rows v,
    assemble (tiny_nca (Some "none"%string))
      (fun r c => (Z.of_nat (r + c) # 1)%Q) tiny_image
      (reset (tiny_nca (Some "none"%string)) [[(0, 0)]]) = Ok rows
    /\ patch tiny_image
         (state (reset (tiny_nca (Some "none"%string)) [[(0, 0)]]))
         0 0 0 0 = Ok v
    /\ rows !! 0%nat = Some (v ++ [18%Q; 19%Q]).
Proof.
  destruct (other_position_modes_write_the_patch_only
              (tiny_nca (Some "none"%string))
              (fun r c => (Z.of_nat (r + c) # 1)%Q) tiny_image
              (reset (tiny_nca (Some "none"%string)) [[(0, 0)]]) 3 3 3 3)
    as (_ & rows & Hrows & _ & Hcells).
  - discriminate.
  - discriminate.
  - repeat split; repeat constructor; simpl; lia.
  - destruct (Hcells 0%nat 0%nat) as (x_p & y_p & v & Hc & Hv & Hrow);
      [simpl; lia | simpl; lia |].
    injection Hc as <- <-.
    exists rows, v. split; [exact Hrows|]. split; [exact Hv | exact Hrow].
Defined.
End PositionExtras.

(** ** The expanded index map, and the default grid *)

Section ExpandExtras.
Import Movement Arr Assembler Executor Gather.

(** [expand] turns every batch element of N x M anchors into a
    3N x 3M index map whose entry at (3x+i, 3y+j) is the anchor of cell
    (x, y) moved by (i, j), as stored in 32 bits. *)
Theorem expand_enumerates_window_offsets (anchors : list (grid (Z * Z)))
    (N M b : nat) (a : grid (Z * Z)) :
  Forall (rect N M) anchors -> anchors !! b = Some a ->
  length (expand anchors) = length anchors
  /\ exists e,
       expand anchors !! b = Some e
       /\ rect (N * 3) (M * 3) e
       /\ forall x y r c i j,
            cell a x y = Some (r, c) -> (i < 3)%nat -> (j < 3)%nat ->
            cell e (3 * x + i) (3 * y + j)
            = Some (wrap32 (r + Z.of_nat i), wrap32 (c + Z.of_nat j)).
Proof.
  intros Hr Ha. rewrite (expand_rect N M) by done.
  split; [apply length_fmap|].
  exists (expand1 N M a). rewrite list_lookup_fmap, Ha.
  split; [done|]. split; [apply expand1_rect|].
  intros x y r c i j Hc Hi Hj.
  pose proof (Forall_lookup_1 _ _ _ _ Hr Ha) as Hra.
  destruct (cell_lt _ _ _ _ _ _ Hra Hc) as [Hx Hy].
  rewrite (expand1_cell N M a (3 * x + i) (3 * y + j) r c); [| lia | lia |].
  - replace ((3 * x + i) mod 3)%nat with i
      by (apply Nat.mod_unique with x; lia).
    replace ((3 * y + j) mod 3)%nat with j
      by (apply Nat.mod_unique with y; lia).
    done.
  - replace ((3 * x + i) / 3)%nat with x
      by (apply Nat.div_unique with i; lia).
    replace ((3 * y + j) / 3)%nat with y
      by (apply Nat.div_unique with j; lia).
    done.
Qed.

Lemma expand_enumerates_window_offsets_witness :
  exists e,
    expand [example_anchors] !! 0%nat = Some e
    /\ rect 6 6 e
    /\ cell e 5 4 = Some (3, 2).
Proof.
  destruct (expand_enumerates_window_offsets [example_anchors] 2 2 0
              example_anchors) as (_ & e & He & Hrect & Hcells).
  - repeat constructor.
  - reflexivity.
  - exists e. split; [exact He|]. split; [exact Hrect|].
    apply (Hcells 1%nat 1%nat 1 1 2%nat 1%nat); [reflexivity | lia | lia].
Defined.

(** When both grid sizes are left out, [get_dimensions] takes the
    image size less two, and an automaton of that grid size starts
    with a state array of exactly [N_neo + 2] rows and [M_neo + 2]
    columns: the grid and one ring of border cells. *)
Theorem default_grid_fills_state_array (self : MovingNCA)
    (anchors : grid (Z * Z)) :
  get_dimensions (Z.of_nat (fst (size_image self)),
                  Z.of_nat (snd (size_image self))) None None
  = (Z.of_nat (fst (size_neo self)), Z.of_nat (snd (size_neo self))) ->
  (2 <= fst (size_image self))%nat -> (2 <= snd (size_image self))%nat ->
  rect (fst (size_neo self) + 2) (snd (size_neo self) + 2)
    (state (reset self anchors)).
Proof.
  intros Hdim HH HW. unfold get_dimensions in Hdim.
  injection Hdim as HN HM.
  replace (fst (size_neo self) + 2)%nat with (fst (size_image self)) by lia.
  replace (snd (size_neo self) + 2)%nat with (snd (size_image self)) by lia.
  unfold reset. cbn [state]. apply np_zeros3_shape.
Qed.

Lemma default_grid_fills_state_array_witness :
  rect 3 3 (state (reset (tiny_nca None) [[(0, 0)]])).
Proof.
  apply (default_grid_fills_state_array (tiny_nca None) [[(0, 0)]]).
  - reflexivity.
  - simpl; lia.
  - simpl; lia.
Defined.
End ExpandExtras.

(** ** Silencing *)

Section SilenceExtras.
Import Movement Arr Assembler Executor.

Lemma silenced_cells_spec N_neo M_neo x y radius a b :
  In (a, b) (silenced_cells N_neo M_neo x y radius) <->
  exists i j, (i < N_neo)%nat /\ (j < M_neo)%nat
              /\ a = (i + 1)%nat /\ b = (j + 1)%nat
              /\ within_radius i j x y radius = true.
Proof.
  unfold silenced_cells, range. rewrite in_flat_map. split.
  - intros (i & Hi & Hin). apply in_seq in Hi.
    apply in_flat_map in Hin as (j & Hj & Hin). apply in_seq in Hj.
    destruct (within_radius i j x y radius) eqn:E; [|destruct Hin].
    destruct Hin as [[= <- <-]|[]].
    exists i, j. split_and!; try lia; done.
  - intros (i & j & Hi & Hj & -> & -> & Hd).
    exists i. split; [apply in_seq; lia|].
    apply in_flat_map. exists j. split; [apply in_seq; lia|].
    rewrite Hd. by left.
Qed.

(** The centre passes the test of any positive radius: the [float64]
    square root of zero is zero. *)
Lemma within_radius_centre x y radius :
  (0 < radius)%Q -> within_radius x y x y radius = true.
Proof.
  intros H. unfold within_radius.
  replace ((Z.of_nat x - Z.of_nat x) ^ 2 + (Z.of_nat y - Z.of_nat y) ^ 2)
    with 0 by lia.
  change (Qltb 0 radius = true). by apply Qltb_lt.
Qed.

(** The test is the one of [float64] and not the one of the reals: a
    cell at distance [sqrt 2] is not within the radius
    [1.4142135623730951], the [float64] nearest to [sqrt 2], though the
    square of that radius exceeds 2. *)
Lemma within_radius_is_rounded :
  within_radius 1 1 0 0 (6369051672525773 # 4503599627370496) = false
  /\ (2 < (6369051672525773 # 4503599627370496)
          * (6369051672525773 # 4503599627370496))%Q.
Proof. split; [vm_compute; reflexivity | reflexivity]. Qed.

Lemma silence_spec C Hs Ws (cells : list (nat * nat)) (st : state_array) :
  rect Hs Ws st -> channels C st ->
  Forall (fun ab => (fst ab < Hs)%nat /\ (snd ab < Ws)%nat) cells ->
  exists st',
    silence cells st = Ok st'
    /\ rect Hs Ws st' /\ channels C st'
    /\ forall i j,
         cell st' i j
         = if bool_decide ((i, j) ∈ cells)
           then (fun _ => replicate C 0%Q) <$> cell st i j
           else cell st i j.
Proof.
  intros Hr Hc Hcells. revert st Hr Hc.
  induction Hcells as [|[a b] cells [Ha Hb] _ IH]; intros st Hr Hc.
  { exists st. split; [done|]. split; [done|]. split; [done|].
    intros i j. rewrite bool_decide_eq_false_2; [done | apply not_elem_of_nil]. }
  cbn [fst snd] in *. unfold silence. cbn [foldM].
  destruct Hr as [Hl Hrows].
  destruct (lookup_lt_is_Some_2 st a) as [row Hrow]; [lia|].
  pose proof (Forall_lookup_1 _ _ _ _ Hrows Hrow) as Lrow. simpl in Lrow.
  destruct (lookup_lt_is_Some_2 row b) as [c Hcb]; [lia|].
  pose proof (Forall_lookup_1 _ _ _ _ (Forall_lookup_1 _ _ _ _ Hc Hrow) Hcb) as Lc.
  simpl in Lc.
  rewrite Hrow. cbn [of_option rbind]. rewrite Hcb. cbn [of_option rbind].
  rewrite Lc.
  set (st1 := <[a := <[b := replicate C 0%Q]> row]> st).
  assert (Hr1 : rect Hs Ws st1).
  { split; [by unfold st1; rewrite length_insert|].
    apply Forall_insert; [done|]. simpl. by rewrite length_insert. }
  assert (Hc1 : channels C st1).
  { unfold channels, st1. apply Forall_insert; [done|].
    apply Forall_insert; [exact (Forall_lookup_1 _ _ _ _ Hc Hrow)|].
    simpl. apply length_replicate. }
  destruct (IH st1 Hr1 Hc1) as (st' & Hst' & Hr' & Hc' & Hcell).
  exists st'. split; [exact Hst'|]. split; [done|]. split; [done|].
  intros i j. rewrite Hcell.
  assert (Hcell1 : cell st1 i j
                   = if bool_decide ((i, j) = (a, b))
                     then (fun _ => replicate C 0%Q) <$> cell st i j
                     else cell st i j).
  { unfold cell, st1. destruct (decide (i = a)) as [->|Hia].
    - rewrite list_lookup_insert_eq by lia. rewrite Hrow. simpl.
      destruct (decide (j = b)) as [->|Hjb].
      + rewrite bool_decide_eq_true_2 by done.
        rewrite list_lookup_insert_eq by lia. by rewrite Hcb.
      + rewrite bool_decide_eq_false_2 by congruence.
        by rewrite list_lookup_insert_ne.
    - rewrite bool_decide_eq_false_2 by congruence.
      by rewrite list_lookup_insert_ne. }
  rewrite Hcell1.
  destruct (decide ((i, j) = (a, b))) as [E|E].
  - rewrite (bool_decide_eq_true_2 ((i, j) = (a, b))) by done.
    rewrite (bool_decide_eq_true_2 ((i, j) ∈ (a, b) :: cells))
      by (rewrite E; apply list_elem_of_here).
    destruct (bool_decide ((i, j) ∈ cells)); [|done].
    by destruct (cell st i j).
  - rewrite (bool_decide_eq_false_2 ((i, j) = (a, b))) by done.
    destruct (decide ((i, j) ∈ cells)) as [Hin|Hin].
    + rewrite !bool_decide_eq_true_2;
        [done | by apply list_elem_of_further | done].
    + rewrite !bool_decide_eq_false_2; [done | | done].
      intros [E'|Hin']%elem_of_cons; [congruence | done].
Qed.

Lemma classify_iteration_silenced self uninit img cs s Hs Ws :
  let N := fst (size_neo self) in
  let M := snd (size_neo self) in
  let C := (num_hidden self + num_classes self)%nat in
  let H := fst (size_image self) in
  let W := snd (size_image self) in
  dmodel_shape self ->
  well_formed img (state s) (perceptions s) N M H W Hs Ws C ->
  (moving self = true -> H = W) ->
  Forall (fun ab => (fst ab < Hs)%nat /\ (snd ab < Ws)%nat) cs ->
  exists s' g,
    classify_iteration self uninit img (Some cs) s = Ok (s', g)
    /\ well_formed img (state s') (perceptions s') N M H W Hs Ws C
    /\ forall i j, (i, j) ∈ cs -> cell (state s') i j = Some (replicate C 0%Q).
Proof.
  intros N M C H W Hd Hwf Hsq Hcs.
  pose proof Hwf as (Hri & Hci & Hrs & Hcs0 & HN & HM & Hrp & Hv).
  destruct (classify_iteration_unfold self uninit img s H W Hs Ws Hd Hwf)
    as (input & Hin & Li & Lg & _).
  fold N M C in Li, Lg.
  set (g := dmodel self input) in *. set (D := output_dim self) in *.
  destruct (regroup_shape g N M D Lg) as [Hrg Hcg].
  set (sum := add3_total (interior (state s) N M)
                (map (map (take C)) (regroup g N M D))).
  assert (Hrint : rect N M (interior (state s) N M))
    by (apply (interior_shape Hs Ws); [done | lia | lia]).
  assert (Hcint : channels C (interior (state s) N M))
    by (by apply interior_channels).
  assert (Hrout : rect N M (map (map (take C)) (regroup g N M D)))
    by (by apply fmap_rect).
  assert (Hcout : channels C (map (map (take C)) (regroup g N M D)))
    by (apply (take_channels C D); [unfold D, output_dim; lia | done]).
  destruct (add3_total_shape N M C _ _ Hrint Hrout Hcint Hcout)
    as [Hrsum Hcsum]. fold sum in Hrsum, Hcsum.
  destruct (assign_interior_shape Hs Ws C N M (state s) sum)
    as [Hrs1 Hcs1]; [done | done | lia | lia | done | done |].
  destruct (silence_spec C Hs Ws cs _ Hrs1 Hcs1 Hcs)
    as (st' & Hsil & Hrs' & Hcs' & Hcell).
  assert (Hzero : forall i j, (i, j) ∈ cs -> cell st' i j = Some (replicate C 0%Q)).
  { intros i j Hij. rewrite Hcell, bool_decide_eq_true_2 by done.
    pose proof (proj1 (Forall_forall _ _) Hcs (i, j) Hij) as [Hi Hj].
    cbn [fst snd] in *.
    destruct (rect_cell Hs Ws _ i j Hrs1 Hi Hj) as [c ->]. done. }
  assert (Hit : classify_iteration self uninit img (Some cs) s
                = (let* p :=
                     (if moving self then
                        let* actions := action_slice (regroup g N M D) in
                        lift_move (alter_perception_slicing (perceptions s)
                                     actions N M
                                     (fst (size_active self))
                                     (snd (size_active self)))
                      else Ok (perceptions s)) in
                   Ok ({| state := st'; perceptions := p |}, g))).
  { unfold classify_iteration. unfold N, M in *.
    destruct (size_neo self) as [N_neo M_neo]. cbn [fst snd] in *.
    destruct (size_active self) as [N_active M_active]. cbn [fst snd].
    rewrite Hin. cbn [rbind]. fold g.
    rewrite (reshape3_ok g N_neo M_neo (output_dim self) Lg). cbn [rbind].
    replace (input_dim self - img_channels)%nat with C
      by (unfold input_dim, img_channels, C; lia).
    unfold accumulate. rewrite (add3_ok N_neo M_neo C) by done.
    cbn [rbind]. fold D sum. rewrite Hsil. by cbn [rbind]. }
  rewrite Hit. destruct (moving self) eqn:Hmov.
  - destruct (action_slice_ok D (regroup g N M D)) as (actions & -> & Hsh);
      [done | unfold D, output_dim, act_channels; lia |].
    cbn [rbind]. unfold alter_perception_slicing, size_active. cbn [fst snd].
    fold H W. pose proof (Hsq eq_refl) as E.
    replace (Z.of_nat W - 2) with (Z.of_nat H - 2) by (by rewrite E).
    assert (Hpa : same_shape (perceptions s) actions).
    { eapply same_shape_trans; [|exact Hsh]. by apply (rect_same_shape N M). }
    rewrite add_action_slicing_square by done. cbn [lift_move rbind].
    eexists _, _. split; [done|]. cbn [state perceptions].
    assert (Hin' : in_active (Z.of_nat H - 2) (perceptions s)).
    { apply valid_anchors_in_active. pose proof Hv as Hv'.
      by rewrite <- E in Hv'. }
    set (q := zip_with (zip_with add_pure) (perceptions s)
                (custom_round_slicing actions)).
    assert (Hpq : same_shape (perceptions s) q)
      by (by apply zip_add_shape, same_shape_round).
    split; [|done].
    assert (Hr' : rect N M (clipping q (Z.of_nat H - 2 - 1) (Z.of_nat H - 2 - 1))).
    { apply (same_shape_rect N M (perceptions s)); [|done].
      eapply same_shape_trans; [exact Hpq | apply clipping_shape]. }
    assert (Hv' : valid_anchors H W
                    (clipping q (Z.of_nat H - 2 - 1) (Z.of_nat H - 2 - 1))).
    { rewrite <- E. apply valid_anchors_in_active.
      by apply in_active_clipping with (perceptions s). }
    unfold well_formed. by split_and!.
  - cbn [rbind]. eexists _, _. split; [done|]. cbn [state perceptions].
    split; [|done]. unfold well_formed. by split_and!.
Qed.

Lemma classify_loop_silenced self uninit img cs K s g0 Hs Ws :
  let N := fst (size_neo self) in
  let M := snd (size_neo self) in
  let C := (num_hidden self + num_classes self)%nat in
  let H := fst (size_image self) in
  let W := snd (size_image self) in
  dmodel_shape self ->
  well_formed img (state s) (perceptions s) N M H W Hs Ws C ->
  (moving self = true -> H = W) ->
  Forall (fun ab => (fst ab < Hs)%nat /\ (snd ab < Ws)%nat) cs ->
  exists s' g,
    classify_loop self uninit img (Some cs) K s g0 = Ok (s', g)
    /\ (K <> 0%nat ->
        forall i j, (i, j) ∈ cs -> cell (state s') i j = Some (replicate C 0%Q)).
Proof.
  intros N M C H W Hd Hwf Hsq Hcs. revert uninit s g0 Hwf.
  induction K as [|K IH]; intros uninit s g0 Hwf; simpl.
  { exists s, g0. by split. }
  destruct (classify_iteration_silenced self (uninit 0%nat) img cs s Hs Ws
              Hd Hwf Hsq Hcs) as (s1 & g & -> & Hwf1 & Hz1).
  cbn [rbind].
  destruct (IH (later uninit) s1 (Some g) Hwf1) as (s' & g' & Hl & Hz).
  exists s', g'. split; [done|]. intros _ i j Hij.
  destruct K as [|K]; [|by apply Hz].
  simpl in Hl. injection Hl as <- <-. by apply Hz1.
Qed.

(** With a positive silencing radius and at least one iteration, a run
    on well-formed arrays raises nothing and ends with the state of
    every cell within the radius of the drawn centre, the centre
    included, at zero.  A cell is within the radius when it passes the
    test of the code, [np.sqrt((i - x) ** 2 + (j - y) ** 2) < radius]
    in [float64]. *)
Theorem silenced_cells_end_at_zero (self : MovingNCA)
    (uninit : nat -> nat -> nat -> Q)
    (rnd : nat * nat) (img : image) (silenced : Q) (s : Store) (Hs Ws : nat) :
  dmodel_shape self ->
  well_formed img (state s) (perceptions s)
    (fst (size_neo self)) (snd (size_neo self))
    (fst (size_image self)) (snd (size_image self)) Hs Ws
    (num_hidden self + num_classes self) ->
  (moving self = true -> fst (size_image self) = snd (size_image self)) ->
  (0 < silenced)%Q ->
  (fst rnd < fst (size_neo self))%nat -> (snd rnd < snd (size_neo self))%nat ->
  iterations self <> 0%nat ->
  exists s' r,
    classify self uninit rnd img silenced s = Ok (s', r)
    /\ cell (state s') (fst rnd + 1) (snd rnd + 1)
       = Some (replicate (num_hidden self + num_classes self) 0%Q)
    /\ forall i j,
         (i < fst (size_neo self))%nat -> (j < snd (size_neo self))%nat ->
         within_radius i j (fst rnd) (snd rnd) silenced = true ->
         cell (state s') (i + 1) (j + 1)
         = Some (replicate (num_hidden self + num_classes self) 0%Q).
Proof.
  intros Hd Hwf Hsq Hpos Hx Hy Hit.
  pose proof Hwf as (_ & _ & _ & _ & HN & HM & _ & _).
  set (cs := silenced_cells (fst (size_neo self)) (snd (size_neo self))
               (fst rnd) (snd rnd) silenced).
  assert (Hcs : Forall (fun ab => (fst ab < Hs)%nat /\ (snd ab < Ws)%nat) cs).
  { apply Forall_forall. intros [a b] Hab. apply list_elem_of_In in Hab.
    apply silenced_cells_spec in Hab as (i & j & Hi & Hj & -> & -> & _).
    simpl. lia. }
  destruct (classify_loop_silenced self uninit img cs (iterations self) s None
              Hs Ws Hd Hwf Hsq Hcs) as (s' & g & Hloop & Hz).
  assert (Hall : forall i j,
            (i < fst (size_neo self))%nat -> (j < snd (size_neo self))%nat ->
            within_radius i j (fst rnd) (snd rnd) silenced = true ->
            cell (state s') (i + 1) (j + 1)
            = Some (replicate (num_hidden self + num_classes self) 0%Q)).
  { intros i j Hi Hj Hdist. apply Hz; [done|].
    apply list_elem_of_In, silenced_cells_spec. exists i, j. by repeat split. }
  exists s', (class_slice self (state s'), g). split; [|split; [|done]].
  - unfold classify. clear Hz Hall Hcs. subst cs.
    destruct (size_neo self) as [N_neo M_neo]. cbn [fst snd] in *.
    apply Qltb_lt in Hpos. rewrite Hpos.
    destruct (Nat.eqb_spec N_neo 0); [lia|].
    destruct (Nat.eqb_spec M_neo 0); [lia|].
    cbn [orb rbind]. rewrite Hloop. by cbn [rbind].
  - apply Hall; [done | done |]. by apply within_radius_centre.
Qed.

Lemma silenced_cells_end_at_zero_witness :
  exists s' r,
    classify demo_nca (fun _ _ _ => 0%Q) (1%nat, 0%nat) demo_image
      (1 # 2)%Q
      (reset demo_nca demo_anchors) = Ok (s', r)
    /\ cell (state s') 2 1 = Some [0%Q; 0%Q].
Proof.
  destruct (silenced_cells_end_at_zero demo_nca (fun _ _ _ => 0%Q)
              (1%nat, 0%nat) demo_image
              (1 # 2)%Q (reset demo_nca demo_anchors) 4 4)
    as (s' & r & Hrun & Hc & _).
  - exact demo_dmodel_shape.
  - unfold well_formed. split_and!; repeat constructor; simpl; lia.
  - reflexivity.
  - reflexivity.
  - simpl; lia.
  - simpl; lia.
  - discriminate.
  - exists s', r. split; [exact Hrun | exact Hc].
Defined.
End SilenceExtras.

(** ** Data preparation *)

Section WrittenRowsExtras.
Import Movement Arr Assembler Executor.

Lemma rows_eq_by_cells {B} (N M : nat) (r1 r2 : list B) :
  length r1 = (N * M)%nat -> length r2 = (N * M)%nat ->
  (forall x y, (x < N)%nat -> (y < M)%nat ->
     r1 !! (x * M + y)%nat = r2 !! (x * M + y)%nat) ->
  r1 = r2.
Proof.
  intros L1 L2 H. apply list_eq. intros i.
  destruct (decide (i < N * M)%nat) as [Hi|Hi].
  - assert (HM : (0 < M)%nat) by nia.
    pose proof (Nat.div_mod_eq i M) as E.
    pose proof (Nat.mod_upper_bound i M ltac:(lia)) as Hy.
    assert (Hx : (i / M < N)%nat) by (apply Nat.Div0.div_lt_upper_bound; lia).
    replace i with (i / M * M + i mod M)%nat by lia. by apply H.
  - by rewrite !lookup_ge_None_2 by lia.
Qed.

(** With the position mode [None], ["current"] or ["initial"] every
    entry of the buffer is written: the Input Vectors do not depend on
    what the allocation held. *)
Lemma assemble_written (self : MovingNCA) (img : image) (s : Store)
    (Hi Wi Hs Ws : nat) :
  position self = None \/ position self = Some "current"%string
  \/ position self = Some "initial"%string ->
  well_formed img (state s) (perceptions s)
    (fst (size_neo self)) (snd (size_neo self)) Hi Wi Hs Ws
    (num_hidden self + num_classes self) ->
  exists rows, forall uninit, assemble self uninit img s = Ok rows.
Proof.
  intros Hpos Hwf.
  pose proof Hwf as (_ & _ & Hrs & _ & HN & HM & _ & _).
  destruct (state_dims _ _ _ _ _ Hrs HN HM) as [HN2 HM2].
  assert (EN : length (state s) = Hs) by apply Hrs.
  assert (EM : length (hd [] (state s)) = Ws).
  { destruct Hrs as [Hl Hr]. destruct (state s) as [|row rest]; simpl in *; [lia|].
    by apply Forall_cons in Hr as [-> _]. }
  assert (Hall : exists tail : (nat -> nat -> Q) -> nat -> nat -> Z -> Z -> list Q,
            (forall u u' x y x_p y_p,
               (x < fst (size_neo self))%nat -> (y < snd (size_neo self))%nat ->
               tail u x y x_p y_p = tail u' x y x_p y_p)
            /\ forall u, exists rows,
                 assemble self u img s = Ok rows
                 /\ length rows = (fst (size_neo self) * snd (size_neo self))%nat
                 /\ forall x y,
                      (x < fst (size_neo self))%nat ->
                      (y < snd (size_neo self))%nat ->
                      exists x_p y_p v,
                        cell (perceptions s) x y = Some (x_p, y_p)
                        /\ patch img (state s) x y x_p y_p = Ok v
                        /\ rows !! (x * snd (size_neo self) + y)%nat
                           = Some (v ++ tail u x y x_p y_p)).
  { destruct Hpos as [Hpos | [Hpos | Hpos]].
    - exists (fun u x y _ _ =>
                map (u (x * snd (size_neo self) + y)%nat)
                  (seq (3 * 3 * input_dim self) (position_addon self))).
      split.
      + intros. unfold position_addon. by rewrite Hpos.
      + intros u.
        destruct (assemble_other_modes self u img s Hi Wi Hs Ws)
          as (_ & rows & Hrows); [by rewrite Hpos | by rewrite Hpos | done|].
        by exists rows.
    - exists (fun _ _ _ x_p y_p =>
                [(inject_Z (x_p - Z.of_nat Hs / 2) / inject_Z (Z.of_nat Hs / 2))%Q;
                 (inject_Z (y_p - Z.of_nat Ws / 2) / inject_Z (Z.of_nat Ws / 2))%Q]).
      split; [done|]. intros u.
      apply (assemble_positional self u img s Hi Wi Hs Ws
           (fun _ _ x_p y_p =>
              ((inject_Z (x_p - Z.of_nat Hs / 2) / inject_Z (Z.of_nat Hs / 2))%Q,
               (inject_Z (y_p - Z.of_nat Ws / 2) / inject_Z (Z.of_nat Ws / 2))%Q))).
      + unfold position_addon. by rewrite Hpos.
      + done.
      + intros x y x_p y_p. left. rewrite Hpos. split; [done|]. cbn [fst snd].
        rewrite !rescale_current_value by lia. by rewrite EN, EM.
    - exists (fun _ x y _ _ =>
                [((inject_Z (Z.of_nat x) * inject_Z (Z.of_nat Hs)
                   / inject_Z (Z.of_nat (fst (size_neo self)))
                   - inject_Z (Z.of_nat Hs / 2)) / inject_Z (Z.of_nat Hs / 2))%Q;
                 ((inject_Z (Z.of_nat y) * inject_Z (Z.of_nat Ws)
                   / inject_Z (Z.of_nat (snd (size_neo self)))
                   - inject_Z (Z.of_nat Ws / 2)) / inject_Z (Z.of_nat Ws / 2))%Q]).
      split; [done|]. intros u.
      apply (assemble_positional self u img s Hi Wi Hs Ws
           (fun x y _ _ =>
              (((inject_Z (Z.of_nat x) * inject_Z (Z.of_nat Hs)
                 / inject_Z (Z.of_nat (fst (size_neo self)))
                 - inject_Z (Z.of_nat Hs / 2)) / inject_Z (Z.of_nat Hs / 2))%Q,
               ((inject_Z (Z.of_nat y) * inject_Z (Z.of_nat Ws)
                 / inject_Z (Z.of_nat (snd (size_neo self)))
                 - inject_Z (Z.of_nat Ws / 2)) / inject_Z (Z.of_nat Ws / 2))%Q))).
      + unfold position_addon. by rewrite Hpos.
      + done.
      + intros x y x_p y_p. right. rewrite Hpos. split; [done|]. split; [done|].
        cbn [fst snd]. rewrite !rescale_initial_value by lia. by rewrite EN, EM. }
  destruct Hall as (tail & Htail & Hall).
  destruct (Hall (fun _ _ => 0%Q)) as (rows0 & Hrows0 & L0 & Hc0).
  exists rows0. intros u.
  destruct (Hall u) as (rows & Hrows & L & Hc).
  rewrite Hrows. f_equal.
  apply (rows_eq_by_cells (fst (size_neo self)) (snd (size_neo self)));
    [done | done |].
  intros x y Hx Hy.
  destruct (Hc x y Hx Hy) as (x_p & y_p & v & Hcell & Hv & ->).
  destruct (Hc0 x y Hx Hy) as (x_p' & y_p' & v' & Hcell' & Hv' & ->).
  rewrite Hcell in Hcell'. injection Hcell' as <- <-.
  rewrite Hv in Hv'. injection Hv' as <-.
  by rewrite (Htail u (fun _ _ => 0%Q)).
Qed.

Lemma classify_loop_written (self : MovingNCA) (img : image) (Hs Ws : nat)
    (n : nat) :
  position self = None \/ position self = Some "current"%string
  \/ position self = Some "initial"%string ->
  dmodel_shape self ->
  (moving self = true -> fst (size_image self) = snd (size_image self)) ->
  forall (u u' : nat -> nat -> nat -> Q) (s : Store) g,
    well_formed img (state s) (perceptions s)
      (fst (size_neo self)) (snd (size_neo self))
      (fst (size_image self)) (snd (size_image self)) Hs Ws
      (num_hidden self + num_classes self) ->
    classify_loop self u img None n s g = classify_loop self u' img None n s g.
Proof.
  intros Hpos Hd Hsq.
  induction n as [|n IH]; intros u u' s g Hwf; simpl; [done|].
  assert (E : classify_iteration self (u 0%nat) img None s
              = classify_iteration self (u' 0%nat) img None s).
  { destruct (assemble_written self img s _ _ Hs Ws Hpos Hwf) as (rows & Hrows).
    unfold classify_iteration.
    destruct (size_neo self) as [N_neo M_neo].
    destruct (size_active self) as [N_active M_active].
    by rewrite !Hrows. }
  rewrite <- E.
  destruct (classify_iteration_ok self (u 0%nat) img s Hs Ws Hd Hwf Hsq)
    as (s1 & g1 & -> & Hwf1 & _).
  cbn [rbind]. by apply IH.
Qed.

(** Where every entry of the input buffer is written, that is with the
    position mode [None], ["current"] or ["initial"], the batched
    executor on a batch of one agrees with the single-sample executor
    whatever the buffers that the two allocate hold: on well-formed
    arrays, image and state array of the size [size_image], both runs
    complete, with the same final state array, anchors, class slice and
    last guesses, the batched ones under a leading axis of length
    one. *)
Theorem batch_of_one_agrees_when_rows_are_written (self : MovingNCA)
    (uninit uninit_batched : nat -> nat -> nat -> Q) (rnd : nat * nat)
    (img : image) (s : Store) :
  position self = None \/ position self = Some "current"%string
  \/ position self = Some "initial"%string ->
  dmodel_shape self ->
  well_formed img (state s) (perceptions s)
    (fst (size_neo self)) (snd (size_neo self))
    (fst (size_image self)) (snd (size_image self))
    (fst (size_image self)) (snd (size_image self))
    (num_hidden self + num_classes self) ->
  (moving self = true -> fst (size_image self) = snd (size_image self)) ->
  exists s' classes guesses,
    classify self uninit rnd img 0%Q s = Ok (s', (classes, guesses))
    /\ classify_batch self uninit_batched [img] (batch_of_one s)
       = Ok (batch_of_one s', ([classes], guesses)).
Proof.
  intros Hpos Hd Hwf Hsq.
  pose proof Hwf as ([Hli Hri] & Hci & [Hls Hrs] & _).
  assert (Hhd : length (hd [] img) = length (hd [] (state s))).
  { destruct img as [|r1 img'], (state s) as [|r2 st']; simpl in *;
      [done | lia | lia |].
    apply Forall_cons in Hri as [-> _]. by apply Forall_cons in Hrs as [-> _]. }
  rewrite (batch_of_one_same_memory self uninit_batched rnd img s)
    by (done || lia).
  assert (E : classify self uninit_batched rnd img 0%Q s
              = classify self uninit rnd img 0%Q s).
  { pose proof (classify_loop_written self img _ _ (iterations self)
                  Hpos Hd Hsq uninit_batched uninit s None Hwf) as Hl.
    unfold classify. destruct (size_neo self) as [N_neo M_neo].
    change (Qltb 0 0) with false. cbn [rbind]. by rewrite Hl. }
  rewrite E.
  destruct (classify_trace_ok self uninit img (iterations self) s _ _
              Hd Hwf Hsq) as (s' & gs & Htrace & _).
  assert (Hrun : classify self uninit rnd img 0%Q s
                 = Ok (s', (class_slice self (state s'), last gs))).
  { unfold classify. destruct (size_neo self) as [N_neo M_neo].
    change (Qltb 0 0) with false. cbn [rbind].
    rewrite classify_loop_trace, Htrace. simpl. by destruct (last gs). }
  exists s', (class_slice self (state s')), (last gs).
  split; [done|]. by rewrite Hrun.
Qed.

Lemma batch_of_one_agrees_when_rows_are_written_witness :
  exists s' classes guesses,
    classify demo_nca (fun _ _ _ => 0%Q) (0%nat, 0%nat) demo_image 0%Q
      (reset demo_nca demo_anchors) = Ok (s', (classes, guesses))
    /\ classify_batch demo_nca (fun k r c => (Z.of_nat (k + r + c) # 1)%Q)
         [demo_image] (batch_of_one (reset demo_nca demo_anchors))
       = Ok (batch_of_one s', ([classes], guesses)).
Proof.
  apply (batch_of_one_agrees_when_rows_are_written demo_nca).
  - right. by left.
  - intros input. split; [apply length_fmap|].
    apply Forall_fmap, Forall_forall. intros row _. reflexivity.
  - unfold well_formed. split_and!; repeat constructor; simpl; lia.
  - reflexivity.
Defined.
End WrittenRowsExtras.

Section MnistExtras.
Import Arr Mnist.

Lemma shuffle_pairs {A B} (permute : list (A * B) -> list (A * B))
    (X_data : list A) (y_data : list B) :
  (forall l, permute l ≡ₚ l) ->
  zip X_data y_data <> [] ->
  exists X' y',
    shuffle permute X_data y_data = Ok (X', y')
    /\ zip X' y' ≡ₚ zip X_data y_data
    /\ length X' = length y'.
Proof.
  intros Hp Hne. unfold shuffle.
  destruct (permute (zip X_data y_data)) as [|p t] eqn:E.
  - exfalso. apply Hne. apply Permutation_nil_r. rewrite <- E. by rewrite Hp.
  - eexists _, _. split; [done|]. split.
    + rewrite zip_fst_snd, <- E. apply Hp.
    + by rewrite !length_fmap.
Qed.

(** [shuffle] keeps every image with its label: when there is at
    least one pair it returns two arrays of equal length whose pairs
    are the pairs it was given, in another order. *)
Theorem shuffle_keeps_pairs {A B} (permute : list (A * B) -> list (A * B))
    (X_data : list A) (y_data : list B) :
  (forall l, permute l ≡ₚ l) ->
  zip X_data y_data <> [] ->
  exists X' y',
    shuffle permute X_data y_data = Ok (X', y')
    /\ zip X' y' ≡ₚ zip X_data y_data
    /\ length X' = length y'.
Proof. exact (shuffle_pairs permute X_data y_data). Qed.

Lemma shuffle_keeps_pairs_witness :
  exists X' y',
    shuffle (@rev (nat * bool)) [1; 2; 3]%nat [true; false; true] = Ok (X', y')
    /\ zip X' y' ≡ₚ [(1%nat, true); (2%nat, false); (3%nat, true)].
Proof.
  destruct (shuffle_keeps_pairs (@rev (nat * bool)) [1; 2; 3]%nat
              [true; false; true]) as (X' & y' & Hs & Hp & _).
  - intros l. symmetry. apply Permutation_rev.
  - discriminate.
  - exists X', y'. split; [exact Hs | exact Hp].
Defined.

Lemma shuffle_empty {A B} (permute : list (A * B) -> list (A * B))
    (X_data : list A) (y_data : list B) :
  (forall l, permute l ≡ₚ l) ->
  X_data = [] \/ y_data = [] ->
  shuffle permute X_data y_data = Raise ValueError.
Proof.
  intros Hp Hempty. unfold shuffle.
  assert (E : zip X_data y_data = []).
  { destruct Hempty as [-> | ->]; [done | by destruct X_data]. }
  rewrite E. pose proof (Hp []) as H. apply Permutation_nil_r in H.
  by rewrite H.
Qed.

(** [shuffle] of no pair at all raises: the two result tuples cannot
    be unpacked. *)
Theorem shuffle_of_nothing_raises {A B} (permute : list (A * B) -> list (A * B))
    (X_data : list A) (y_data : list B) :
  (forall l, permute l ≡ₚ l) ->
  X_data = [] \/ y_data = [] ->
  shuffle permute X_data y_data = Raise ValueError.
Proof. exact (shuffle_empty permute X_data y_data). Qed.

Lemma shuffle_of_nothing_raises_witness :
  shuffle (@rev (nat * bool)) [] [] = Raise ValueError.
Proof.
  apply shuffle_of_nothing_raises.
  - intros l. symmetry. apply Permutation_rev.
  - by left.
Defined.

Lemma one_hot_lookup N i j :
  (j < N)%nat ->
  one_hot N i !! j = Some (if (j =? i)%nat then 1%Q else 0%Q).
Proof.
  intros H. unfold one_hot, range.
  by rewrite list_lookup_fmap, lookup_seq_lt.
Qed.

(** The labels of two classes are equal only when the classes are. *)
Theorem one_hot_injective (N i j : nat) :
  (i < N)%nat -> (j < N)%nat -> one_hot N i = one_hot N j -> i = j.
Proof.
  intros Hi Hj E.
  pose proof (one_hot_lookup N i i Hi) as H1.
  rewrite E, (one_hot_lookup N j i Hi), Nat.eqb_refl in H1.
  destruct (Nat.eqb_spec i j); [done | discriminate].
Qed.

Lemma one_hot_injective_witness : 1%nat = 1%nat.
Proof. apply (one_hot_injective 3 1 1); [lia | lia | reflexivity]. Defined.

Lemma sample_one_ok {A} (sorted_X : list (list A)) draw i k cls :
  sorted_X !! i = Some cls -> cls <> [] ->
  exists img,
    cls !! (draw i k mod length cls)%nat = Some img
    /\ sample_one sorted_X draw i k = Ok img.
Proof.
  intros Hcls Hne. unfold sample_one. rewrite Hcls. cbn [of_option rbind].
  assert (Hlen : (0 < length cls)%nat) by (destruct cls; [done | simpl; lia]).
  destruct (Nat.eqb_spec (length cls) 0); [lia|].
  destruct (lookup_lt_is_Some_2 cls (draw i k mod length cls)) as [img Himg].
  { apply Nat.mod_upper_bound. lia. }
  exists img. by rewrite Himg.
Qed.

Lemma lookup_concat_uniform {B} (S : nat) (ls : list (list B)) i k :
  Forall (fun l => length l = S) ls -> (k < S)%nat ->
  concat ls !! (i * S + k)%nat = ls !! i ≫= fun l => l !! k.
Proof.
  intros H Hk. revert i. induction H as [|l ls Hl _ IH]; intros i; simpl.
  { by rewrite lookup_nil. }
  destruct i as [|i]; simpl.
  - by rewrite lookup_app_l by lia.
  - rewrite lookup_app_r by lia. rewrite <- IH. f_equal. lia.
Qed.

Lemma sample_all_ok {A} (sorted_X : list (list A)) draw N S :
  (forall i, (i < N)%nat -> exists cls, sorted_X !! i = Some cls /\ cls <> []) ->
  exists pairs,
    sample_all sorted_X draw N S = Ok pairs
    /\ length pairs = (N * S)%nat
    /\ forall i k, (i < N)%nat -> (k < S)%nat ->
         exists cls img,
           sorted_X !! i = Some cls
           /\ cls !! (draw i k mod length cls)%nat = Some img
           /\ pairs !! (i * S + k)%nat = Some (img, one_hot N i).
Proof.
  intros Hcls. unfold sample_all.
  destruct (mapM_total
    (fun i => mapM (fun k => let* img := sample_one sorted_X draw i k in
                             Ok (img, one_hot N i)) (range S)) (range N))
    as [per_class Hpc].
  { intros i Hi%elem_of_range. apply mapM_total. intros k _.
    destruct (Hcls i Hi) as (cls & Hc & Hne).
    destruct (sample_one_ok sorted_X draw i k cls Hc Hne) as (img & _ & ->).
    cbn [rbind]. eauto. }
  rewrite Hpc. cbn [rbind].
  assert (Hrows : Forall (fun l => length l = S) per_class).
  { apply Forall_lookup. intros i row Hrow.
    pose proof (mapM_range_length _ _ _ Hpc) as L.
    destruct (mapM_range_lookup _ _ _ i Hpc) as (row' & E & Hr).
    { rewrite <- L. by eapply lookup_lt_Some. }
    rewrite Hrow in E. injection E as <-. by eapply mapM_range_length. }
  exists (concat per_class). split; [done|]. split.
  - rewrite (length_concat_uniform S) by done.
    by rewrite (mapM_range_length _ _ _ Hpc).
  - intros i k Hi Hk.
    destruct (mapM_range_lookup _ _ _ i Hpc Hi) as (row & Erow & Hrow).
    destruct (mapM_range_lookup _ _ _ k Hrow Hk) as (p & Ep & Hp).
    destruct (Hcls i Hi) as (cls & Hc & Hne).
    destruct (sample_one_ok sorted_X draw i k cls Hc Hne) as (img & Himg & Hs).
    rewrite Hs in Hp. cbn [rbind] in Hp. injection Hp as <-.
    exists cls, img. split; [done|]. split; [done|].
    rewrite lookup_concat_uniform by done. rewrite Erow. simpl. exact Ep.
Qed.

(** With the training images cached, every requested class present and
    not empty, and at least one sample asked for, [get_MNIST_data]
    returns [N_digits * SAMPLES_PER_DIGIT] images with their labels:
    up to order, sample [k] of class [i] is an image of class [i]
    paired with the one-hot label of [i]; the cache is left as it
    was. *)
Theorem get_MNIST_data_samples_every_class {A}
    (load : list nat -> bool -> result (list (list A)))
    (permute : list (A * list Q) -> list (A * list Q))
    (draw : nat -> nat -> nat) (MNIST_DIGITS : list nat)
    (SAMPLES_PER_DIGIT : nat) (cache : Cache A) (sx : list (list A)) :
  (forall l, permute l ≡ₚ l) ->
  sorted_X_train cache = Some sx ->
  (forall i, (i < length MNIST_DIGITS)%nat ->
     exists cls, sx !! i = Some cls /\ cls <> []) ->
  MNIST_DIGITS <> [] -> SAMPLES_PER_DIGIT <> 0%nat ->
  exists X' y' pairs,
    get_MNIST_data load permute draw MNIST_DIGITS SAMPLES_PER_DIGIT false cache
    = (cache, Ok (X', y'))
    /\ zip X' y' ≡ₚ pairs
    /\ length X' = (length MNIST_DIGITS * SAMPLES_PER_DIGIT)%nat
    /\ length y' = (length MNIST_DIGITS * SAMPLES_PER_DIGIT)%nat
    /\ forall i k,
         (i < length MNIST_DIGITS)%nat -> (k < SAMPLES_PER_DIGIT)%nat ->
         exists cls img,
           sx !! i = Some cls /\ img ∈ cls
           /\ pairs !! (i * SAMPLES_PER_DIGIT + k)%nat
              = Some (img, one_hot (length MNIST_DIGITS) i).
Proof.
  intros Hp Hcache Hcls Hd Hs. unfold get_MNIST_data. rewrite Hcache.
  destruct (sample_all_ok sx draw (length MNIST_DIGITS) SAMPLES_PER_DIGIT Hcls)
    as (pairs & -> & Lp & Hpairs).
  cbn [rbind].
  assert (Hz : zip (map fst pairs) (map snd pairs) = pairs) by apply zip_fst_snd.
  assert (Hne : pairs <> []).
  { intros ->. simpl in Lp. destruct MNIST_DIGITS; [done|]. simpl in Lp. lia. }
  destruct (shuffle_pairs permute (map fst pairs) (map snd pairs) Hp)
    as (X' & y' & -> & Hperm & Hlen); [by rewrite Hz|].
  rewrite Hz in Hperm.
  assert (LX : length X' = length pairs).
  { apply Permutation_length in Hperm. rewrite length_zip in Hperm. lia. }
  exists X', y', pairs. split; [done|]. split; [done|].
  split; [lia|]. split; [lia|].
  intros i k Hi Hk. destruct (Hpairs i k Hi Hk) as (cls & img & Hc & Himg & Hpk).
  exists cls, img. split; [done|]. split; [|done].
  apply list_elem_of_lookup. eauto.
Qed.

Lemma get_MNIST_data_samples_every_class_witness :
  exists X' y',
    get_MNIST_data (fun _ _ => Raise IndexError) (@rev (nat * list Q))
      (fun i k => (i + k)%nat) [3; 4]%nat 2 false
      {| sorted_X_train := Some [[30; 31]; [40]]%nat; sorted_X_test := None |}
    = ({| sorted_X_train := Some [[30; 31]; [40]]%nat; sorted_X_test := None |},
       Ok (X', y'))
    /\ length X' = 4%nat.
Proof.
  destruct (get_MNIST_data_samples_every_class
              (fun _ _ => Raise IndexError) (@rev (nat * list Q))
              (fun i k => (i + k)%nat) [3; 4]%nat 2
              {| sorted_X_train := Some [[30; 31]; [40]]%nat;
                 sorted_X_test := None |}
              [[30; 31]; [40]]%nat)
    as (X' & y' & pairs & Hrun & _ & LX & _).
  - intros l. symmetry. apply Permutation_rev.
  - reflexivity.
  - intros [|[|i]] Hi; simpl in Hi; [eexists; split; [reflexivity | discriminate] ..|lia].
  - discriminate.
  - discriminate.
  - exists X', y'. split; [exact Hrun | exact LX].
Defined.

(** Asking for no sample, or for no digit, does not give an empty data
    set: the final [shuffle] raises. *)
Theorem get_MNIST_data_of_nothing_raises {A}
    (load : list nat -> bool -> result (list (list A)))
    (permute : list (A * list Q) -> list (A * list Q))
    (draw : nat -> nat -> nat) (MNIST_DIGITS : list nat)
    (SAMPLES_PER_DIGIT : nat) (cache : Cache A) (sx : list (list A)) :
  (forall l, permute l ≡ₚ l) ->
  sorted_X_train cache = Some sx ->
  MNIST_DIGITS = [] \/ SAMPLES_PER_DIGIT = 0%nat ->
  get_MNIST_data load permute draw MNIST_DIGITS SAMPLES_PER_DIGIT false cache
  = (cache, Raise ValueError).
Proof.
  intros Hp Hcache Hzero. unfold get_MNIST_data. rewrite Hcache. f_equal.
  assert (Hs : sample_all sx draw (length MNIST_DIGITS) SAMPLES_PER_DIGIT = Ok []).
  { unfold sample_all. destruct Hzero as [-> | ->]; [done|].
    rewrite (mapM_pure _ (fun _ => [])) by done. cbn [rbind]. f_equal.
    unfold range. generalize 0%nat.
    induction (length MNIST_DIGITS) as [|n IH]; intros a; simpl; [done|].
    apply IH. }
  rewrite Hs. cbn [rbind]. apply shuffle_empty; [done | by left].
Qed.

Lemma get_MNIST_data_of_nothing_raises_witness :
  get_MNIST_data (fun _ _ => Raise IndexError) (@rev (nat * list Q))
    (fun i k => (i + k)%nat) [3; 4]%nat 0 false
    {| sorted_X_train := Some [[30; 31]; [40]]%nat; sorted_X_test := None |}
  = ({| sorted_X_train := Some [[30; 31]; [40]]%nat; sorted_X_test := None |},
     Raise ValueError).
Proof.
  apply (get_MNIST_data_of_nothing_raises _ _ _ _ _ _ [[30; 31]; [40]]%nat).
  - intros l. symmetry. apply Permutation_rev.
  - reflexivity.
  - by right.
Defined.

(** The cache is filled by the first call and never looks at the
    digits again: after a call for some digits on an empty cache, a
    call for other digits, as many, loads nothing and returns what a
    call for the first digits returns, images of the first digits
    under the labels of the new ones. *)
Theorem get_MNIST_data_cache_ignores_digits {A}
    (load load' : list nat -> bool -> result (list (list A)))
    (permute : list (A * list Q) -> list (A * list Q))
    (draw draw' : nat -> nat -> nat) (digits1 digits2 : list nat)
    (S1 S2 : nat) (test : bool) (cache : Cache A) (sx : list (list A)) :
  (if test then sorted_X_test cache else sorted_X_train cache) = None ->
  load digits1 test = Ok sx ->
  length digits1 = length digits2 ->
  let cache1 :=
    fst (get_MNIST_data load permute draw digits1 S1 test cache) in
  (if test then sorted_X_test cache1 else sorted_X_train cache1) = Some sx
  /\ get_MNIST_data load' permute draw' digits2 S2 test cache1
     = get_MNIST_data load permute draw' digits1 S2 test cache1.
Proof.
  intros Hnone Hload Hlen cache1. subst cache1. unfold get_MNIST_data.
  destruct test; rewrite Hnone, Hload; cbn [rbind fst sorted_X_test sorted_X_train];
    (split; [done|]); by rewrite Hlen.
Qed.

Lemma get_MNIST_data_cache_ignores_digits_witness :
  get_MNIST_data (fun _ _ => Raise IndexError) (@rev (nat * list Q))
    (fun i k => k) [7; 8]%nat 1 false
    (fst (get_MNIST_data (fun _ _ => Ok [[30; 31]; [40]]%nat)
            (@rev (nat * list Q)) (fun i k => k) [3; 4]%nat 1 false
            {| sorted_X_train := None; sorted_X_test := None |}))
  = get_MNIST_data (fun _ _ => Ok [[30; 31]; [40]]%nat) (@rev (nat * list Q))
      (fun i k => k) [3; 4]%nat 1 false
      (fst (get_MNIST_data (fun _ _ => Ok [[30; 31]; [40]]%nat)
              (@rev (nat * list Q)) (fun i k => k) [3; 4]%nat 1 false
              {| sorted_X_train := None; sorted_X_test := None |})).
Proof.
  apply (get_MNIST_data_cache_ignores_digits
           (fun _ _ => Ok [[30; 31]; [40]]%nat) (fun _ _ => Raise IndexError)
           (@rev (nat * list Q)) (fun i k => k) (fun i k => k)
           [3; 4]%nat [7; 8]%nat 1 1 false
           {| sorted_X_train := None; sorted_X_test := None |}
           [[30; 31]; [40]]%nat); reflexivity.
Defined.

Lemma filter_ext_Forall {B} (P1 P2 : B -> Prop)
    `{!forall b, Decision (P1 b), !forall b, Decision (P2 b)} (l : list B) :
  Forall (fun b => P1 b <-> P2 b) l -> filter P1 l = filter P2 l.
Proof.
  induction 1 as [|b l Hb _ IH]; [done|].
  destruct (decide (P1 b)).
  - rewrite !filter_cons_True by tauto. by rewrite IH.
  - rewrite !filter_cons_False by tauto. by rewrite IH.
Qed.

Lemma select_from_offset (x : list (list (list Q))) (y : list nat) (d a : nat) :
  length x = length y ->
  mapM (fun i => of_option IndexError (x !! (i - a)%nat))
    (filter (fun i => y !! (i - a)%nat = Some d) (seq a (length y)))
  = Ok (map fst (filter (fun p => snd p = d) (zip x y))).
Proof.
  revert x a. induction y as [|l y IH]; intros [|img x] a Hlen;
    simpl in Hlen; try lia; [done|].
  cbn [length seq zip zip_with].
  assert (Hf : filter (fun i => (l :: y) !! (i - a)%nat = Some d) (seq (S a) (length y))
               = filter (fun i => y !! (i - S a)%nat = Some d) (seq (S a) (length y))).
  { apply filter_ext_Forall. apply Forall_forall. intros i Hi%elem_of_seq.
    replace (i - a)%nat with (S (i - S a)) by lia. done. }
  assert (Hm : forall idx,
            Forall (fun i => (S a <= i)%nat) idx ->
            mapM (fun i => of_option IndexError ((img :: x) !! (i - a)%nat)) idx
            = mapM (fun i => of_option IndexError (x !! (i - S a)%nat)) idx).
  { intros idx Hidx. induction Hidx as [|i idx Hi _ IHidx]; simpl; [done|].
    rewrite IHidx. replace (i - a)%nat with (S (i - S a)) by lia. done. }
  assert (Hge : Forall (fun i => (S a <= i)%nat)
                  (filter (fun i => y !! (i - S a)%nat = Some d)
                     (seq (S a) (length y)))).
  { apply Forall_forall. intros i [_ Hi%elem_of_seq]%list_elem_of_filter. lia. }
  destruct (decide (l = d)) as [->|Hne].
  - rewrite filter_cons_True by (by rewrite Nat.sub_diag).
    rewrite (filter_cons_True (fun p => snd p = d)) by done.
    cbn [mapM]. rewrite Nat.sub_diag. cbn [lookup list_lookup of_option rbind].
    rewrite Hf, (Hm _ Hge), IH by lia. done.
  - rewrite filter_cons_False by (rewrite Nat.sub_diag; simpl; congruence).
    rewrite (filter_cons_False (fun p => snd p = d)) by done.
    rewrite Hf, (Hm _ Hge), IH by lia. done.
Qed.

Lemma select_digit_spec (x : list (list (list Q))) (y : list nat) (d : nat) :
  length x = length y ->
  select_digit x y d = Ok (map fst (filter (fun p => snd p = d) (zip x y))).
Proof.
  intros Hlen. unfold select_digit, range.
  rewrite <- (select_from_offset x y d 0 Hlen).
  assert (E : filter (fun i => y !! i = Some d) (seq 0 (length y))
              = filter (fun i => y !! (i - 0)%nat = Some d) (seq 0 (length y))).
  { apply list_filter_iff. intros i. by rewrite Nat.sub_0_r. }
  rewrite E. generalize (filter (fun i => y !! (i - 0)%nat = Some d)
                           (seq 0 (length y))) as idx.
  induction idx as [|i idx IHidx]; simpl; [done|].
  by rewrite IHidx, Nat.sub_0_r.
Qed.

(** On a data set with one label per image,
    [initalize_MNIST_reduced_digits] returns one list per requested
    digit, in the order of the request: the scaled images that carry
    that label, in the order of the data set. *)
Theorem initalize_groups_images_by_label (x : list (list (list Z)))
    (y : list nat) (MNIST_DIGITS : list nat) :
  length x = length y ->
  initalize_MNIST_reduced_digits x y MNIST_DIGITS
  = Ok (map (fun d =>
               map fst (filter (fun p => snd p = d)
                          (zip (map scale_image x) y)))
          MNIST_DIGITS).
Proof.
  intros Hlen. unfold initalize_MNIST_reduced_digits.
  apply mapM_pure. intros d _. apply select_digit_spec.
  by rewrite length_fmap.
Qed.

Lemma initalize_groups_images_by_label_witness :
  initalize_MNIST_reduced_digits [[[0]]; [[255]]; [[51]]] [4; 3; 4]%nat
    [3; 4]%nat
  = Ok [[[[(255 # 255)%Q]]]; [[[(0 # 255)%Q]]; [[(51 # 255)%Q]]]].
Proof.
  rewrite initalize_groups_images_by_label by reflexivity.
  vm_compute. reflexivity.
Defined.

(** Scaling by 255 takes pixel values between 0 and 255 into [[0, 1]]. *)
Theorem scaled_pixels_in_unit_interval (img : list (list Z)) :
  Forall (Forall (fun p => 0 <= p <= 255)) img ->
  Forall (Forall (fun q => (0 <= q <= 1)%Q)) (scale_image img).
Proof.
  intros H. unfold scale_image. apply Forall_fmap.
  eapply Forall_impl; [exact H|]. intros row Hrow. simpl.
  apply Forall_fmap. eapply Forall_impl; [exact Hrow|].
  intros p [H0 H255]. simpl. split.
  - apply Qle_shift_div_l; [reflexivity|].
    rewrite Qmult_0_l. change 0%Q with (inject_Z 0). by rewrite <- Zle_Qle.
  - apply Qle_shift_div_r; [reflexivity|].
    rewrite Qmult_1_l. change 255%Q with (inject_Z 255). by rewrite <- Zle_Qle.
Qed.

Lemma scaled_pixels_in_unit_interval_witness :
  Forall (Forall (fun q => (0 <= q <= 1)%Q)) (scale_image [[0; 128; 255]]).
Proof.
  apply scaled_pixels_in_unit_interval. repeat constructor; simpl; lia.
Defined.
End MnistExtras.
